(** * Party Planner CLI: shallow embedding of [party_planner.py]

    The first part is the model, in the order of the program:
    - [PyStr]: the methods of Python's [str] the program calls;
    - JSON values, contact records, the files, and the two stores built
      on them (contact cache, named lists);
    - the contacts source adapter ([fetch_contacts_from_mac]);
    - the interactive contact search;
    - the message composer ([draft_message], with [str.format]);
    - the messaging adapter and the send-texts flow;
    - [Platform]: a concrete platform to evaluate the program on;
    - the descriptions the program is checked against, and sample data;
    - the banner colours, the cached contacts, the names of the lists
      and the maintenance of a list ([rainbow_text], [get_all_contacts],
      [get_existing_lists], [add_contact_manually], [remove_contact]),
      with their descriptions and sample data;
    - [Wide]: [str.lower] and the search filter on strings of every
      code point.
    The second part states and proves the properties.

    Conventions.  A Python [str] is modelled by [string], read as the
    sequence of its code points, for code points below 256; the
    character classes are Python's on that range, where [str.lower]
    works character by character ([lower_codes]).  A call that can
    raise returns an [outcome].  An interactive function takes the
    lines still to be read from standard input and returns a [run]:
    the events it produced, in order, its result, the lines left and
    the final state.  What the program only calls (the [osascript]
    bridge, the [json] module) is a field of the class [Env]; the
    properties hold for every instance. *)

From Stdlib Require Import Ascii String ZArith List Lia Bool.
From stdpp Require Import base gmap strings list sorting.

Local Open Scope bool_scope.

(** ** Exceptions and outcomes *)

Inductive exn : Type :=
  | KeyError (key : string)
  | IndexError
  | ValueError
  | AttributeError
  | IOError
  | EOFError.

Inductive outcome (A : Type) : Type :=
  | Ok (a : A)
  | Raise (e : exn).

Arguments Ok {A} a.
Arguments Raise {A} e.

Definition bind {A B : Type} (m : outcome A) (k : A -> outcome B) : outcome B :=
  match m with
  | Ok a => k a
  | Raise e => Raise e
  end.

Notation "'let!' x ':=' m 'in' k" := (bind m (fun x => k))
  (at level 10, x name, m at level 100, k at level 200).

(** ** Python's [str] methods *)

Module PyStr.

Definition code (c : ascii) : N := N_of_ascii c.

Definition newline : ascii := ascii_of_N 10.
Definition dquote : ascii := ascii_of_N 34.
Definition backslash : ascii := ascii_of_N 92.

(** [str.isspace] on one character. *)
Definition is_space (c : ascii) : bool :=
  let n := code c in
  ((9 <=? n) && (n <=? 13) || (28 <=? n) && (n <=? 32)
   || (n =? 133) || (n =? 160))%N.

(** [str.isdigit] on one character: the decimal digits and the three
    superscript digits of the range. *)
Definition is_digit_char (c : ascii) : bool :=
  let n := code c in
  ((48 <=? n) && (n <=? 57) || (n =? 178) || (n =? 179) || (n =? 185))%N.

(** The characters [int] accepts as digits. *)
Definition is_decimal (c : ascii) : bool :=
  let n := code c in ((48 <=? n) && (n <=? 57))%N.

(** [str.lower] on one character. *)
Definition lower_char (c : ascii) : ascii :=
  let n := code c in
  if ((65 <=? n) && (n <=? 90)
      || (192 <=? n) && (n <=? 222) && negb (n =? 215))%N
  then ascii_of_N (n + 32) else c.

Fixpoint lower (s : string) : string :=
  match s with
  | EmptyString => EmptyString
  | String c r => String (lower_char c) (lower r)
  end.

Definition is_empty (s : string) : bool :=
  match s with
  | EmptyString => true
  | String _ _ => false
  end.

Fixpoint lstrip (s : string) : string :=
  match s with
  | EmptyString => EmptyString
  | String c r => if is_space c then lstrip r else s
  end.

Fixpoint rstrip (s : string) : string :=
  match s with
  | EmptyString => EmptyString
  | String c r =>
      let r' := rstrip r in
      if is_space c && is_empty r' then EmptyString else String c r'
  end.

(** [s.strip()] *)
Definition strip (s : string) : string := rstrip (lstrip s).

Fixpoint all_chars (p : ascii -> bool) (s : string) : bool :=
  match s with
  | EmptyString => true
  | String c r => p c && all_chars p r
  end.

(** [s.isdigit()]: false on the empty string. *)
Definition isdigit (s : string) : bool :=
  negb (is_empty s) && all_chars is_digit_char s.

(** [s.replace(old, new)] for a one-character [old]. *)
Fixpoint replace_char (old : ascii) (new : string) (s : string) : string :=
  match s with
  | EmptyString => EmptyString
  | String c r =>
      if Ascii.eqb c old then new +:+ replace_char old new r
      else String c (replace_char old new r)
  end.

(** [s.startswith(p)] *)
Fixpoint startswith (p s : string) : bool :=
  match p, s with
  | EmptyString, _ => true
  | String a p', String b s' => Ascii.eqb a b && startswith p' s'
  | String _ _, EmptyString => false
  end.

(** [needle in hay] *)
Fixpoint contains (needle hay : string) : bool :=
  startswith needle hay ||
  match hay with
  | EmptyString => false
  | String _ r => contains needle r
  end.

(** [s.split(sep)] for a one-character [sep]: never the empty list. *)
Fixpoint split_on (sep : ascii) (s : string) : list string :=
  match s with
  | EmptyString => [EmptyString]
  | String c r =>
      if Ascii.eqb c sep then EmptyString :: split_on sep r
      else match split_on sep r with
           | h :: t => String c h :: t
           | [] => [String c EmptyString]
           end
  end.

(** [s.split()]: the maximal runs of non-whitespace characters. *)
Fixpoint split_ws (s : string) : list string :=
  match s with
  | EmptyString => []
  | String c r =>
      if is_space c then split_ws r
      else match r with
           | EmptyString => [String c EmptyString]
           | String c' _ =>
               if is_space c' then String c EmptyString :: split_ws r
               else match split_ws r with
                    | h :: t => String c h :: t
                    | [] => [String c EmptyString]
                    end
           end
  end.

(** [l[i]] for a natural index. *)
Definition index {A : Type} (l : list A) (i : nat) : outcome A :=
  match nth_error l i with
  | Some a => Ok a
  | None => Raise IndexError
  end.

(** The whitespace [int] skips around a literal. *)
Definition is_int_space (c : ascii) : bool :=
  let n := code c in
  ((9 <=? n) && (n <=? 13) || (n =? 32) || (n =? 133) || (n =? 160))%N.

Fixpoint lstrip_by (p : ascii -> bool) (s : string) : string :=
  match s with
  | EmptyString => EmptyString
  | String c r => if p c then lstrip_by p r else s
  end.

Fixpoint rstrip_by (p : ascii -> bool) (s : string) : string :=
  match s with
  | EmptyString => EmptyString
  | String c r =>
      let r' := rstrip_by p r in
      if p c && is_empty r' then EmptyString else String c r'
  end.

Definition digit_value (c : ascii) : Z := Z.of_N (code c) - 48.

(** The digits of an [int] literal after its sign: digit groups joined
    by single underscores.  [after_digit] tells whether the previous
    character was a digit. *)
Fixpoint int_digits (acc : Z) (after_digit : bool) (s : string) : option Z :=
  match s with
  | EmptyString => if after_digit then Some acc else None
  | String c r =>
      if is_decimal c then int_digits (10 * acc + digit_value c) true r
      else if Ascii.eqb c "_" && after_digit then
        match r with
        | String c' _ => if is_decimal c' then int_digits acc false r else None
        | EmptyString => None
        end
      else None
  end.

(** [int(s)]: [None] stands for [ValueError]. *)
Definition int (s : string) : option Z :=
  match rstrip_by is_int_space (lstrip_by is_int_space s) with
  | String "+" r => int_digits 0 false r
  | String "-" r => option_map Z.opp (int_digits 0 false r)
  | t => int_digits 0 false t
  end.

End PyStr.

Import PyStr.

(** ** Data model *)

(** The values that travel through the [json] module: [None], booleans,
    integers, strings, lists, and dicts with string keys (in insertion
    order; a key occurs once). *)
#[warnings="-register-all"]
Inductive json : Type :=
  | JNull
  | JBool (b : bool)
  | JInt (n : Z)
  | JStr (s : string)
  | JList (items : list json)
  | JDict (members : list (string * json)).

(** A contact record: the dict with keys ['name'], ['phone'] and, when
    the contact came from the address book, ['first_name']. *)
Record contact : Type := mkContact {
  name : string;
  first_name : option string;
  phone : string
}.

Definition json_of_contact (c : contact) : json :=
  JDict ([("name", JStr (name c))]
         ++ match first_name c with
            | Some f => [("first_name", JStr f)]
            | None => []
            end
         ++ [("phone", JStr (phone c))]).

Fixpoint assoc {V : Type} (key : string) (members : list (string * V)) : option V :=
  match members with
  | [] => None
  | (k, v) :: rest => if String.eqb k key then Some v else assoc key rest
  end.

(** [data.get(key, default)]; only a dict has the method. *)
Definition dict_get (data : json) (key : string) (default : json) : outcome json :=
  match data with
  | JDict members =>
      Ok (match assoc key members with
          | Some v => v
          | None => default
          end)
  | _ => Raise AttributeError
  end.

(** ** The environment of the program *)

(** What [subprocess.run] does with its command line. *)
Inductive proc_result : Type :=
  | Completed (returncode : Z) (stdout stderr : string)
  | TimeoutExpired (msg : string)
  | OtherException (msg : string).

(** The parts of the platform the program calls and does not define:
    the [osascript] bridge (acting on a state of the outside world),
    the [json] module, the installation directory, and [str.format] on
    a template that starts with a replacement field using a conversion,
    a format specification, or attribute or index access. *)
Class Env : Type := {
  World : Type;
  subprocess_run : list string -> World -> proc_result * World;
  json_dump : json -> nat -> string;
  json_load : string -> option json;
  format_beyond : string -> list (string * string) -> outcome string;
  APP_DIR : string
}.

(** An entry of the file system.  The files are a map from paths to
    entries ([gmap string node]); a path is a key of the map, compared
    as it is written.  An entry that is in the map can be reached; a new
    entry can only be made in a directory that is there.  Every failure
    to open a path is the I/O error of the model. *)
Inductive node : Type :=
  | File (content : string)
  | Dir.

Fixpoint endswith_char (c : ascii) (s : string) : bool :=
  match s with
  | EmptyString => false
  | String a EmptyString => Ascii.eqb a c
  | String _ r => endswith_char c r
  end.

(** [os.path.join] of two components. *)
Definition path_join (a b : string) : string :=
  if startswith "/" b then b
  else if is_empty a || endswith_char "/" a then a +:+ b
  else a +:+ "/" +:+ b.

(** [os.path.exists] *)
Definition path_exists (fs : gmap string node) (path : string) : bool :=
  match fs !! path with
  | Some _ => true
  | None => false
  end.

(** [open(path, "r")] followed by reading the whole file. *)
Definition read_file (fs : gmap string node) (path : string) : outcome string :=
  match fs !! path with
  | Some (File content) => Ok content
  | Some Dir => Raise IOError
  | None => Raise IOError
  end.

(** The directory in which the entry at [path] lies: the text before
    the last ['/'].  There is none for a path without a ['/'], which
    names an entry of the current directory; the empty text is the
    root. *)
Fixpoint parent (path : string) : option string :=
  match path with
  | EmptyString => None
  | String c r =>
      match parent r with
      | Some d => Some (String c d)
      | None => if Ascii.eqb c "/" then Some EmptyString else None
      end
  end.

(** The directory in which [path] lies is there: the current directory
    and the root always are, another one when the files have it as a
    directory. *)
Definition has_directory (fs : gmap string node) (path : string) : bool :=
  match parent path with
  | None | Some EmptyString => true
  | Some d =>
      match fs !! d with
      | Some Dir => true
      | Some (File _) | None => false
      end
  end.

(** [open(path, "w")] followed by writing [text]: a file that is there
    is truncated, a new one is created in its directory, then it holds
    [text].  Opening raises when a directory sits at [path]
    ([IsADirectoryError]), and when the file is new and its directory is
    missing or is a regular file ([FileNotFoundError],
    [NotADirectoryError]). *)
Definition write_file (fs : gmap string node) (path text : string)
  : outcome (gmap string node) :=
  match fs !! path with
  | Some Dir => Raise IOError
  | Some (File _) => Ok (<[path := File text]> fs)
  | None =>
      if has_directory fs path then Ok (<[path := File text]> fs)
      else Raise IOError
  end.

(** [open(path, "w")] does not raise. *)
Definition writable (fs : gmap string node) (path : string) : bool :=
  match fs !! path with
  | Some Dir => false
  | Some (File _) => true
  | None => has_directory fs path
  end.


(** ** Terminal events *)

(** The prompts of the calls to [input]. *)
Inductive prompt : Type :=
  | PSearch       (* SEARCH YOUR CONTACTS *)
  | PSelection    (* numbers to add *)
  | PTemplate     (* the message template *)
  | PChoice (i : nat)   (* [Enter/S/E/N/Q], under the header of contact [i] *)
  | PNewMsg (i : nat).  (* New msg, for contact [i] *)

(** What the program does at the terminal and towards the messaging
    client.  Each [print] of the two interactive flows and of the
    contacts adapter has its event, with the values it interpolates;
    [Input] is a line read by [input] (when no line is left, [input]
    raises [EOFError]); [SendIMessage i phone message]
    is the call [send_imessage(phone, message)] made while the loop
    counter of [send_texts_flow] is [i]. *)
Inductive event : Type :=
  | Input (p : prompt) (line : string)
  (* fetch_contacts_from_mac *)
  | Syncing
  | LoadError (stderr : string)
  | Synced (count : nat)
  | TimedOut
  | FetchError
  (* interactive_contact_search *)
  | SearchHeader
  | PartyCount (count : nat)
  | Refreshed
  | NoneAddedYet
  | PartyList (selected : list contact)
  | EnterSearchFirst
  | NoMatch (query : string)
  | Found (matches : list (contact * bool))
  | SelectionHelp
  | InvalidSelection
  | Added (c : contact)
  | AllAlreadyInList
  (* send_texts_flow *)
  | NoContacts
  | Banner
  | Using (template : string)
  | EmptyMessage
  | Legend
  | InvalidPlaceholder (key : string)
  | Show (i total : nat) (c : contact) (message : string)
  | Sending
  | SendIMessage (i : nat) (phone message : string)
  | SendResult (success : bool) (error : option string)
  | Blank
  | QuitSummary (sent skipped : nat)
  | Done (sent skipped : nat).

Section Program.

Context `{Env}.

(** ** List store and contact cache *)

Definition LISTS_DIR : string := path_join APP_DIR "lists".
Definition CONTACTS_CACHE_FILE : string := path_join APP_DIR "mac_contacts_cache.json".

Definition ensure_lists_dir (fs : gmap string node) : gmap string node :=
  if negb (path_exists fs LISTS_DIR) then <[LISTS_DIR := Dir]> fs else fs.

(** The document both stores write: [{"contacts": contacts}]. *)
Definition document (contacts : json) : json := JDict [("contacts", contacts)].

(** The body of the [try] of both loaders, with its [except
    (json.JSONDecodeError, IOError)] clause returning [on_error]. *)
Definition load_document (fs : gmap string node) (path : string) (on_error : json)
  : outcome json :=
  match read_file fs path with
  | Raise IOError => Ok on_error
  | Raise e => Raise e
  | Ok text =>
      match json_load text with
      | None => Ok on_error
      | Some data => dict_get data "contacts" (JList [])
      end
  end.

Definition load_cached_contacts (fs : gmap string node) : outcome json :=
  if negb (path_exists fs CONTACTS_CACHE_FILE) then Ok JNull
  else load_document fs CONTACTS_CACHE_FILE JNull.

Definition save_contacts_cache (contacts : json) (fs : gmap string node)
  : outcome (gmap string node) :=
  write_file fs CONTACTS_CACHE_FILE (json_dump (document contacts) 2).

Definition list_path (name : string) : string :=
  path_join LISTS_DIR (name +:+ ".json").

Definition load_list (name : string) (fs : gmap string node) : outcome json :=
  let filepath := list_path name in
  if negb (path_exists fs filepath) then Ok (JList [])
  else load_document fs filepath (JList []).

Definition save_list (name : string) (contacts : json) (fs : gmap string node)
  : outcome (gmap string node) :=
  let fs := ensure_lists_dir fs in
  let filepath := list_path name in
  write_file fs filepath (json_dump (document contacts) 2).

(** ** Contacts source adapter *)

Definition jxa_script : string :=
  String newline "    const app = Application(" +:+ String dquote "Contacts" +:+ String dquote ");" +:+
  String newline "    const people = app.people();" +:+
  String newline "    const results = [];" +:+
  String newline "    for (let i = 0; i < people.length; i++) {" +:+
  String newline "        try {" +:+
  String newline "            const p = people[i];" +:+
  String newline "            const name = p.name();" +:+
  String newline "            const phones = p.phones();" +:+
  String newline "            if (phones.length > 0) {" +:+
  String newline "                results.push(name + " +:+ String dquote "|" +:+ String dquote " + phones[0].value());" +:+
  String newline "            }" +:+
  String newline "        } catch(e) {}" +:+
  String newline "    }" +:+
  String newline "    results.join(" +:+ String dquote "\n" +:+ String dquote ");" +:+
  String newline "    ".

(** The body of the loop over the output lines: the records the line
    appends to [contacts]. *)
Definition contacts_of_line (line : string) : outcome (list contact) :=
  if contains "|" line then
    let parts := split_on "|" line in
    if (2 <=? length parts)%nat then
      let! part0 := index parts 0 in
      let full_name := strip part0 in
      let! first :=
        if negb (is_empty full_name) then index (split_ws full_name) 0
        else Ok EmptyString in
      let! part1 := index parts 1 in
      Ok [ {| name := full_name; first_name := Some first; phone := strip part1 |} ]
    else Ok []
  else Ok [].

Fixpoint contacts_of_lines (lines : list string) (contacts : list contact)
  : outcome (list contact) :=
  match lines with
  | [] => Ok contacts
  | line :: rest =>
      let! new := contacts_of_line line in
      contacts_of_lines rest (contacts ++ new)
  end.

(** Lines 111-122: the records built from the text on standard output. *)
Definition parse_contacts (stdout : string) : outcome (list contact) :=
  contacts_of_lines (split_on newline (strip stdout)) [].

(** The state the adapters act on: the outside world and the files. *)
Record machine : Type := mkMachine {
  world : World;
  files : gmap string node
}.

(** [fetch_contacts_from_mac()]: events, returned contacts, new state.
    Every exception raised inside its [try] is caught. *)
Definition fetch_contacts_from_mac (m : machine)
  : list event * list contact * machine :=
  let '(r, w) :=
    subprocess_run ["osascript"; "-l"; "JavaScript"; "-e"; jxa_script] (world m) in
  let m' := mkMachine w (files m) in
  match r with
  | TimeoutExpired _ => ([Syncing; TimedOut], [], m')
  | OtherException _ => ([Syncing; FetchError], [], m')
  | Completed returncode stdout stderr =>
      if negb (returncode =? 0)%Z then ([Syncing; LoadError stderr], [], m')
      else
        match parse_contacts stdout with
        | Raise _ => ([Syncing; FetchError], [], m')
        | Ok contacts =>
            match save_contacts_cache (JList (map json_of_contact contacts)) (files m) with
            | Raise _ => ([Syncing; FetchError], [], m')
            | Ok fs => ([Syncing; Synced (length contacts)], contacts, mkMachine w fs)
            end
        end
  end.

(** ** Interactive flows *)

(** A run of an interactive function: the events in order, the result,
    the lines not yet read and the final state. *)
Record run (A : Type) : Type := mkRun {
  events : list event;
  result : outcome A;
  stdin : list string;
  final : machine
}.

Arguments mkRun {A} _ _ _ _.
Arguments events {A} _.
Arguments result {A} _.
Arguments stdin {A} _.
Arguments final {A} _.

(** Events that happen before the rest of a run. *)
Definition emit {A : Type} (evs : list event) (r : run A) : run A :=
  mkRun (evs ++ events r) (result r) (stdin r) (final r).

(** ** Interactive contact search *)

(** [any(c['phone'] == contact['phone'] for c in selected_contacts)] *)
Definition already_added (candidate : contact) (selected_contacts : list contact) : bool :=
  existsb (fun c => String.eqb (phone c) (phone candidate)) selected_contacts.

(** The condition of the comprehension of line 185. *)
Definition matches_query (query : string) (c : contact) : bool :=
  contains (lower query) (lower (name c)).

(** [[int(x.strip()) - 1 for x in selection.split(",")]]; [None] when
    some [int] raises [ValueError]. *)
Fixpoint indices_of (fields : list string) : option (list Z) :=
  match fields with
  | [] => Some []
  | x :: rest =>
      match int (strip x) with
      | None => None
      | Some n =>
          match indices_of rest with
          | None => None
          | Some l => Some ((n - 1)%Z :: l)
          end
      end
  end.

(** [[matches[i] for i in indices if 0 <= i < len(matches)]] *)
Fixpoint pick (matches : list contact) (indices : list Z) : list contact :=
  match indices with
  | [] => []
  | i :: rest =>
      if ((0 <=? i) && (i <? Z.of_nat (length matches)))%Z then
        match nth_error matches (Z.to_nat i) with
        | Some c => c :: pick matches rest
        | None => pick matches rest
        end
      else pick matches rest
  end.

(** Lines 216-221: the loop that appends to [selected_contacts]. *)
Fixpoint add_selected (to_add selected_contacts : list contact) (added_count : nat)
  : list event * list contact * nat :=
  match to_add with
  | [] => ([], selected_contacts, added_count)
  | candidate :: rest =>
      if negb (already_added candidate selected_contacts) then
        let '(evs, sel, n) :=
          add_selected rest (selected_contacts ++ [candidate]) (S added_count) in
        (Added candidate :: evs, sel, n)
      else add_selected rest selected_contacts added_count
  end.

(** The [while True] loop of [interactive_contact_search]. *)
Fixpoint search_loop (all_contacts selected_contacts : list contact)
  (lines : list string) (m : machine) : run (list contact) :=
  match lines with
  | [] => mkRun [PartyCount (length selected_contacts)] (Raise EOFError) [] m
  | line :: rest =>
    emit [PartyCount (length selected_contacts); Input PSearch line]
    (let query := strip line in
     if String.eqb (lower query) "done" then mkRun [] (Ok selected_contacts) rest m
     else if String.eqb (lower query) "sync" then
       let '(evs, fetched, m') := fetch_contacts_from_mac m in
       emit (evs ++ match fetched with [] => [] | _ :: _ => [Refreshed] end)
            (search_loop fetched selected_contacts rest m')
     else if String.eqb (lower query) "list" then
       emit [match selected_contacts with
             | [] => NoneAddedYet
             | _ :: _ => PartyList selected_contacts
             end]
            (search_loop all_contacts selected_contacts rest m)
     else if is_empty query then search_loop all_contacts selected_contacts rest m
     else if isdigit (replace_char " " "" (replace_char "," "" query)) then
       emit [EnterSearchFirst] (search_loop all_contacts selected_contacts rest m)
     else
       let matches := List.filter (matches_query query) all_contacts in
       match matches with
       | [] => emit [NoMatch query] (search_loop all_contacts selected_contacts rest m)
       | _ :: _ =>
         emit [Found (map (fun c => (c, already_added c selected_contacts)) matches);
               SelectionHelp]
         match rest with
         | [] => mkRun [] (Raise EOFError) [] m
         | line2 :: rest2 =>
           emit [Input PSelection line2]
           (let selection := lower (strip line2) in
            if is_empty selection then search_loop all_contacts selected_contacts rest2 m
            else
              match (if String.eqb selection "a" then Some matches
                     else option_map (pick matches)
                            (indices_of (split_on "," selection))) with
              | None =>
                  emit [InvalidSelection]
                       (search_loop all_contacts selected_contacts rest2 m)
              | Some to_add =>
                  let '(evs, selected', added_count) :=
                    add_selected to_add selected_contacts 0 in
                  emit (evs ++ match added_count with
                               | O => [AllAlreadyInList]
                               | S _ => []
                               end)
                       (search_loop all_contacts selected' rest2 m)
              end)
         end
       end)
  end.

Definition interactive_contact_search (all_contacts selected_contacts : list contact)
  (lines : list string) (m : machine) : run (list contact) :=
  emit [SearchHeader] (search_loop all_contacts selected_contacts lines m).

(** ** Message composer *)

(** [str.format] called with keyword arguments only, as in
    [draft_message].  The scan follows the interpreter: literal text up
    to a brace, a doubled brace for a literal brace, otherwise a
    replacement field up to its closing brace; fields are rendered in
    order, so the first error met is the one raised. *)

Definition PY_SSIZE_T_MAX : Z := 2 ^ 63 - 1.

(** Whether the first part of a field name is a decimal index. *)
Inductive field_index : Type :=
  | NotInteger
  | TooManyDigits
  | IndexOf (n : Z).

Fixpoint get_integer_from (accumulator : Z) (s : string) : field_index :=
  match s with
  | EmptyString => IndexOf accumulator
  | String c r =>
      if is_decimal c then
        let digitval := digit_value c in
        if (accumulator >? (PY_SSIZE_T_MAX - digitval) / 10)%Z then TooManyDigits
        else get_integer_from (accumulator * 10 + digitval) r
      else NotInteger
  end.

Definition get_integer (s : string) : field_index :=
  if is_empty s then NotInteger else get_integer_from 0 s.

Definition is_accessor (c : ascii) : bool := Ascii.eqb c "." || Ascii.eqb c "[".

(** The part of a field name before the first ['.'] or ['[']. *)
Fixpoint field_first (field_name : string) : string :=
  match field_name with
  | EmptyString => EmptyString
  | String c r => if is_accessor c then EmptyString else String c (field_first r)
  end.

Definition has_accessor (field_name : string) : bool :=
  negb (all_chars (fun c => negb (is_accessor c)) field_name).

(** The object a plain field stands for. *)
Inductive field_value : Type :=
  | Plain (value : string)
  | Accessed                  (* attribute or index access on a value *)
  | FieldError (e : exn).

(** Looking a field up when there are no positional arguments: an
    empty or numeric first part indexes the empty tuple. *)
Definition get_field (field_name : string) (kwargs : list (string * string))
  : field_value :=
  let first := field_first field_name in
  match get_integer first with
  | TooManyDigits => FieldError ValueError
  | IndexOf _ => FieldError IndexError
  | NotInteger =>
      if is_empty first then FieldError IndexError
      else match assoc first kwargs with
           | None => FieldError (KeyError first)
           | Some value => if has_accessor field_name then Accessed else Plain value
           end
  end.

Inductive scan_mode : Type :=
  | Literal
  | FieldName (start : string) (field_name : string)
  | Bracket (start : string) (field_name : string).

Definition prepend (text : string) (r : outcome string) : outcome string :=
  let! rest := r in Ok (text +:+ rest).

Definition snoc (s : string) (c : ascii) : string := s +:+ String c EmptyString.

(** In the two field modes [start] is the template from the opening
    brace of the field being read; it is what [format_beyond] gets. *)
Fixpoint format_scan (kwargs : list (string * string)) (mode : scan_mode)
  (t : string) {struct t} : outcome string :=
  match mode, t with
  | Literal, EmptyString => Ok EmptyString
  | Literal, String c r =>
      if Ascii.eqb c "{" then
        match r with
        | EmptyString => Raise ValueError
        | String c' r' =>
            if Ascii.eqb c' "{" then prepend "{" (format_scan kwargs Literal r')
            else format_scan kwargs (FieldName t EmptyString) r
        end
      else if Ascii.eqb c "}" then
        match r with
        | EmptyString => Raise ValueError
        | String c' r' =>
            if Ascii.eqb c' "}" then prepend "}" (format_scan kwargs Literal r')
            else Raise ValueError
        end
      else prepend (String c EmptyString) (format_scan kwargs Literal r)
  | FieldName _ _, EmptyString => Raise ValueError
  | FieldName start field_name, String c r =>
      if Ascii.eqb c "{" then Raise ValueError
      else if Ascii.eqb c "[" then format_scan kwargs (Bracket start (snoc field_name c)) r
      else if Ascii.eqb c "}" then
        match get_field field_name kwargs with
        | FieldError e => Raise e
        | Plain value => prepend value (format_scan kwargs Literal r)
        | Accessed => format_beyond start kwargs
        end
      else if Ascii.eqb c "!" || Ascii.eqb c ":" then format_beyond start kwargs
      else format_scan kwargs (FieldName start (snoc field_name c)) r
  | Bracket _ _, EmptyString => Raise ValueError
  | Bracket start field_name, String c r =>
      if Ascii.eqb c "]" then format_scan kwargs (FieldName start (snoc field_name c)) r
      else format_scan kwargs (Bracket start (snoc field_name c)) r
  end.

(** [template.format] with the keyword arguments [kwargs]. *)
Definition format (template : string) (kwargs : list (string * string)) : outcome string :=
  format_scan kwargs Literal template.

Definition draft_message (template : string) (c : contact) : outcome string :=
  let! first :=
    if negb (is_empty (name c)) then
      match first_name c with
      | Some f => if negb (is_empty f) then Ok f else index (split_ws (name c)) 0
      | None => index (split_ws (name c)) 0
      end
    else Ok EmptyString in
  format template [("name", first); ("first_name", first); ("phone", phone c)].

(** ** Messaging adapter *)

Definition escape_applescript (s : string) : string :=
  replace_char dquote (String backslash (String dquote EmptyString))
    (replace_char backslash (String backslash (String backslash EmptyString)) s).

Definition applescript_for (escaped_phone escaped_message : string) : string :=
  String newline "    tell application " +:+ String dquote "Messages" +:+ String dquote "" +:+
  String newline "        set targetService to 1st account whose service type = iMessage" +:+
  String newline "        set targetBuddy to participant " +:+ String dquote escaped_phone +:+
    String dquote " of targetService" +:+
  String newline "        send " +:+ String dquote escaped_message +:+
    String dquote " to targetBuddy" +:+
  String newline "    end tell" +:+
  String newline "    ".

Definition send_imessage (phone message : string) (m : machine)
  : (bool * option string) * machine :=
  let escaped_message := escape_applescript message in
  let escaped_phone := escape_applescript phone in
  let applescript := applescript_for escaped_phone escaped_message in
  let '(r, w) := subprocess_run ["osascript"; "-e"; applescript] (world m) in
  (match r with
   | Completed returncode _ stderr =>
       if negb (returncode =? 0)%Z then (false, Some stderr) else (true, None)
   | TimeoutExpired msg => (false, Some msg)
   | OtherException msg => (false, Some msg)
   end, mkMachine w (files m)).

(** ** Send-texts flow *)

(** How the inner [while True] of one contact ends. *)
Inductive loop_exit : Type :=
  | NextContact (sent_count skipped_count : nat) (lines : list string) (m : machine)
  | Quit (lines : list string) (m : machine)
  | EndOfInput (m : machine).

(** Lines 516-537 for contact number [i] of [total]. *)
Fixpoint prompt_loop (i total : nat) (c : contact) (message : string)
  (sent_count skipped_count : nat) (lines : list string) (m : machine)
  : list event * loop_exit :=
  match lines with
  | [] => ([Show i total c message], EndOfInput m)
  | line :: rest =>
      let choice := lower (strip line) in
      let shown := [Show i total c message; Input (PChoice i) line] in
      if String.eqb choice "s" || String.eqb choice "" then
        let '((success, error), m') := send_imessage (phone c) message m in
        (shown ++ [Sending; SendIMessage i (phone c) message; SendResult success error],
         NextContact (if success then S sent_count else sent_count) skipped_count rest m')
      else if String.eqb choice "e" then
        match rest with
        | [] => (shown, EndOfInput m)
        | line2 :: rest2 =>
            let message' := if is_empty (strip line2) then message else strip line2 in
            let '(evs, x) :=
              prompt_loop i total c message' sent_count skipped_count rest2 m in
            (shown ++ [Input (PNewMsg i) line2; Blank] ++ evs, x)
        end
      else if String.eqb choice "n" then
        (shown, NextContact sent_count (S skipped_count) rest m)
      else if String.eqb choice "q" then
        (shown ++ [QuitSummary sent_count (skipped_count + total - i)], Quit rest m)
      else
        let '(evs, x) := prompt_loop i total c message sent_count skipped_count rest m in
        (shown ++ evs, x)
  end.

(** The [for] loop of line 509 from contact number [i] on. *)
Fixpoint contact_loop (template : string) (total i : nat) (contacts : list contact)
  (sent_count skipped_count : nat) (lines : list string) (m : machine) : run unit :=
  match contacts with
  | [] => mkRun [Done sent_count skipped_count] (Ok tt) lines m
  | c :: rest =>
      match draft_message template c with
      | Raise (KeyError key) => mkRun [InvalidPlaceholder key] (Ok tt) lines m
      | Raise e => mkRun [] (Raise e) lines m
      | Ok message =>
          let '(evs, x) :=
            prompt_loop i total c message sent_count skipped_count lines m in
          match x with
          | NextContact sent_count' skipped_count' lines' m' =>
              emit evs (contact_loop template total (S i) rest
                          sent_count' skipped_count' lines' m')
          | Quit lines' m' => mkRun evs (Ok tt) lines' m'
          | EndOfInput m' => mkRun evs (Raise EOFError) [] m'
          end
      end
  end.

Definition default_template : string :=
  "Hey {name}! Party at my place Friday at 8, you in?".

Definition send_texts_flow (contacts : list contact) (lines : list string) (m : machine)
  : run unit :=
  match contacts with
  | [] => mkRun [NoContacts] (Ok tt) lines m
  | _ :: _ =>
      emit [Banner]
      match lines with
      | [] => mkRun [] (Raise EOFError) [] m
      | line :: rest =>
          emit [Input PTemplate line]
          (let template := strip line in
           let '(evs, template) :=
             if String.eqb template "1" then ([Using default_template], default_template)
             else ([], template) in
           emit evs
             (if is_empty template then mkRun [EmptyMessage] (Ok tt) rest m
              else emit [Legend]
                     (contact_loop template (length contacts) 1 contacts 0 0 rest m)))
      end
  end.

End Program.

Arguments mkRun {_ A} _ _ _ _.
Arguments events {_ A} _.
Arguments result {_ A} _.
Arguments stdin {_ A} _.
Arguments final {_ A} _.

(** ** A concrete platform

    An instance of [Env] on which the program can be evaluated: the
    bridge answers from a script of results, and [json] is a printer
    and a parser for the values of type [json] (no floats; escapes name
    code points below 256). *)

Module Platform.

Definition hex_digit (n : N) : ascii :=
  if (n <? 10)%N then ascii_of_N (48 + n) else ascii_of_N (87 + n).

(** The escapes of [json.dumps] with [ensure_ascii]. *)
Definition escape_char (c : ascii) : string :=
  let n := code c in
  if (n =? 34)%N then String backslash (String dquote EmptyString)
  else if (n =? 92)%N then String backslash (String backslash EmptyString)
  else if (n =? 10)%N then "\n"
  else if (n =? 13)%N then "\r"
  else if (n =? 9)%N then "\t"
  else if (n =? 8)%N then "\b"
  else if (n =? 12)%N then "\f"
  else if ((n <? 32) || (126 <? n))%N then
    "\u00" +:+ String (hex_digit (n / 16)) (String (hex_digit (n mod 16)) EmptyString)
  else String c EmptyString.

Fixpoint escape (s : string) : string :=
  match s with
  | EmptyString => EmptyString
  | String c r => escape_char c +:+ escape r
  end.

Definition dump_string (s : string) : string :=
  String dquote (escape s) +:+ String dquote EmptyString.

Fixpoint digits_of_pos (fuel : nat) (n : N) (acc : string) : string :=
  match fuel with
  | O => acc
  | S f =>
      let acc' := String (ascii_of_N (48 + n mod 10)) acc in
      if (n <? 10)%N then acc' else digits_of_pos f (n / 10) acc'
  end.

Definition dump_int (n : Z) : string :=
  let a := Z.to_N (Z.abs n) in
  let ds := digits_of_pos (S (N.to_nat (N.log2 a))) a EmptyString in
  if (n <? 0)%Z then String "-" ds else ds.

Fixpoint spaces (n : nat) : string :=
  match n with
  | O => EmptyString
  | S k => String " " (spaces k)
  end.

Fixpoint join (sep : string) (parts : list string) : string :=
  match parts with
  | [] => EmptyString
  | [x] => x
  | x :: rest => x +:+ sep +:+ join sep rest
  end.

Definition block (indent level : nat) (opening closing : string) (parts : list string)
  : string :=
  match parts with
  | [] => opening +:+ closing
  | _ :: _ =>
      let inner := String newline (spaces (indent * S level)) in
      opening +:+ inner +:+ join ("," +:+ inner) parts
      +:+ String newline (spaces (indent * level)) +:+ closing
  end.

Fixpoint dump_at (indent level : nat) (v : json) : string :=
  match v with
  | JNull => "null"
  | JBool true => "true"
  | JBool false => "false"
  | JInt n => dump_int n
  | JStr s => dump_string s
  | JList items => block indent level "[" "]" (map (dump_at indent (S level)) items)
  | JDict members =>
      block indent level "{" "}"
        (map (fun kv => dump_string (fst kv) +:+ ": " +:+ dump_at indent (S level) (snd kv))
             members)
  end.

(** [json.dumps(obj, indent=indent)] *)
Definition dumps (obj : json) (indent : nat) : string := dump_at indent 0 obj.

Definition is_json_space (c : ascii) : bool :=
  let n := code c in ((n =? 32) || (n =? 9) || (n =? 10) || (n =? 13))%N.

Definition hex_value (c : ascii) : option N :=
  let n := code c in
  if ((48 <=? n) && (n <=? 57))%N then Some (n - 48)%N
  else if ((97 <=? n) && (n <=? 102))%N then Some (n - 87)%N
  else if ((65 <=? n) && (n <=? 70))%N then Some (n - 55)%N
  else None.

(** The characters of a string literal after its opening quote. *)
Fixpoint parse_string (s : string) : option (string * string) :=
  match s with
  | EmptyString => None
  | String c r =>
      let n := code c in
      if (n =? 34)%N then Some (EmptyString, r)
      else if (n <? 32)%N then None
      else if (n =? 92)%N then
        match r with
        | String e r1 =>
            let simple (x : N) :=
              match parse_string r1 with
              | Some (t, rest) => Some (String (ascii_of_N x) t, rest)
              | None => None
              end in
            if Ascii.eqb e "u" then
              match r1 with
              | String "0" (String "0" (String h1 (String h2 r2))) =>
                  match hex_value h1, hex_value h2, parse_string r2 with
                  | Some a, Some b, Some (t, rest) =>
                      Some (String (ascii_of_N (16 * a + b)) t, rest)
                  | _, _, _ => None
                  end
              | _ => None
              end
            else if Ascii.eqb e "n" then simple 10%N
            else if Ascii.eqb e "r" then simple 13%N
            else if Ascii.eqb e "t" then simple 9%N
            else if Ascii.eqb e "b" then simple 8%N
            else if Ascii.eqb e "f" then simple 12%N
            else if Ascii.eqb e "/" then simple 47%N
            else if (code e =? 34)%N then simple 34%N
            else if (code e =? 92)%N then simple 92%N
            else None
        | EmptyString => None
        end
      else
        match parse_string r with
        | Some (t, rest) => Some (String c t, rest)
        | None => None
        end
  end.

Fixpoint parse_digits (acc : Z) (s : string) : Z * string :=
  match s with
  | String c r => if is_decimal c then parse_digits (10 * acc + digit_value c) r else (acc, s)
  | EmptyString => (acc, s)
  end.

(** An integer literal: no leading zero, no fraction, no exponent. *)
Definition parse_int (s : string) : option (Z * string) :=
  let '(negative, body) :=
    match s with
    | String "-" r => (true, r)
    | _ => (false, s)
    end in
  match body with
  | String c r =>
      if is_decimal c then
        let '(n, rest) := if Ascii.eqb c "0" then (0%Z, r) else parse_digits 0 body in
        match rest with
        | String d _ =>
            if Ascii.eqb d "." || Ascii.eqb d "e" || Ascii.eqb d "E" then None
            else Some (if negative then (- n)%Z else n, rest)
        | EmptyString => Some (if negative then (- n)%Z else n, rest)
        end
      else None
  | EmptyString => None
  end.

Definition drop_prefix (p s : string) : option string :=
  if startswith p s then Some (String.substring (String.length p)
                                 (String.length s - String.length p) s)
  else None.

(** A dict keeps the place of a key and its last value. *)
Fixpoint set_member (k : string) (v : json) (members : list (string * json))
  : list (string * json) :=
  match members with
  | [] => [(k, v)]
  | (k', v') :: rest =>
      if String.eqb k' k then (k, v) :: rest else (k', v') :: set_member k v rest
  end.

Fixpoint parse_value (fuel : nat) (s : string) : option (json * string) :=
  match fuel with
  | O => None
  | S f =>
      match lstrip_by is_json_space s with
      | String c r =>
          if Ascii.eqb c "[" then
            match lstrip_by is_json_space r with
            | String "]" rest => Some (JList [], rest)
            | _ => parse_elements f r []
            end
          else if Ascii.eqb c "{" then
            match lstrip_by is_json_space r with
            | String "}" rest => Some (JDict [], rest)
            | _ => parse_members f r []
            end
          else if (code c =? 34)%N then
            match parse_string r with
            | Some (t, rest) => Some (JStr t, rest)
            | None => None
            end
          else if startswith "null" (String c r) then
            option_map (fun rest => (JNull, rest)) (drop_prefix "null" (String c r))
          else if startswith "true" (String c r) then
            option_map (fun rest => (JBool true, rest)) (drop_prefix "true" (String c r))
          else if startswith "false" (String c r) then
            option_map (fun rest => (JBool false, rest)) (drop_prefix "false" (String c r))
          else
            match parse_int (String c r) with
            | Some (n, rest) => Some (JInt n, rest)
            | None => None
            end
      | EmptyString => None
      end
  end
with parse_elements (fuel : nat) (s : string) (acc : list json) : option (json * string) :=
  match fuel with
  | O => None
  | S f =>
      match parse_value f s with
      | Some (v, rest) =>
          match lstrip_by is_json_space rest with
          | String "," rest' => parse_elements f rest' (acc ++ [v])
          | String "]" rest' => Some (JList (acc ++ [v]), rest')
          | _ => None
          end
      | None => None
      end
  end
with parse_members (fuel : nat) (s : string) (acc : list (string * json))
  : option (json * string) :=
  match fuel with
  | O => None
  | S f =>
      match lstrip_by is_json_space s with
      | String q r =>
          if (code q =? 34)%N then
            match parse_string r with
            | Some (k, rest) =>
                match lstrip_by is_json_space rest with
                | String ":" rest1 =>
                    match parse_value f rest1 with
                    | Some (v, rest2) =>
                        match lstrip_by is_json_space rest2 with
                        | String "," rest3 => parse_members f rest3 (set_member k v acc)
                        | String "}" rest3 => Some (JDict (set_member k v acc), rest3)
                        | _ => None
                        end
                    | None => None
                    end
                | _ => None
                end
            | None => None
            end
          else None
      | EmptyString => None
      end
  end.

(** [json.loads(text)]; [None] stands for [JSONDecodeError]. *)
Definition loads (text : string) : option json :=
  match parse_value (2 * String.length text + 2) text with
  | Some (v, rest) => if is_empty (lstrip_by is_json_space rest) then Some v else None
  | None => None
  end.

(** The bridge answers with the next scripted result. *)
Definition scripted_run (args : list string) (w : list proc_result)
  : proc_result * list proc_result :=
  match w with
  | r :: rest => (r, rest)
  | [] => (OtherException "osascript: command not found", [])
  end.

Definition env : Env := {|
  World := list proc_result;
  subprocess_run := scripted_run;
  json_dump := dumps;
  json_load := loads;
  format_beyond := fun _ _ => Raise ValueError;
  APP_DIR := "/Users/host/party-planner-cli"
|}.

End Platform.

(** ** The descriptions the program is checked against *)

(** *** Address-book lines *)

(** [cut sep s]: the text before the first [sep] and the text after it,
    when [sep] occurs in [s]. *)
Fixpoint cut (sep : ascii) (s : string) : option (string * string) :=
  match s with
  | EmptyString => None
  | String c r =>
      if Ascii.eqb c sep then Some (EmptyString, r)
      else match cut sep r with
           | Some (a, b) => Some (String c a, b)
           | None => None
           end
  end.

(** The text up to the first [sep], or to the end. *)
Definition before_sep (sep : ascii) (s : string) : string :=
  match cut sep s with
  | Some (a, _) => a
  | None => s
  end.

Fixpoint until_space (s : string) : string :=
  match s with
  | EmptyString => EmptyString
  | String c r => if is_space c then EmptyString else String c (until_space r)
  end.

(** The first whitespace-separated token, empty when there is none. *)
Definition first_token (s : string) : string := until_space (lstrip s).

(** The record described for one output line: none without a ['|']. *)
Definition described_record (line : string) : option contact :=
  match cut "|" line with
  | None => None
  | Some (a, b) =>
      let full_name := strip a in
      Some {| name := full_name;
              first_name := Some (first_token full_name);
              phone := strip (before_sep "|" b) |}
  end.

(** [prepend_line p lines]: [p] put in front of the first line. *)
Definition prepend_line (p : string) (lines : list string) : list string :=
  match lines with
  | h :: t => (p +:+ h) :: t
  | [] => [p]
  end.

(** *** Search queries *)

(** [s] contains [query] as a substring, case ignored: some substring
    of [s] and [query] have the same lower-case form. *)
Definition ci_substring (query s : string) : Prop :=
  exists pre mid post, s = pre +:+ mid +:+ post /\ lower mid = lower query.

(** A selection typed at the search prompt: digits, commas and spaces
    only, with a digit among them. *)
Fixpoint number_selection (seen_digit : bool) (s : string) : bool :=
  match s with
  | EmptyString => seen_digit
  | String c r =>
      if Ascii.eqb c "," || Ascii.eqb c " " then number_selection seen_digit r
      else is_digit_char c && number_selection true r
  end.

(** The inputs the search prompt takes as text to search for: not a
    command word (in any case), not empty, not a number selection. *)
Definition is_search_query (query : string) : bool :=
  negb (String.eqb (lower query) "done")
  && negb (String.eqb (lower query) "sync")
  && negb (String.eqb (lower query) "list")
  && negb (is_empty query)
  && negb (number_selection false query).

(** The matches an event puts on the screen. *)
Definition displayed_matches (e : event) : option (list contact) :=
  match e with
  | Found matches => Some (map fst matches)
  | NoMatch _ => Some []
  | _ => None
  end.

(** [fresh_appends base added]: appending the contacts of [added] to
    [base] one by one, none has the phone of a contact already there. *)
Fixpoint fresh_appends (base added : list contact) : Prop :=
  match added with
  | [] => True
  | c :: rest => (phone c ∉ map phone base) /\ fresh_appends (base ++ [c]) rest
  end.

(** *** Placeholder substitution *)

(** The replacement for [{name}] and [{first_name}]: the ['first_name']
    field when present and non-empty, otherwise the first token of the
    name. *)
Definition chosen_first_name (c : contact) : string :=
  match first_name c with
  | Some f => if is_empty f then first_token (name c) else f
  | None => first_token (name c)
  end.

(** [substitute_from 0 first phone t]: [t] with every occurrence of
    [{name}] and [{first_name}] replaced by [first], every occurrence of
    [{phone}] by [phone], and every other character kept.  [skip] counts
    the characters of a placeholder still to pass over. *)
Fixpoint substitute_from (skip : nat) (first phone : string) (t : string) : string :=
  match t with
  | EmptyString => EmptyString
  | String c r =>
      match skip with
      | S k => substitute_from k first phone r
      | O =>
          if startswith "{name}" t then first +:+ substitute_from 5 first phone r
          else if startswith "{first_name}" t then first +:+ substitute_from 11 first phone r
          else if startswith "{phone}" t then phone +:+ substitute_from 6 first phone r
          else String c (substitute_from 0 first phone r)
      end
  end.

Definition substitute (first phone template : string) : string :=
  substitute_from 0 first phone template.

Definition is_brace (c : ascii) : bool := Ascii.eqb c "{" || Ascii.eqb c "}".

(** Every brace of the template belongs to one of the three placeholders. *)
Fixpoint placeholder_braces_from (skip : nat) (t : string) : bool :=
  match t with
  | EmptyString => true
  | String c r =>
      match skip with
      | S k => placeholder_braces_from k r
      | O =>
          if startswith "{name}" t then placeholder_braces_from 5 r
          else if startswith "{first_name}" t then placeholder_braces_from 11 r
          else if startswith "{phone}" t then placeholder_braces_from 6 r
          else negb (is_brace c) && placeholder_braces_from 0 r
      end
  end.

Definition only_placeholder_braces (template : string) : bool :=
  placeholder_braces_from 0 template.

(** *** Traces of the send-texts flow *)

(** What the flow makes of a line typed at the choice prompt. *)
Definition choice_of (line : string) : string := lower (strip line).

(** The confirming inputs: [s] or nothing but Enter. *)
Definition confirming (line : string) : bool :=
  String.eqb (choice_of line) "s" || String.eqb (choice_of line) "".

(** The inputs the prompt ignores: it asks again. *)
Definition ignored (line : string) : bool :=
  negb (confirming line)
  && negb (String.eqb (choice_of line) "e")
  && negb (String.eqb (choice_of line) "n")
  && negb (String.eqb (choice_of line) "q").

(** The message after an edit: the new text stripped, or the old
    message when the new text is blank. *)
Definition edited (message line2 : string) : string :=
  if is_empty (strip line2) then message else strip line2.

(** The calls of the messaging adapter in a trace, in order. *)
Fixpoint adapter_calls (tr : list event) : list (nat * string * string) :=
  match tr with
  | [] => []
  | SendIMessage i p msg :: rest => (i, p, msg) :: adapter_calls rest
  | _ :: rest => adapter_calls rest
  end.

Definition recipients (tr : list event) : list string :=
  map (fun x => x.1.2) (adapter_calls tr).

Definition call_numbers (tr : list event) : list nat :=
  map (fun x => x.1.1) (adapter_calls tr).

(** The number of the contact an event of the flow is about. *)
Definition event_number (e : event) : option nat :=
  match e with
  | Show i _ _ _ => Some i
  | SendIMessage i _ _ => Some i
  | Input (PChoice i) _ => Some i
  | Input (PNewMsg i) _ => Some i
  | _ => None
  end.

(** [explained contacts before e]: what must have just happened when
    [e] happens; [before] is the trace so far, latest event first.  A
    call of the adapter for contact number [i] comes right after a
    confirming input at the prompt of that contact, with the message
    shown there.  The prompt of contact number [i] is shown at the start
    (for the first contact), right after the send attempt or the skip of
    contact number [i - 1], or again for the same contact after an
    ignored input or an edit. *)
Definition explained (contacts : list contact) (before : list event) (e : event) : Prop :=
  match e with
  | SendIMessage i p msg =>
      exists total c line before',
        before = Sending :: Input (PChoice i) line :: Show i total c msg :: before'
        /\ confirming line = true
        /\ 1 <= i /\ contacts !! (i - 1) = Some c /\ p = phone c
  | Show i total c msg =>
      1 <= i /\ contacts !! (i - 1) = Some c /\
      ((i = 1 /\ exists before', before = Legend :: before')
       \/ (exists ok err p msg' before',
             2 <= i /\
             before = SendResult ok err :: SendIMessage (i - 1) p msg' :: before')
       \/ (exists line total' c' msg' before',
             2 <= i /\
             before = Input (PChoice (i - 1)) line :: Show (i - 1) total' c' msg' :: before'
             /\ choice_of line = "n")
       \/ (exists line before',
             before = Input (PChoice i) line :: Show i total c msg :: before'
             /\ ignored line = true)
       \/ (exists line line2 msg0 before',
             before = Blank :: Input (PNewMsg i) line2 :: Input (PChoice i) line
                      :: Show i total c msg0 :: before'
             /\ choice_of line = "e" /\ msg = edited msg0 line2))
  | _ => True
  end.

(** Every event of [tr] is explained by what precedes it, [before]
    being what happened before [tr]. *)
Fixpoint all_explained (contacts : list contact) (before tr : list event) : Prop :=
  match tr with
  | [] => True
  | e :: rest => explained contacts before e /\ all_explained contacts (e :: before) rest
  end.

(** How the trace stands when the loop moves on from contact [i]:
    after its send attempt, or after its skip. *)
Definition moved_on (i : nat) (before : list event) : Prop :=
  (exists ok err p msg before',
     before = SendResult ok err :: SendIMessage i p msg :: before')
  \/ (exists line total c msg before',
        before = Input (PChoice i) line :: Show i total c msg :: before'
        /\ choice_of line = "n").


(** What has happened when the loop reaches contact number [i]. *)
Definition reached (i : nat) (before : list event) : Prop :=
  (i = 1 /\ exists before', before = Legend :: before')
  \/ (2 <= i /\ moved_on (i - 1) before).


(** The contacts of [cs] with their numbers, counted from [i], and
    their phones. *)
Definition numbered_phones (i : nat) (cs : list contact) : list (nat * string) :=
  combine (seq i (length cs)) (map phone cs).

(** ** Sample data on the concrete platform *)

Module Sample.

#[local] Existing Instance Platform.env.

Definition alice : contact :=
  {| name := "Alice Smith"; first_name := Some "Alice"; phone := "+15550100" |}.
Definition bob : contact :=
  {| name := "Bob Stone"; first_name := None; phone := "+15550101" |}.
Definition carol : contact :=
  {| name := "Carol Diaz"; first_name := Some "Carol"; phone := "+15550102" |}.

Definition address_book : list contact := [alice; bob; carol].

Definition friends : json := JList [json_of_contact alice; json_of_contact bob].

(** A store in which the list and the cache already have files, with
    other content. *)
Definition stale_store : gmap string node :=
  {[ list_path "friends" := File "not json at all";
     CONTACTS_CACHE_FILE := File "{}" ]}.

(** A store in which the file of the list holds a JSON array. *)
Definition array_store : gmap string node :=
  {[ list_path "friends" := File "[]" ]}.

(** A machine whose bridge has no answer left, and one whose bridge
    will accept one message. *)
Definition idle : machine := mkMachine [] ∅.
Definition ready : machine := mkMachine [Completed 0 "" ""] ∅.

(** A session of the send-texts flow: the first contact is skipped, the
    message to the second is edited and then sent. *)
Definition session : list string := ["1"; "n"; "e"; " See you Friday! "; "S"].

End Sample.

(** ** Banner colours *)

Definition escape : ascii := ascii_of_N 27.

Definition colors : list string :=
  [ String escape "[91m";    (* red *)
    String escape "[92m";    (* green *)
    String escape "[96m";    (* cyan *)
    String escape "[94m";    (* blue *)
    String escape "[95m" ].  (* magenta *)

Definition reset : string := String escape "[0m".

(** The [for char in text] loop of [rainbow_text], on the text still to
    be read; the index is below the length of [colors], so the default
    of [nth] is never used. *)
Fixpoint rainbow_loop (text result : string) (color_idx : nat) : string :=
  match text with
  | EmptyString => result
  | String char rest =>
      if negb (Ascii.eqb char " ") then
        rainbow_loop rest
          (result +:+ (nth (color_idx mod length colors) colors "" +:+ String char ""))
          (color_idx + 1)
      else rainbow_loop rest (result +:+ String char "") color_idx
  end.

Definition rainbow_text (text : string) : string :=
  rainbow_loop text "" 0 +:+ reset.

(** ** List maintenance *)

(** The prompts and the lines printed by [get_all_contacts],
    [view_contacts], [add_contact_manually] and [remove_contact];
    [Flow] is an event of the flows above. *)
Inductive menu_prompt : Type :=
  | PName      (* Name: *)
  | PPhone     (* Phone number: *)
  | PRemove.   (* > *)

Inductive menu_event : Type :=
  | Flow (e : event)
  | Ask (p : menu_prompt) (line : string)
  (* get_all_contacts *)
  | UsingCached (count : nat)
  (* view_contacts *)
  | NoContactsYet
  | ContactsHeader
  | ContactLine (i : nat) (name phone : string)
  | ContactsTotal (count : nat)
  (* add_contact_manually *)
  | ManualHeader
  | NameEmpty
  | PhoneEmpty
  | AddedManually (name : string)
  (* remove_contact *)
  | NothingToRemove
  | RemoveHelp
  | Removed (name : string)
  | InvalidNumber
  | InvalidInput.

(** A run of a function of the menu, which acts on the files only. *)
Record menu_run (A : Type) : Type := mkMenuRun {
  shown : list menu_event;
  returned : outcome A;
  unread : list string;
  store : gmap string node
}.

Arguments mkMenuRun {A} _ _ _ _.
Arguments shown {A} _.
Arguments returned {A} _.
Arguments unread {A} _.
Arguments store {A} _.

(** What can go wrong in [get_all_contacts]: an exception of the
    loaders, or the [TypeError] of [len]. *)
Inductive failure : Type :=
  | Exn (e : exn)
  | TypeError.

(** [len(v)]: the values without a length raise [TypeError] ([None]). *)
Definition len (v : json) : option nat :=
  match v with
  | JStr s => Some (String.length s)
  | JList items => Some (length items)
  | JDict members => Some (length members)
  | JNull | JBool _ | JInt _ => None
  end.

(** [for i, contact in enumerate(contacts, i)] of [view_contacts]. *)
Fixpoint contact_lines (i : nat) (contacts : list contact) : list menu_event :=
  match contacts with
  | [] => []
  | c :: rest => ContactLine i (name c) (phone c) :: contact_lines (S i) rest
  end.

Definition view_contacts (contacts : list contact) : list menu_event :=
  match contacts with
  | [] => [NoContactsYet]
  | _ :: _ =>
      [ContactsHeader] ++ contact_lines 1 contacts
      ++ [ContactsTotal (length contacts)]
  end.

(** [s.endswith(suffix)] and [s[:-n]] *)
Definition endswith (suffix s : string) : bool :=
  (String.length suffix <=? String.length s)%nat
  && String.eqb (substring (String.length s - String.length suffix)
                           (String.length suffix) s) suffix.

Definition drop_last (n : nat) (s : string) : string :=
  substring 0 (String.length s - n) s.

(** The prefix [os.path.join] puts before a relative component. *)
Definition dir_prefix (d : string) : string :=
  if is_empty d || endswith_char "/" d then d else d +:+ "/".

Fixpoint strip_prefix (p s : string) : option string :=
  match p, s with
  | EmptyString, _ => Some s
  | String a p', String b s' => if Ascii.eqb a b then strip_prefix p' s' else None
  | String _ _, EmptyString => None
  end.

(** The name under which [path] is an entry of the directory [d]. *)
Definition entry_of (d path : string) : option string :=
  match strip_prefix (dir_prefix d) path with
  | Some f => if negb (is_empty f) && negb (contains "/" f) then Some f else None
  | None => None
  end.

(** [os.listdir(d)]: the names [f] for which [os.path.join(d, f)] is a
    path of the files; a missing directory or a file in its place is an
    I/O error.  The order of the names is that of the map. *)
Definition listdir (fs : gmap string node) (d : string) : outcome (list string) :=
  match fs !! d with
  | Some Dir => Ok (omap (entry_of d) (map fst (map_to_list fs)))
  | Some (File _) | None => Raise IOError
  end.

(** The order of [sorted] on strings: by code points. *)
Definition str_le (a b : string) : Prop := String.leb a b = true.

#[global] Instance str_le_dec (a b : string) : Decision (str_le a b).
Proof. unfold str_le. apply _. Defined.

(** The loop of [get_existing_lists] over the entries. *)
Fixpoint lists_of (entries : list string) : list string :=
  match entries with
  | [] => []
  | f :: rest =>
      if endswith ".json" f then drop_last 5 f :: lists_of rest
      else lists_of rest
  end.

Section Maintenance.

Context `{Env}.

(** Only the cache file may differ between the two states of the files. *)
Definition same_but_cache (fs fs' : gmap string node) : Prop :=
  forall path, path <> CONTACTS_CACHE_FILE -> fs' !! path = fs !! path.

(** [get_existing_lists()]: the names, and the files after
    [ensure_lists_dir]. *)
Definition get_existing_lists (fs : gmap string node)
  : outcome (list string) * gmap string node :=
  let fs := ensure_lists_dir fs in
  (let! entries := listdir fs LISTS_DIR in
   Ok (merge_sort str_le (lists_of entries)), fs).

(** [get_all_contacts(force_refresh)]: the contacts as the JSON value
    the caller receives. *)
Definition get_all_contacts (force_refresh : bool) (m : machine)
  : list menu_event * (failure + json) * machine :=
  let fetch :=
    let '(evs, contacts, m') := fetch_contacts_from_mac m in
    (map Flow evs, inr (JList (map json_of_contact contacts)), m') in
  if negb force_refresh then
    match load_cached_contacts (files m) with
    | Raise e => ([], inl (Exn e), m)
    | Ok JNull => fetch
    | Ok cached =>
        match len cached with
        | None => ([], inl TypeError, m)
        | Some n => ([UsingCached n], inr cached, m)
        end
    end
  else fetch.

(** [add_contact_manually(list_name, contacts)].  When [save_list]
    raises, the directory of the lists has been made already. *)
Definition add_contact_manually (list_name : string) (contacts : list contact)
  (lines : list string) (fs : gmap string node) : menu_run (list contact) :=
  match lines with
  | [] => mkMenuRun [ManualHeader] (Raise EOFError) [] fs
  | line :: rest =>
      let name := strip line in
      if is_empty name then
        mkMenuRun [ManualHeader; Ask PName line; NameEmpty] (Ok contacts) rest fs
      else
        match rest with
        | [] => mkMenuRun [ManualHeader; Ask PName line] (Raise EOFError) [] fs
        | line2 :: rest2 =>
            let phone := strip line2 in
            if is_empty phone then
              mkMenuRun [ManualHeader; Ask PName line; Ask PPhone line2; PhoneEmpty]
                (Ok contacts) rest2 fs
            else
              let contacts := contacts ++ [mkContact name None phone] in
              match save_list list_name (JList (map json_of_contact contacts)) fs with
              | Raise e =>
                  mkMenuRun [ManualHeader; Ask PName line; Ask PPhone line2]
                    (Raise e) rest2 (ensure_lists_dir fs)
              | Ok fs' =>
                  mkMenuRun [ManualHeader; Ask PName line; Ask PPhone line2;
                             AddedManually name]
                    (Ok contacts) rest2 fs'
              end
        end
  end.

(** [remove_contact(list_name, contacts)]; [contacts.pop(index)] is
    [delete], and the [ValueError] of [int] is the only exception
    caught. *)
Definition remove_contact (list_name : string) (contacts : list contact)
  (lines : list string) (fs : gmap string node) : menu_run (list contact) :=
  match contacts with
  | [] => mkMenuRun [NothingToRemove] (Ok contacts) lines fs
  | _ :: _ =>
      let header := view_contacts contacts ++ [RemoveHelp] in
      match lines with
      | [] => mkMenuRun header (Raise EOFError) [] fs
      | line :: rest =>
          let choice := lower (strip line) in
          let asked := header ++ [Ask PRemove line] in
          if String.eqb choice "c" then mkMenuRun asked (Ok contacts) rest fs
          else
            match int choice with
            | None => mkMenuRun (asked ++ [InvalidInput]) (Ok contacts) rest fs
            | Some n =>
                let index := (n - 1)%Z in
                if ((0 <=? index) && (index <? Z.of_nat (length contacts)))%Z then
                  match contacts !! Z.to_nat index with
                  | None => mkMenuRun asked (Raise IndexError) rest fs
                  | Some removed =>
                      let contacts := delete (Z.to_nat index) contacts in
                      match save_list list_name
                              (JList (map json_of_contact contacts)) fs with
                      | Raise e => mkMenuRun asked (Raise e) rest (ensure_lists_dir fs)
                      | Ok fs' =>
                          mkMenuRun (asked ++ [Removed (name removed)])
                            (Ok contacts) rest fs'
                      end
                  end
                else mkMenuRun (asked ++ [InvalidNumber]) (Ok contacts) rest fs
            end
      end
  end.

End Maintenance.

(** *** What a terminal shows *)

(** The text left when every colour sequence, from the escape character
    to the letter [m], is taken out. *)
Fixpoint visible_from (inside : bool) (s : string) : string :=
  match s with
  | EmptyString => EmptyString
  | String c r =>
      if inside then visible_from (negb (Ascii.eqb c "m")) r
      else if Ascii.eqb c escape then visible_from true r
      else String c (visible_from false r)
  end.

Definition visible (s : string) : string := visible_from false s.

(** The colour sequences of a text, in order. *)
Fixpoint sequences_from (current : option string) (s : string) : list string :=
  match s with
  | EmptyString => []
  | String c r =>
      match current with
      | Some seq =>
          if Ascii.eqb c "m" then (seq +:+ "m") :: sequences_from None r
          else sequences_from (Some (seq +:+ String c "")) r
      | None =>
          if Ascii.eqb c escape then sequences_from (Some (String c "")) r
          else sequences_from None r
      end
  end.

(** The number of characters of a text that are not spaces. *)
Fixpoint inked (text : string) : nat :=
  match text with
  | EmptyString => 0
  | String c r => if negb (Ascii.eqb c " ") then S (inked r) else inked r
  end.

(** ** Further descriptions *)

(** *** AppleScript string literals *)

(** How the text between the quotes of an AppleScript string literal
    is read when it only uses the two escapes [send_imessage] emits: a
    backslash stands before a backslash or a quote, and a quote that no
    backslash announces would end the literal ([None]). *)
Fixpoint unescape_applescript (s : string) : option string :=
  match s with
  | EmptyString => Some EmptyString
  | String c r =>
      if Ascii.eqb c backslash then
        match r with
        | String d r' =>
            if Ascii.eqb d backslash || Ascii.eqb d dquote
            then option_map (String d) (unescape_applescript r')
            else None
        | EmptyString => None
        end
      else if Ascii.eqb c dquote then None
      else option_map (String c) (unescape_applescript r)
  end.

(** *** Templates with doubled braces *)

(** [render_from 0 first phone t]: [t] with the three placeholders
    replaced as in [substitute_from], each doubled brace replaced by a
    single one, and every other character kept. *)
Fixpoint render_from (skip : nat) (first phone : string) (t : string) : string :=
  match t with
  | EmptyString => EmptyString
  | String c r =>
      match skip with
      | S k => render_from k first phone r
      | O =>
          if startswith "{{" t then String "{" (render_from 1 first phone r)
          else if startswith "}}" t then String "}" (render_from 1 first phone r)
          else if startswith "{name}" t then first +:+ render_from 5 first phone r
          else if startswith "{first_name}" t then first +:+ render_from 11 first phone r
          else if startswith "{phone}" t then phone +:+ render_from 6 first phone r
          else String c (render_from 0 first phone r)
      end
  end.

(** Every brace of the template belongs to a doubled brace or to one of
    the three placeholders. *)
Fixpoint well_braced_from (skip : nat) (t : string) : bool :=
  match t with
  | EmptyString => true
  | String c r =>
      match skip with
      | S k => well_braced_from k r
      | O =>
          if startswith "{{" t then well_braced_from 1 r
          else if startswith "}}" t then well_braced_from 1 r
          else if startswith "{name}" t then well_braced_from 5 r
          else if startswith "{first_name}" t then well_braced_from 11 r
          else if startswith "{phone}" t then well_braced_from 6 r
          else negb (is_brace c) && well_braced_from 0 r
      end
  end.

(** The characters that end or structure a field name. *)
Definition is_field_punctuation (c : ascii) : bool :=
  is_brace c || is_accessor c || Ascii.eqb c "!" || Ascii.eqb c ":".

(** A field name that is a plain word: not empty, without punctuation,
    and not a decimal number. *)
Definition plain_key (key : string) : bool :=
  negb (is_empty key)
  && all_chars (fun c => negb (is_field_punctuation c)) key
  && match get_integer key with NotInteger => true | _ => false end.

(** A positional field: empty, or a decimal number that fits. *)
Definition positional_key (key : string) : bool :=
  is_empty key || match get_integer key with IndexOf _ => true | _ => false end.

(** The keyword arguments [draft_message] passes to [format]. *)
Definition provided (key : string) : bool :=
  String.eqb key "name" || String.eqb key "first_name" || String.eqb key "phone".

(** [draft_message] can choose the name to put in the message. *)
Definition greetable (c : contact) : Prop :=
  name c = ""
  \/ (exists f, first_name c = Some f /\ f <> "")
  \/ lstrip (name c) <> "".

(** *** Counting in a trace of the send-texts flow *)

Definition is_success (e : event) : bool :=
  match e with SendResult true _ => true | _ => false end.

Definition is_failure (e : event) : bool :=
  match e with SendResult false _ => true | _ => false end.

(** An [n] typed at the prompt of a contact. *)
Definition is_skip (e : event) : bool :=
  match e with
  | Input (PChoice _) line => String.eqb (choice_of line) "n"
  | _ => false
  end.

(** The two lines that report the numbers of messages sent and skipped. *)
Definition is_summary (e : event) : bool :=
  match e with Done _ _ | QuitSummary _ _ => true | _ => false end.

Definition count (p : event -> bool) (tr : list event) : nat :=
  length (List.filter p tr).

(** ** The search filter on every code point *)

(** Above, a [str] is read on the code points below 256, where
    [str.lower] works character by character.  On the other code points
    it does not: a capital sigma becomes one of two small letters,
    depending on the letters around it.  [Wide] models [str.lower], the
    test [in] and the filter of line 185 on strings of arbitrary code
    points, after the interpreter's own routine; the tables of the
    Unicode character database it reads are a parameter. *)

Module Wide.

(** A [str] as the list of its code points. *)
Definition text : Type := list N.

(** What [str.lower] takes from the Unicode character database: the
    lower-case form of a code point (one to three code points), and the
    properties [Cased] and [Case_Ignorable]. *)
Class CaseTables : Type := {
  to_lower_full : N -> list N;
  is_cased : N -> bool;
  is_case_ignorable : N -> bool
}.

Section Lower.

Context `{CaseTables}.

Fixpoint first_not_ignorable (s : text) : option N :=
  match s with
  | [] => None
  | c :: r => if is_case_ignorable c then first_not_ignorable r else Some c
  end.

(** The lower-case form of a capital sigma (U+03A3): the final form
    U+03C2 when, case-ignorable code points set aside, a cased one comes
    before it and none comes after it, and U+03C3 otherwise.  [before]
    holds the code points before the sigma, the nearest first. *)
Definition handle_capital_sigma (before after : text) : N :=
  let final_sigma :=
    match first_not_ignorable before with
    | Some c => is_cased c
    | None => false
    end
    && match first_not_ignorable after with
       | Some c => negb (is_cased c)
       | None => true
       end in
  if final_sigma then 962%N else 963%N.

Fixpoint do_lower (before s : text) : text :=
  match s with
  | [] => []
  | c :: r =>
      (if (c =? 931)%N then [handle_capital_sigma before r] else to_lower_full c)
      ++ do_lower (c :: before) r
  end.

(** [s.lower()] *)
Definition lower (s : text) : text := do_lower [] s.

End Lower.

(** [s.startswith(p)] and [needle in hay] *)
Fixpoint startswith (p s : text) : bool :=
  match p, s with
  | [], _ => true
  | a :: p', b :: s' => (a =? b)%N && startswith p' s'
  | _ :: _, [] => false
  end.

Fixpoint contains (needle hay : text) : bool :=
  startswith needle hay ||
  match hay with
  | [] => false
  | _ :: r => contains needle r
  end.

(** A contact record, with the fields the filter and the display read. *)
Record contact : Type := mkContact {
  name : text;
  phone : text
}.

(** Line 185:
    [[c for c in all_contacts if query.lower() in c['name'].lower()]] *)
Definition matches `{CaseTables} (query : text) (all_contacts : list contact)
  : list contact :=
  List.filter (fun c => contains (lower query) (lower (name c))) all_contacts.

Definition between (a b c : N) : bool := ((a <=? c) && (c <=? b))%N.

(** An excerpt of the tables of the Unicode character database: the
    code points up to U+00FF, and the Greek letters from U+0384 to
    U+03CE.  The other code points are given no lower-case form and no
    property here. *)
Definition excerpt : CaseTables := {|
  to_lower_full c :=
    if between 65 90 c || between 192 214 c || between 216 222 c
       || between 913 929 c || between 931 939 c then [c + 32]%N
    else if (c =? 902)%N then [940]%N
    else if between 904 906 c then [c + 37]%N
    else if (c =? 908)%N then [972]%N
    else if between 910 911 c then [c + 63]%N
    else [c];
  is_cased c :=
    between 65 90 c || between 97 122 c || (c =? 170)%N || (c =? 181)%N
    || (c =? 186)%N || between 192 214 c || between 216 246 c
    || between 248 255 c || (c =? 902)%N || between 904 906 c || (c =? 908)%N
    || between 910 929 c || between 931 974 c;
  is_case_ignorable c :=
    (c =? 39)%N || (c =? 46)%N || (c =? 58)%N || (c =? 94)%N || (c =? 96)%N
    || (c =? 168)%N || (c =? 173)%N || (c =? 175)%N || (c =? 180)%N
    || between 183 184 c || between 900 901 c || (c =? 903)%N
|}.

End Wide.

(** The code points of a string of the first part, and a contact of the
    first part as a record of [Wide]. *)
Definition codes (s : string) : Wide.text := map code (list_ascii_of_string s).

Definition widen (c : contact) : Wide.contact :=
  Wide.mkContact (codes (name c)) (codes (phone c)).

(** ** Further sample data *)

Module Cases.

#[local] Existing Instance Platform.env.

(** A contact without a name, and one whose name is blank. *)
Definition nameless : contact :=
  {| name := ""; first_name := Some "Zed"; phone := "+15550103" |}.
Definition blank : contact :=
  {| name := "  "; first_name := None; phone := "+15550104" |}.

(** The files after installation: the directory of the program, and
    neither lists nor cache. *)
Definition fresh_store : gmap string node := {[ APP_DIR := Dir ]}.

(** A machine whose bridge will answer a sync with one contact, and the
    machine after that sync. *)
Definition before_sync : machine :=
  mkMachine [Completed 0 "Alice Smith|+15550100" ""] fresh_store.
Definition after_sync : machine :=
  mkMachine []
    (<[CONTACTS_CACHE_FILE :=
         File (json_dump (document (JList [json_of_contact Sample.alice])) 2)]>
       fresh_store).

(** A Greek first name in capitals, and its first three letters. *)
Definition tasos : Wide.contact :=
  Wide.mkContact [932; 913; 931; 927; 931]%N (codes "+302105550106").
Definition tas : Wide.text := [932; 913; 931]%N.

(** A contact entered by hand. *)
Definition dana : contact :=
  {| name := "Dana Cruz"; first_name := None; phone := "+15550105" |}.

End Cases.

(** * Properties *)

(** ** Strings *)

Section StringFacts.

Lemma snoc_cons (c x : ascii) (s : string) : snoc (String c s) x = String c (snoc s x).
Proof. reflexivity. Qed.

Lemma is_empty_true (s : string) : is_empty s = true -> s = "".
Proof. destruct s; simpl; congruence. Qed.

Lemma rstrip_snoc_space (s : string) (c : ascii) :
  is_space c = true -> rstrip (snoc s c) = rstrip s.
Proof.
  intros Hc. induction s as [|a s IH].
  - simpl. now rewrite Hc.
  - rewrite snoc_cons. simpl. now rewrite IH.
Qed.

Lemma strip_snoc_space (s : string) (c : ascii) :
  is_space c = true -> strip (snoc s c) = strip s.
Proof.
  intros Hc. unfold strip. induction s as [|a s IH].
  - simpl. now rewrite Hc.
  - rewrite snoc_cons. simpl. destruct (is_space a); [exact IH |].
    rewrite <- snoc_cons. now apply rstrip_snoc_space.
Qed.

Lemma strip_cons_space (s : string) (c : ascii) :
  is_space c = true -> strip (String c s) = strip s.
Proof. intros Hc. unfold strip. simpl. now rewrite Hc. Qed.

(** A stripped string does not start with whitespace. *)
Lemma lstrip_head (s : string) c r : lstrip s = String c r -> is_space c = false.
Proof.
  induction s as [|a s IH]; simpl; [discriminate |].
  destruct (is_space a) eqn:Ha; [exact IH |].
  intros [= <- <-]. exact Ha.
Qed.

Lemma rstrip_head (s : string) c r :
  rstrip s = String c r -> exists r', s = String c r'.
Proof.
  destruct s as [|a s]; simpl; [discriminate |].
  destruct (is_space a && is_empty (rstrip s)); [discriminate |].
  intros [= <- <-]. eauto.
Qed.

Lemma strip_head (s : string) c r : strip s = String c r -> is_space c = false.
Proof.
  unfold strip. intros Hs. apply rstrip_head in Hs as [r' Hr].
  eapply lstrip_head, Hr.
Qed.

End StringFacts.

(** ** Contacts source adapter *)

Section SourceAdapter.

Lemma contains_cut (sep : ascii) (s : string) :
  contains (String sep "") s = match cut sep s with Some _ => true | None => false end.
Proof.
  induction s as [|c s IH]; simpl; [reflexivity |].
  rewrite (Ascii.eqb_sym sep c). destruct (Ascii.eqb c sep); simpl; [reflexivity |].
  rewrite IH. now destruct (cut sep s) as [[a b]|].
Qed.

Lemma split_on_cut (sep : ascii) (s : string) :
  split_on sep s =
  match cut sep s with
  | Some (a, b) => a :: split_on sep b
  | None => [s]
  end.
Proof.
  induction s as [|c s IH]; simpl; [reflexivity |].
  destruct (Ascii.eqb c sep); [reflexivity |].
  rewrite IH. now destruct (cut sep s) as [[a b]|].
Qed.

Lemma split_on_head (sep : ascii) (s : string) :
  exists t, split_on sep s = before_sep sep s :: t.
Proof.
  rewrite split_on_cut. unfold before_sep.
  destruct (cut sep s) as [[a b]|]; eauto.
Qed.

Lemma split_ws_first (s : string) :
  nth_error (split_ws s) 0 =
  if is_empty (lstrip s) then None else Some (first_token s).
Proof.
  unfold first_token. induction s as [|c r IH]; [reflexivity |].
  simpl. destruct (is_space c) eqn:Hc; [exact IH |]. simpl. rewrite Hc.
  destruct r as [|c' r']; [reflexivity |].
  destruct (is_space c') eqn:Hc'; [simpl; now rewrite Hc' |].
  revert IH. simpl lstrip. rewrite Hc'. simpl is_empty. cbv iota.
  destruct (split_ws (String c' r')) as [|h t]; simpl; [discriminate |].
  now intros [= ->].
Qed.

Lemma first_of_stripped (a : string) :
  (if negb (is_empty (strip a)) then index (split_ws (strip a)) 0 else Ok "")
  = Ok (first_token (strip a)).
Proof.
  destruct (strip a) as [|c r] eqn:Hs; [reflexivity |].
  simpl negb. cbv iota. unfold index. rewrite split_ws_first.
  apply strip_head in Hs. simpl. now rewrite Hs.
Qed.

(** One line of the loop builds the described record, and never raises. *)
Lemma contacts_of_line_described (line : string) :
  contacts_of_line line = Ok (option_list (described_record line)).
Proof.
  unfold contacts_of_line, described_record.
  rewrite contains_cut, split_on_cut.
  destruct (cut "|" line) as [[a b]|]; [| reflexivity].
  destruct (split_on_head "|" b) as [t ->].
  simpl. rewrite first_of_stripped. reflexivity.
Qed.

Lemma contacts_of_lines_described (lines : list string) (acc : list contact) :
  contacts_of_lines lines acc = Ok (acc ++ omap described_record lines).
Proof.
  revert acc. induction lines as [|l ls IH]; intros acc; simpl.
  - now rewrite app_nil_r.
  - rewrite contacts_of_line_described. simpl. rewrite IH.
    destruct (described_record l); simpl; [now rewrite <- app_assoc | now rewrite app_nil_r].
Qed.

(** Whitespace around a line does not change its record. *)
Lemma cut_snoc (sep c : ascii) (s : string) :
  Ascii.eqb c sep = false ->
  cut sep (snoc s c) =
  match cut sep s with
  | Some (a, b) => Some (a, snoc b c)
  | None => None
  end.
Proof.
  intros Hc. induction s as [|x s IH]; simpl; [now rewrite Hc |].
  destruct (Ascii.eqb x sep); [reflexivity |].
  unfold snoc in IH. rewrite IH. now destruct (cut sep s) as [[a b]|].
Qed.

Lemma space_not_bar (c : ascii) : is_space c = true -> Ascii.eqb c "|" = false.
Proof.
  intros Hc. destruct (Ascii.eqb_spec c "|") as [->|]; [discriminate | reflexivity].
Qed.

Lemma described_cons_space (c : ascii) (s : string) :
  is_space c = true -> described_record (String c s) = described_record s.
Proof.
  intros Hc. unfold described_record. simpl. rewrite (space_not_bar c Hc).
  destruct (cut "|" s) as [[a b]|]; [| reflexivity].
  now rewrite (strip_cons_space a c Hc).
Qed.

Lemma described_snoc_space (c : ascii) (s : string) :
  is_space c = true -> described_record (snoc s c) = described_record s.
Proof.
  intros Hc. unfold described_record. rewrite (cut_snoc _ _ _ (space_not_bar c Hc)).
  destruct (cut "|" s) as [[a b]|]; [| reflexivity].
  unfold before_sep. rewrite (cut_snoc _ _ _ (space_not_bar c Hc)).
  destruct (cut "|" b) as [[a' b']|]; [reflexivity |].
  now rewrite (strip_snoc_space b c Hc).
Qed.

End SourceAdapter.

Section OutputLines.

Lemma app_empty_r (s : string) : s +:+ "" = s.
Proof.
  induction s as [|c s IH]; [reflexivity |].
  change (String c (s +:+ "") = String c s). now rewrite IH.
Qed.

Lemma app_assoc_str (a b c : string) : (a +:+ b) +:+ c = a +:+ (b +:+ c).
Proof.
  induction a as [|x a IH]; [reflexivity |].
  change (String x ((a +:+ b) +:+ c) = String x (a +:+ (b +:+ c))). now rewrite IH.
Qed.

Lemma split_on_cons_other (sep c : ascii) (r : string) :
  Ascii.eqb c sep = false ->
  split_on sep (String c r) = prepend_line (String c "") (split_on sep r).
Proof.
  intros Hc. simpl. rewrite Hc. now destruct (split_on sep r).
Qed.

Lemma prepend_prepend (p q : string) (l : list string) :
  prepend_line p (prepend_line q l) = prepend_line (p +:+ q) l.
Proof.
  destruct l as [|h t]; simpl; [reflexivity |]. now rewrite app_assoc_str.
Qed.

Lemma prepend_empty (sep : ascii) (s : string) :
  prepend_line "" (split_on sep s) = split_on sep s.
Proof. destruct (split_on_head sep s) as [t ->]. reflexivity. Qed.

Lemma omap_single (p : string) :
  omap described_record [p] = option_list (described_record p).
Proof. simpl. now destruct (described_record p). Qed.

Lemma rstrip_empty_spaces (s : string) :
  rstrip s = "" -> all_chars is_space s = true.
Proof.
  induction s as [|c s IH]; simpl; [reflexivity |].
  destruct (is_space c); simpl; [| discriminate].
  destruct (rstrip s); simpl; [auto | discriminate].
Qed.

(** Lines made of whitespace only add nothing to the line before them. *)
Lemma blank_lines_described (w p : string) :
  all_chars is_space w = true ->
  omap described_record (prepend_line p (split_on newline w))
  = option_list (described_record p).
Proof.
  revert p. induction w as [|c w IH]; intros p Hw.
  - simpl. rewrite app_empty_r. apply omap_single.
  - simpl in Hw. apply andb_prop in Hw as [Hc Hw].
    destruct (Ascii.eqb c newline) eqn:Hn.
    + simpl split_on. rewrite Hn. simpl prepend_line. rewrite app_empty_r.
      specialize (IH "" Hw). rewrite prepend_empty in IH.
      change (omap described_record (p :: split_on newline w))
        with (match described_record p with
              | Some y => y :: omap described_record (split_on newline w)
              | None => omap described_record (split_on newline w)
              end).
      rewrite IH. now destruct (described_record p).
    + rewrite (split_on_cons_other _ _ _ Hn), prepend_prepend, IH by exact Hw.
      change (p +:+ String c "") with (snoc p c).
      now rewrite (described_snoc_space c p Hc).
Qed.

Lemma rstrip_lines_described (s p : string) :
  omap described_record (prepend_line p (split_on newline (rstrip s)))
  = omap described_record (prepend_line p (split_on newline s)).
Proof.
  revert p. induction s as [|c s IH]; intros p; [reflexivity |].
  simpl rstrip. destruct (is_space c && is_empty (rstrip s)) eqn:Hb.
  - apply andb_prop in Hb as [Hc He]. apply is_empty_true in He.
    rewrite (blank_lines_described (String c s)).
    + simpl. rewrite app_empty_r. now destruct (described_record p).
    + simpl. rewrite Hc. now apply rstrip_empty_spaces.
  - destruct (Ascii.eqb c newline) eqn:Hn.
    + simpl split_on. rewrite Hn. simpl prepend_line.
      specialize (IH ""). rewrite !prepend_empty in IH.
      change (omap described_record ((p +:+ "") :: ?l))
        with (match described_record (p +:+ "") with
              | Some y => y :: omap described_record l
              | None => omap described_record l
              end).
      simpl. now rewrite IH.
    + rewrite !(split_on_cons_other _ _ _ Hn), !prepend_prepend. apply IH.
Qed.

Lemma lstrip_lines_described (s : string) :
  omap described_record (split_on newline (lstrip s))
  = omap described_record (split_on newline s).
Proof.
  induction s as [|c s IH]; [reflexivity |].
  simpl lstrip. destruct (is_space c) eqn:Hc; [| reflexivity].
  rewrite IH. simpl split_on. destruct (Ascii.eqb c newline); [reflexivity |].
  destruct (split_on_head newline s) as [t ->]. simpl.
  now rewrite (described_cons_space c _ Hc).
Qed.

(** The loop over the output lines builds, in order, the described
    record of each line that has one; stripping the whole output first
    changes no record, and the loop never raises. *)
Lemma parse_contacts_described (stdout : string) :
  parse_contacts stdout = Ok (omap described_record (split_on newline stdout)).
Proof.
  unfold parse_contacts. rewrite contacts_of_lines_described. simpl. f_equal.
  unfold strip.
  rewrite <- (prepend_empty newline (rstrip (lstrip stdout))).
  rewrite rstrip_lines_described, prepend_empty.
  apply lstrip_lines_described.
Qed.

End OutputLines.

(** ** List store and contact cache *)

Section Stores.

Context `{Env}.

Lemma document_get (contacts : json) :
  dict_get (document contacts) "contacts" (JList []) = Ok contacts.
Proof. reflexivity. Qed.

Lemma write_file_ok (fs fs' : gmap string node) (path text : string) :
  write_file fs path text = Ok fs' -> fs' = <[path := File text]> fs.
Proof.
  unfold write_file. destruct (fs !! path) as [[c|]|]; try congruence.
  destruct (has_directory fs path); congruence.
Qed.

(** [write_file] completes exactly on the paths that can be written. *)
Lemma write_file_writable (fs : gmap string node) (path text : string) :
  write_file fs path text
  = if writable fs path then Ok (<[path := File text]> fs) else Raise IOError.
Proof.
  unfold write_file, writable. now destruct (fs !! path) as [[c|]|].
Qed.

(** Reading back a document that was just written. *)
Lemma load_document_written (fs : gmap string node) (path : string)
  (contacts on_error : json) :
  json_load (json_dump (document contacts) 2) = Some (document contacts) ->
  load_document (<[path := File (json_dump (document contacts) 2)]> fs) path on_error
  = Ok contacts.
Proof.
  intros Hrt. unfold load_document, read_file.
  rewrite lookup_insert_eq, Hrt. apply document_get.
Qed.

Lemma path_exists_written (fs : gmap string node) (path text : string) :
  path_exists (<[path := File text]> fs) path = true.
Proof. unfold path_exists. now rewrite lookup_insert_eq. Qed.

(** [save_list] completes when the file of the list can be written
    once the directory of the lists is there. *)
Lemma save_list_succeeds (name : string) (contacts : json) (fs : gmap string node) :
  writable (ensure_lists_dir fs) (list_path name) = true ->
  exists fs', save_list name contacts fs = Ok fs'.
Proof.
  intros Hw. unfold save_list. rewrite write_file_writable, Hw. eauto.
Qed.

(** What [save_list] leaves when it completes. *)
Lemma save_list_saved (name : string) (contacts : json) (fs fs' : gmap string node) :
  save_list name contacts fs = Ok fs' ->
  fs' !! list_path name = Some (File (json_dump (document contacts) 2))
  /\ (json_load (json_dump (document contacts) 2) = Some (document contacts) ->
      load_list name fs' = Ok contacts).
Proof.
  intros Hsave. unfold save_list in Hsave. apply write_file_ok in Hsave as ->.
  split; [apply lookup_insert_eq |].
  intros Hrt. unfold load_list. rewrite path_exists_written. simpl.
  now apply load_document_written.
Qed.


(** The cases in which [load_list] returns the empty list: no file, a
    file that cannot be read, text that is not JSON, and an object
    without the key. *)
Lemma load_list_empty_cases (name : string) (fs : gmap string node) :
  fs !! list_path name = None
  \/ fs !! list_path name = Some Dir
  \/ (exists text, fs !! list_path name = Some (File text)
        /\ (json_load text = None
            \/ exists members, json_load text = Some (JDict members)
                 /\ assoc "contacts" members = None)) ->
  load_list name fs = Ok (JList []).
Proof.
  unfold load_list, path_exists, load_document, read_file.
  intros [-> | [-> | (text & -> & [-> | (members & -> & Hm)])]]; try reflexivity.
  simpl. now rewrite Hm.
Qed.

(** A document that is not an object makes [load_list] raise. *)
Lemma load_list_not_object (name text : string) (data : json) (fs : gmap string node) :
  fs !! list_path name = Some (File text) ->
  json_load text = Some data ->
  (forall members, data <> JDict members) ->
  load_list name fs = Raise AttributeError.
Proof.
  intros Hf Hl Hd. unfold load_list, path_exists, load_document, read_file.
  rewrite Hf. simpl. rewrite Hl. destruct data; try reflexivity.
  now destruct (Hd members).
Qed.

End Stores.

(** ** Paths of the stores *)

Section Paths.

Context `{Env}.

Lemma append_inj_l (p x y : string) : p +:+ x = p +:+ y -> x = y.
Proof.
  induction p as [|c p IH]; [trivial |].
  change (String c (p +:+ x) = String c (p +:+ y) -> x = y).
  intros [= Heq]. now apply IH.
Qed.

Lemma endswith_char_app (c a : ascii) (p q : string) :
  endswith_char c (p +:+ String a q) = endswith_char c (String a q).
Proof.
  induction p as [|b p IH]; [reflexivity |].
  change (endswith_char c (String b (p +:+ String a q)) = endswith_char c (String a q)).
  rewrite <- IH. simpl. destruct p; reflexivity.
Qed.

Lemma is_empty_app (p : string) (a : ascii) (q : string) :
  is_empty (p +:+ String a q) = false.
Proof. destruct p; reflexivity. Qed.

Lemma path_join_relative (a b : string) :
  startswith "/" b = false -> path_join a b = dir_prefix a +:+ b.
Proof.
  intros Hb. unfold path_join, dir_prefix. rewrite Hb.
  destruct (is_empty a || endswith_char "/" a); [reflexivity |].
  now rewrite app_assoc_str.
Qed.

Lemma no_slash_relative (name suffix : string) :
  contains "/" name = false ->
  startswith "/" suffix = false ->
  startswith "/" (name +:+ suffix) = false.
Proof.
  intros Hn Hs. destruct name as [|c r]; [exact Hs |].
  simpl in Hn. apply orb_false_iff in Hn as [Hc _].
  change (startswith "/" (String c (r +:+ suffix)) = false).
  simpl in *. exact Hc.
Qed.

Lemma LISTS_DIR_shape : LISTS_DIR = dir_prefix APP_DIR +:+ "lists".
Proof. unfold LISTS_DIR. now apply path_join_relative. Qed.

Lemma CONTACTS_CACHE_FILE_shape :
  CONTACTS_CACHE_FILE = dir_prefix APP_DIR +:+ "mac_contacts_cache.json".
Proof. unfold CONTACTS_CACHE_FILE. now apply path_join_relative. Qed.

Lemma dir_prefix_LISTS_DIR : dir_prefix LISTS_DIR = dir_prefix APP_DIR +:+ "lists/".
Proof.
  unfold dir_prefix at 1. rewrite LISTS_DIR_shape.
  rewrite is_empty_app, endswith_char_app. simpl orb. cbv iota.
  now rewrite app_assoc_str.
Qed.

(** The file of a list whose name has no slash lies in the directory of
    the lists. *)
Lemma list_path_shape (name : string) :
  contains "/" name = false ->
  list_path name = dir_prefix APP_DIR +:+ ("lists/" +:+ (name +:+ ".json")).
Proof.
  intros Hn. unfold list_path.
  rewrite path_join_relative by now apply no_slash_relative.
  now rewrite dir_prefix_LISTS_DIR, app_assoc_str.
Qed.

Lemma list_path_not_cache (name : string) :
  contains "/" name = false -> list_path name <> CONTACTS_CACHE_FILE.
Proof.
  intros Hn. rewrite (list_path_shape _ Hn), CONTACTS_CACHE_FILE_shape.
  intros Heq. apply append_inj_l in Heq. discriminate Heq.
Qed.

Lemma LISTS_DIR_not_cache : LISTS_DIR <> CONTACTS_CACHE_FILE.
Proof.
  rewrite LISTS_DIR_shape, CONTACTS_CACHE_FILE_shape.
  intros Heq. apply append_inj_l in Heq. discriminate Heq.
Qed.

Lemma list_path_not_LISTS_DIR (name : string) :
  contains "/" name = false -> list_path name <> LISTS_DIR.
Proof.
  intros Hn. rewrite (list_path_shape _ Hn), LISTS_DIR_shape.
  intros Heq. apply append_inj_l in Heq. discriminate Heq.
Qed.

(** The loaders look at the file of their store only. *)
Lemma load_list_lookup (name : string) (fs1 fs2 : gmap string node) :
  fs1 !! list_path name = fs2 !! list_path name ->
  load_list name fs1 = load_list name fs2.
Proof.
  intros Heq. unfold load_list, path_exists, load_document, read_file.
  now rewrite Heq.
Qed.

Lemma load_cached_contacts_lookup (fs1 fs2 : gmap string node) :
  fs1 !! CONTACTS_CACHE_FILE = fs2 !! CONTACTS_CACHE_FILE ->
  load_cached_contacts fs1 = load_cached_contacts fs2.
Proof.
  intros Heq. unfold load_cached_contacts, path_exists, load_document, read_file.
  now rewrite Heq.
Qed.

Lemma ensure_lists_dir_lookup (fs : gmap string node) (path : string) :
  path <> LISTS_DIR -> ensure_lists_dir fs !! path = fs !! path.
Proof.
  intros Hp. unfold ensure_lists_dir.
  destruct (negb (path_exists fs LISTS_DIR)); [| reflexivity].
  now apply lookup_insert_ne.
Qed.

(** [save_list] changes the file of the list, and makes the directory. *)
Lemma save_list_lookup (name : string) (contacts : json) (fs fs' : gmap string node)
  (path : string) :
  save_list name contacts fs = Ok fs' ->
  path <> list_path name -> path <> LISTS_DIR ->
  fs' !! path = fs !! path.
Proof.
  intros Hsave Hp Hd. unfold save_list in Hsave.
  apply write_file_ok in Hsave as ->.
  rewrite lookup_insert_ne by congruence. now apply ensure_lists_dir_lookup.
Qed.

End Paths.

(** ** Saving a list, then loading it *)

Section ListStore.

Context `{Env}.









End ListStore.

Section Fetch.

Context `{Env}.

(** When the bridge answers with code 0 and the cache can be written,
    [fetch_contacts_from_mac] returns the described records and caches
    them. *)
Lemma fetch_returns_described (m : machine) (stdout stderr : string) (w : World) :
  subprocess_run ["osascript"; "-l"; "JavaScript"; "-e"; jxa_script] (world m)
    = (Completed 0 stdout stderr, w) ->
  writable (files m) CONTACTS_CACHE_FILE = true ->
  let found := omap described_record (split_on newline stdout) in
  fetch_contacts_from_mac m
  = ([Syncing; Synced (length found)], found,
     mkMachine w (<[CONTACTS_CACHE_FILE :=
                      File (json_dump (document (JList (map json_of_contact found))) 2)]>
                    (files m))).
Proof.
  intros Hrun Hw found. unfold fetch_contacts_from_mac. rewrite Hrun. simpl.
  rewrite parse_contacts_described. fold found.
  unfold save_contacts_cache. rewrite write_file_writable, Hw. reflexivity.
Qed.

(** C7.  For every text the bridge puts on its standard output when it
    ends with code 0, [fetch_contacts_from_mac] builds, in order,
    exactly one record for each output line that contains a ['|'] and
    none for the others: the name is the text before the first ['|']
    stripped, the phone the text between the first and the second ['|']
    (or to the end of the line) stripped, and the first name the first
    whitespace-separated token of the name, empty when the name is
    empty.  The loop over the lines never raises.  The function reports
    the number of these records, writes them to the cache and returns
    them; when the cache file cannot be written, it reports an error and
    returns none of them. *)
Theorem fetch_contacts_described (m : machine) (stdout stderr : string) (w : World) :
  subprocess_run ["osascript"; "-l"; "JavaScript"; "-e"; jxa_script] (world m)
    = (Completed 0 stdout stderr, w) ->
  let found := omap described_record (split_on newline stdout) in
  parse_contacts stdout = Ok found
  /\ fetch_contacts_from_mac m
     = if writable (files m) CONTACTS_CACHE_FILE
       then ([Syncing; Synced (length found)], found,
             mkMachine w
               (<[CONTACTS_CACHE_FILE :=
                    File (json_dump (document (JList (map json_of_contact found))) 2)]>
                  (files m)))
       else ([Syncing; FetchError], [], mkMachine w (files m)).
Proof.
  intros Hrun found. split; [apply parse_contacts_described |].
  destruct (writable (files m) CONTACTS_CACHE_FILE) eqn:Hw.
  - now apply (fetch_returns_described m stdout stderr w).
  - unfold fetch_contacts_from_mac. rewrite Hrun. simpl.
    rewrite parse_contacts_described.
    unfold save_contacts_cache. rewrite write_file_writable, Hw. reflexivity.
Qed.

End Fetch.

(** ** Interactive contact search *)

Section SearchQueries.

Lemma lower_app (a b : string) : lower (a +:+ b) = lower a +:+ lower b.
Proof.
  induction a as [|c a IH]; [reflexivity |].
  change (String (lower_char c) (lower (a +:+ b))
          = String (lower_char c) (lower a +:+ lower b)). now rewrite IH.
Qed.

(** A split of the lower-case form comes from a split of the string. *)
Lemma lower_split (s a b : string) :
  lower s = a +:+ b ->
  exists s1 s2, s = s1 +:+ s2 /\ lower s1 = a /\ lower s2 = b.
Proof.
  revert s. induction a as [|x a IH]; intros s Hs.
  - exists "", s. auto.
  - destruct s as [|c s]; [discriminate |].
    change (String (lower_char c) (lower s) = String x (a +:+ b)) in Hs.
    injection Hs as Hc Hs. destruct (IH s Hs) as (s1 & s2 & -> & H1 & H2).
    exists (String c s1), s2. repeat split; [| exact H2]. simpl. now rewrite Hc, H1.
Qed.

Lemma startswith_iff (p s : string) :
  startswith p s = true <-> exists post, s = p +:+ post.
Proof.
  revert s. induction p as [|a p IH]; intros s; simpl.
  - split; eauto.
  - destruct s as [|b s].
    + split; [discriminate | intros [post Hp]; discriminate].
    + rewrite andb_true_iff, IH. split.
      * intros [Hab [post ->]]. apply Ascii.eqb_eq in Hab as ->. now exists post.
      * intros [post Hp]. injection Hp as -> ->. split; [apply Ascii.eqb_refl | eauto].
Qed.

Lemma contains_iff (p s : string) :
  contains p s = true <-> exists pre post, s = pre +:+ p +:+ post.
Proof.
  induction s as [|c s IH].
  - simpl. rewrite orb_false_r, startswith_iff. split.
    + intros [post ->]. now exists "", post.
    + intros (pre & post & Hs). destruct pre; [eauto | discriminate].
  - change (contains p (String c s)) with (startswith p (String c s) || contains p s).
    rewrite orb_true_iff, startswith_iff, IH. split.
    + intros [[post ->] | (pre & post & ->)].
      * now exists "", post.
      * now exists (String c pre), post.
    + intros (pre & post & Hs). destruct pre as [|x pre].
      * left. now exists post.
      * right. injection Hs as -> ->. eauto.
Qed.

(** The test of the comprehension is containment with case ignored. *)
Lemma matches_query_iff (query : string) (c : contact) :
  matches_query query c = true <-> ci_substring query (name c).
Proof.
  unfold matches_query, ci_substring. rewrite contains_iff. split.
  - intros (pre & post & Hs).
    apply lower_split in Hs as (s1 & s23 & -> & _ & H23).
    apply lower_split in H23 as (s2 & s3 & -> & H2 & _).
    now exists s1, s2, s3.
  - intros (pre & mid & post & -> & Hm).
    exists (lower pre), (lower post). now rewrite !lower_app, Hm.
Qed.

(** The digit test of line 179 recognises the number selections. *)
Lemma isdigit_selection (seen : bool) (s : string) :
  number_selection seen s
  = (seen || negb (is_empty (replace_char " " "" (replace_char "," "" s))))
    && all_chars is_digit_char (replace_char " " "" (replace_char "," "" s)).
Proof.
  revert seen. induction s as [|c s IH]; intros seen.
  - simpl. now rewrite orb_false_r, andb_true_r.
  - simpl. destruct (Ascii.eqb_spec c ",") as [->|Hcomma]; simpl.
    + apply IH.
    + destruct (Ascii.eqb_spec c " ") as [->|Hspace]; simpl.
      * apply IH.
      * rewrite IH, orb_true_r. simpl. reflexivity.
Qed.

Lemma isdigit_number_selection (s : string) :
  isdigit (replace_char " " "" (replace_char "," "" s)) = number_selection false s.
Proof. now rewrite isdigit_selection. Qed.

End SearchQueries.

Section Search.

Context `{Env}.

Lemma events_emit {A : Type} (evs : list event) (r : run A) :
  events (emit evs r) = evs ++ events r.
Proof. reflexivity. Qed.

Lemma result_emit {A : Type} (evs : list event) (r : run A) :
  result (emit evs r) = result r.
Proof. reflexivity. Qed.

Lemma filter_sublist {A : Type} (f : A -> bool) (l : list A) :
  sublist (List.filter f l) l.
Proof.
  induction l as [|x l IH]; simpl; [constructor |].
  destruct (f x); now constructor.
Qed.

Lemma map_fst_marked {A B : Type} (f : A -> B) (l : list A) :
  map fst (map (fun c => (c, f c)) l) = l.
Proof. induction l as [|x l IH]; simpl; [reflexivity | now rewrite IH]. Qed.

Lemma is_search_query_guards (query : string) :
  is_search_query query = true ->
  String.eqb (lower query) "done" = false
  /\ String.eqb (lower query) "sync" = false
  /\ String.eqb (lower query) "list" = false
  /\ is_empty query = false
  /\ isdigit (replace_char " " "" (replace_char "," "" query)) = false.
Proof.
  unfold is_search_query. rewrite isdigit_number_selection, !andb_true_iff, !negb_true_iff.
  tauto.
Qed.

(** On strings of code points below 256: for every line typed at the
    search prompt whose stripped text is a search query (not a command
    word, not empty, not a number selection), the next thing on the
    screen is the list of matches, and the matches shown are exactly the
    contacts of the full list whose name contains the query as a
    substring with case ignored, in the order of the full list. *)
Theorem search_displays_matches (all_contacts selected_contacts : list contact)
  (line : string) (rest : list string) (m : machine) :
  is_search_query (strip line) = true ->
  exists e tail shown,
    events (search_loop all_contacts selected_contacts (line :: rest) m)
      = PartyCount (length selected_contacts) :: Input PSearch line :: e :: tail
    /\ displayed_matches e = Some shown
    /\ shown = List.filter (matches_query (strip line)) all_contacts
    /\ (forall c, c ∈ shown <-> c ∈ all_contacts /\ ci_substring (strip line) (name c))
    /\ sublist shown all_contacts.
Proof.
  intros Hq. apply is_search_query_guards in Hq as (Hd & Hs & Hl & He & Hn).
  set (shown := List.filter (matches_query (strip line)) all_contacts).
  assert (Hshown : (forall c, c ∈ shown <->
                      c ∈ all_contacts /\ ci_substring (strip line) (name c))
                   /\ sublist shown all_contacts).
  { split; [| apply filter_sublist]. intros c. unfold shown.
    rewrite !list_elem_of_In, filter_In, matches_query_iff. reflexivity. }
  simpl search_loop. rewrite Hd, Hs, Hl, He, Hn. fold shown.
  destruct shown as [|c0 shown'] eqn:Hshown'.
  - eexists (NoMatch _), _, []. rewrite !events_emit. simpl.
    split; [reflexivity |]. split; [reflexivity |]. split; [reflexivity | exact Hshown].
  - eexists (Found _), _, (c0 :: shown'). rewrite !events_emit.
    split; [reflexivity |]. split; [| split; [reflexivity | exact Hshown]].
    unfold displayed_matches. now rewrite map_fst_marked.
Qed.

(** *** Phones stay distinct *)

Lemma already_added_iff (candidate : contact) (selected : list contact) :
  already_added candidate selected = true <-> phone candidate ∈ map phone selected.
Proof.
  unfold already_added. rewrite existsb_exists, list_elem_of_In, in_map_iff.
  split; intros (c & H1 & H2); exists c.
  - apply String.eqb_eq in H2. now split.
  - split; [exact H2 | now apply String.eqb_eq].
Qed.

Lemma fresh_appends_app (base a b : list contact) :
  fresh_appends base a -> fresh_appends (base ++ a) b -> fresh_appends base (a ++ b).
Proof.
  revert base. induction a as [|c a IH]; intros base Ha Hb; simpl in *.
  - now rewrite app_nil_r in Hb.
  - destruct Ha as [Hc Ha]. split; [exact Hc |].
    apply IH; [exact Ha |]. now rewrite <- app_assoc.
Qed.

Lemma add_selected_fresh (to_add selected : list contact) (n : nat) :
  exists added,
    (add_selected to_add selected n).1.2 = selected ++ added
    /\ fresh_appends selected added.
Proof.
  revert selected n. induction to_add as [|c to_add IH]; intros selected n; simpl.
  - exists []. now rewrite app_nil_r.
  - destruct (already_added c selected) eqn:Hc; simpl.
    + apply IH.
    + destruct (IH (selected ++ [c]) (S n)) as (added & Heq & Hf).
      destruct (add_selected to_add (selected ++ [c]) (S n)) as [[evs sel] k].
      simpl in *. exists (c :: added). split.
      * now rewrite Heq, <- app_assoc.
      * split; [| exact Hf]. rewrite <- already_added_iff. congruence.
Qed.

(** The loop only ever appends, and only contacts with a new phone. *)
Lemma search_loop_fresh (n : nat) :
  forall (lines : list string) (all_contacts selected_contacts : list contact)
    (m : machine) (final : list contact),
  length lines <= n ->
  result (search_loop all_contacts selected_contacts lines m) = Ok final ->
  exists added, final = selected_contacts ++ added
    /\ fresh_appends selected_contacts added.
Proof.
  induction n as [|n IH]; intros lines all_contacts selected m final Hlen Hres.
  - destruct lines; [discriminate | simpl in Hlen; lia].
  - destruct lines as [|line rest]; [discriminate |].
    simpl in Hlen. simpl search_loop in Hres. rewrite result_emit in Hres.
    assert (Hrest : length rest <= n) by lia.
    destruct (String.eqb (lower (strip line)) "done").
    { injection Hres as <-. exists []. now rewrite app_nil_r. }
    destruct (String.eqb (lower (strip line)) "sync").
    { destruct (fetch_contacts_from_mac m) as [[evs fetched] m'].
      rewrite result_emit in Hres. eapply IH; eauto. }
    destruct (String.eqb (lower (strip line)) "list").
    { rewrite result_emit in Hres. eapply IH; eauto. }
    destruct (is_empty (strip line)); [eapply IH; eauto |].
    destruct (isdigit _).
    { rewrite result_emit in Hres. eapply IH; eauto. }
    destruct (List.filter (matches_query (strip line)) all_contacts) as [|c0 shown].
    { rewrite result_emit in Hres. eapply IH; eauto. }
    rewrite result_emit in Hres.
    destruct rest as [|line2 rest2]; [discriminate |].
    simpl in Hrest. assert (Hrest2 : length rest2 <= n) by lia.
    rewrite result_emit in Hres.
    destruct (is_empty (lower (strip line2))); [eapply IH; eauto |].
    destruct (if String.eqb (lower (strip line2)) "a" then _ else _) as [to_add|].
    + destruct (add_selected_fresh to_add selected 0) as (added & Heq & Hf).
      destruct (add_selected to_add selected 0) as [[evs sel] k]. simpl in Heq.
      rewrite result_emit in Hres.
      destruct (IH _ _ _ _ _ Hrest2 Hres) as (added' & -> & Hf').
      subst sel. exists (added ++ added'). split; [now rewrite app_assoc |].
      now apply fresh_appends_app.
    + rewrite result_emit in Hres. eapply IH; eauto.
Qed.

Lemma fresh_appends_NoDup (base added : list contact) :
  fresh_appends base added ->
  NoDup (map phone base) -> NoDup (map phone (base ++ added)).
Proof.
  revert base. induction added as [|c added IH]; intros base Hf Hn; simpl in Hf.
  - now rewrite app_nil_r.
  - destruct Hf as [Hc Hf].
    replace (base ++ c :: added) with ((base ++ [c]) ++ added)
      by now rewrite <- app_assoc.
    apply IH; [exact Hf |]. rewrite map_app. simpl.
    apply NoDup_app. split; [exact Hn |]. split.
    + intros x Hx Hx'. apply list_elem_of_singleton in Hx'. now subst.
    + apply NoDup_singleton.
Qed.

Lemma fresh_appends_split (base added l1 l2 : list contact) (c : contact) :
  fresh_appends base added ->
  added = l1 ++ c :: l2 ->
  phone c ∉ map phone (base ++ l1).
Proof.
  revert base added. induction l1 as [|x l1 IH]; intros base added Hf ->; simpl in Hf.
  - rewrite app_nil_r. tauto.
  - destruct Hf as [_ Hf].
    replace (base ++ x :: l1) with ((base ++ [x]) ++ l1) by now rewrite <- app_assoc.
    eapply IH; [exact Hf | reflexivity].
Qed.

(** C9.  Whatever is typed, when the search returns, the list it
    returns is the list it was given followed by the contacts it
    appended, and each appended contact has a phone that no contact
    before it in the list has; so phones that were pairwise distinct
    when the search started are pairwise distinct when it returns. *)
Theorem search_keeps_phones_distinct (all_contacts selected_contacts : list contact)
  (lines : list string) (m : machine) (final : list contact) :
  result (interactive_contact_search all_contacts selected_contacts lines m) = Ok final ->
  exists added,
    final = selected_contacts ++ added
    /\ (forall l1 c l2, added = l1 ++ c :: l2 ->
          phone c ∉ map phone (selected_contacts ++ l1))
    /\ (NoDup (map phone selected_contacts) -> NoDup (map phone final)).
Proof.
  unfold interactive_contact_search. rewrite result_emit. intros Hres.
  destruct (search_loop_fresh (length lines) lines _ _ _ _ (le_n _) Hres)
    as (added & -> & Hf).
  exists added. split; [reflexivity |]. split.
  - intros l1 c l2 Hadd. eapply fresh_appends_split; eauto.
  - now apply fresh_appends_NoDup.
Qed.

End Search.

(** ** The search filter beyond code point 255 *)

Section WideSearch.

#[local] Existing Instance Wide.excerpt.

Lemma code_not_sigma (c : ascii) : (code c =? 931)%N = false.
Proof. destruct c as [[] [] [] [] [] [] [] []]; reflexivity. Qed.

(** Below 256 the table has the lower-case forms of the first part. *)
Lemma to_lower_full_code (c : ascii) :
  Wide.to_lower_full (code c) = [code (lower_char c)].
Proof. destruct c as [[] [] [] [] [] [] [] []]; reflexivity. Qed.

Lemma codes_cons (c : ascii) (s : string) : codes (String c s) = code c :: codes s.
Proof. reflexivity. Qed.

Lemma do_lower_codes (before : Wide.text) (s : string) :
  Wide.do_lower before (codes s) = codes (lower s).
Proof.
  revert before. induction s as [|c s IH]; intros before; [reflexivity |].
  rewrite codes_cons. cbn [Wide.do_lower lower].
  rewrite code_not_sigma, to_lower_full_code, IH. reflexivity.
Qed.

(** On the strings of the first part, [Wide.lower] is [lower]. *)
Lemma lower_codes (s : string) : Wide.lower (codes s) = codes (lower s).
Proof. apply do_lower_codes. Qed.

Lemma code_eqb (a b : ascii) : (code a =? code b)%N = Ascii.eqb a b.
Proof.
  destruct (Ascii.eqb_spec a b) as [-> | Hne]; [apply N.eqb_refl |].
  apply N.eqb_neq. intros Heq. apply Hne.
  rewrite <- (ascii_N_embedding a), <- (ascii_N_embedding b).
  unfold code in Heq. now rewrite Heq.
Qed.

Lemma startswith_codes (p s : string) :
  Wide.startswith (codes p) (codes s) = startswith p s.
Proof.
  revert s. induction p as [|a p IH]; intros s; [reflexivity |].
  destruct s as [|b s]; [reflexivity |].
  rewrite !codes_cons. cbn [Wide.startswith startswith].
  now rewrite code_eqb, IH.
Qed.

Lemma contains_codes (needle hay : string) :
  Wide.contains (codes needle) (codes hay) = contains needle hay.
Proof.
  induction hay as [|b hay IH].
  - cbn [Wide.contains contains codes]. change (codes "") with (@nil N).
    now rewrite <- (startswith_codes needle "").
  - rewrite codes_cons. cbn [Wide.contains contains].
    now rewrite <- codes_cons, startswith_codes, IH.
Qed.

(** On contacts of the first part, the filter of [Wide] is the filter
    of the search loop. *)
Lemma matches_widen (query : string) (all_contacts : list contact) :
  Wide.matches (codes query) (map widen all_contacts)
  = map widen (List.filter (matches_query query) all_contacts).
Proof.
  unfold Wide.matches. induction all_contacts as [|c cs IH]; [reflexivity |].
  cbn [map List.filter]. rewrite IH.
  change (Wide.name (widen c)) with (codes (name c)).
  rewrite !lower_codes, contains_codes. unfold matches_query.
  now destruct (contains (lower query) (lower (name c))).
Qed.

(** C4.  A contact whose name contains the query is not always among
    the matches.  The name of [tasos] is a Greek name in capitals that
    starts with the three letters of the query [tas], so it contains the
    query as it is written; the sigma at the end of the query becomes
    the final small sigma, the same sigma inside the name the other
    one, the lower-case query is not in the lower-case name, and the
    filter of line 185 keeps no contact.  The same letters typed in
    small letters find the contact. *)
Theorem search_misses_final_sigma :
  (exists pre post, Wide.name Cases.tasos = pre ++ Cases.tas ++ post)
  /\ Wide.lower Cases.tas = [964; 945; 962]%N
  /\ Wide.lower (Wide.name Cases.tasos) = [964; 945; 963; 959; 962]%N
  /\ Wide.matches Cases.tas [Cases.tasos] = []
  /\ Wide.matches [964; 945; 963]%N [Cases.tasos] = [Cases.tasos].
Proof.
  split; [exists [], [927; 931]%N; reflexivity |].
  repeat split; reflexivity.
Qed.

End WideSearch.

(** ** Message composer *)

Section Composer.

Context `{Env}.

Lemma format_literal_char (kw : list (string * string)) (c : ascii) (r : string) :
  is_brace c = false ->
  format_scan kw Literal (String c r)
  = prepend (String c "") (format_scan kw Literal r).
Proof.
  unfold is_brace. intros Hc. apply orb_false_elim in Hc as [H1 H2].
  simpl. now rewrite H1, H2.
Qed.

Lemma format_name (fn ph post : string) :
  format_scan [("name", fn); ("first_name", fn); ("phone", ph)] Literal
    ("{name}" +:+ post)
  = prepend fn (format_scan [("name", fn); ("first_name", fn); ("phone", ph)] Literal post).
Proof. reflexivity. Qed.

Lemma format_first_name (fn ph post : string) :
  format_scan [("name", fn); ("first_name", fn); ("phone", ph)] Literal
    ("{first_name}" +:+ post)
  = prepend fn (format_scan [("name", fn); ("first_name", fn); ("phone", ph)] Literal post).
Proof. reflexivity. Qed.

Lemma format_phone (fn ph post : string) :
  format_scan [("name", fn); ("first_name", fn); ("phone", ph)] Literal
    ("{phone}" +:+ post)
  = prepend ph (format_scan [("name", fn); ("first_name", fn); ("phone", ph)] Literal post).
Proof. reflexivity. Qed.

(** On a template whose braces all belong to the three placeholders,
    [format] substitutes them and keeps the rest. *)
Lemma format_substitutes (fn ph : string) (n : nat) :
  forall t, String.length t <= n ->
  placeholder_braces_from 0 t = true ->
  format_scan [("name", fn); ("first_name", fn); ("phone", ph)] Literal t
  = Ok (substitute_from 0 fn ph t).
Proof.
  induction n as [|n IH]; intros t Hlen Hb.
  - destruct t; [reflexivity | simpl in Hlen; lia].
  - destruct t as [|c r]; [reflexivity |].
    change (placeholder_braces_from 0 (String c r))
      with (if startswith "{name}" (String c r) then placeholder_braces_from 5 r
            else if startswith "{first_name}" (String c r)
                 then placeholder_braces_from 11 r
            else if startswith "{phone}" (String c r) then placeholder_braces_from 6 r
            else negb (is_brace c) && placeholder_braces_from 0 r) in Hb.
    change (substitute_from 0 fn ph (String c r))
      with (if startswith "{name}" (String c r) then fn +:+ substitute_from 5 fn ph r
            else if startswith "{first_name}" (String c r)
                 then fn +:+ substitute_from 11 fn ph r
            else if startswith "{phone}" (String c r)
                 then ph +:+ substitute_from 6 fn ph r
            else String c (substitute_from 0 fn ph r)).
    destruct (startswith "{name}" (String c r)) eqn:E1;
      [| destruct (startswith "{first_name}" (String c r)) eqn:E2;
         [| destruct (startswith "{phone}" (String c r)) eqn:E3]].
    + apply startswith_iff in E1 as [post E].
      change ("{name}" +:+ post) with (String "{" ("name}" +:+ post)) in E.
      injection E as -> ->.
      change (String "{" ("name}" +:+ post)) with ("{name}" +:+ post).
      rewrite format_name.
      change (substitute_from 5 fn ph ("name}" +:+ post))
        with (substitute_from 0 fn ph post).
      rewrite IH; [reflexivity | |exact Hb].
      change (String.length (String "{" ("name}" +:+ post)))
        with (6 + String.length post) in Hlen. lia.
    + apply startswith_iff in E2 as [post E].
      change ("{first_name}" +:+ post) with (String "{" ("first_name}" +:+ post)) in E.
      injection E as -> ->.
      change (String "{" ("first_name}" +:+ post)) with ("{first_name}" +:+ post).
      rewrite format_first_name.
      change (substitute_from 11 fn ph ("first_name}" +:+ post))
        with (substitute_from 0 fn ph post).
      rewrite IH; [reflexivity | |exact Hb].
      change (String.length (String "{" ("first_name}" +:+ post)))
        with (12 + String.length post) in Hlen. lia.
    + apply startswith_iff in E3 as [post E].
      change ("{phone}" +:+ post) with (String "{" ("phone}" +:+ post)) in E.
      injection E as -> ->.
      change (String "{" ("phone}" +:+ post)) with ("{phone}" +:+ post).
      rewrite format_phone.
      change (substitute_from 6 fn ph ("phone}" +:+ post))
        with (substitute_from 0 fn ph post).
      rewrite IH; [reflexivity | |exact Hb].
      change (String.length (String "{" ("phone}" +:+ post)))
        with (7 + String.length post) in Hlen. lia.
    + apply andb_prop in Hb as [Hc Hb]. apply negb_true_iff in Hc.
      rewrite (format_literal_char _ _ _ Hc), IH; [reflexivity | | exact Hb].
      simpl in Hlen. lia.
Qed.

(** The name put in the message, when [draft_message] can choose one. *)
Lemma first_name_chosen (c : contact) :
  name c <> "" ->
  (exists f, first_name c = Some f /\ f <> "") \/ lstrip (name c) <> "" ->
  (if negb (is_empty (name c)) then
     match first_name c with
     | Some f => if negb (is_empty f) then Ok f else index (split_ws (name c)) 0
     | None => index (split_ws (name c)) 0
     end
   else Ok "") = Ok (chosen_first_name c).
Proof.
  intros Hn Hc. unfold chosen_first_name.
  destruct (name c) as [|a r] eqn:Hname; [congruence |]. simpl negb. cbv iota.
  assert (Htok : lstrip (String a r) <> "" ->
                 index (split_ws (String a r)) 0 = Ok (first_token (String a r))).
  { intros Hl. unfold index. rewrite split_ws_first.
    destruct (lstrip (String a r)); [congruence | reflexivity]. }
  destruct (first_name c) as [[|x f]|]; simpl.
  - apply Htok. destruct Hc as [(f & [= <-] & Hf) | Hl]; [congruence | exact Hl].
  - reflexivity.
  - apply Htok. destruct Hc as [(f & Hf & _) | Hl]; [discriminate | exact Hl].
Qed.

(** C2 (amended).  For every template whose braces all belong to the
    placeholders [{name}], [{first_name}] and [{phone}], and every
    contact whose name is not empty and which has a non-empty first
    name or a name with a character that is not whitespace,
    [draft_message] returns the template with [{name}] and
    [{first_name}] replaced by the first name when it is present and
    not empty and by the first token of the name otherwise, [{phone}]
    replaced by the phone, and every other character unchanged. *)
Theorem draft_message_substitutes (template : string) (c : contact) :
  only_placeholder_braces template = true ->
  name c <> "" ->
  (exists f, first_name c = Some f /\ f <> "") \/ lstrip (name c) <> "" ->
  draft_message template c
  = Ok (substitute (chosen_first_name c) (phone c) template).
Proof.
  intros Hb Hn Hc. unfold draft_message.
  rewrite (first_name_chosen c Hn Hc). simpl bind.
  apply (format_substitutes _ _ (String.length template)); [lia | exact Hb].
Qed.

End Composer.

(** ** Send-texts flow *)

Section SendFlow.

Context `{Env}.

Lemma all_explained_app (contacts : list contact) (before a b : list event) :
  all_explained contacts before (a ++ b)
  <-> all_explained contacts before a /\ all_explained contacts (rev a ++ before) b.
Proof.
  revert before. induction a as [|e a IH]; intros before; simpl.
  - tauto.
  - rewrite IH, <- app_assoc. simpl. tauto.
Qed.

Lemma all_explained_at (contacts : list contact) (tr pre post : list event) (e : event) :
  all_explained contacts [] tr -> tr = pre ++ e :: post ->
  explained contacts (rev pre) e.
Proof.
  intros Htr ->. apply all_explained_app in Htr as [_ Htr].
  rewrite app_nil_r in Htr. apply Htr.
Qed.

Lemma choice_cases (line : string) :
  let choice := lower (strip line) in
  (String.eqb choice "s" || String.eqb choice "" = true /\ confirming line = true)
  \/ (String.eqb choice "s" || String.eqb choice "" = false
      /\ String.eqb choice "e" = true /\ choice_of line = "e")
  \/ (String.eqb choice "s" || String.eqb choice "" = false
      /\ String.eqb choice "e" = false
      /\ String.eqb choice "n" = true /\ choice_of line = "n")
  \/ (String.eqb choice "s" || String.eqb choice "" = false
      /\ String.eqb choice "e" = false /\ String.eqb choice "n" = false
      /\ String.eqb choice "q" = true)
  \/ (String.eqb choice "s" || String.eqb choice "" = false
      /\ String.eqb choice "e" = false /\ String.eqb choice "n" = false
      /\ String.eqb choice "q" = false /\ ignored line = true).
Proof.
  unfold ignored, confirming, choice_of. simpl.
  destruct (String.eqb (lower (strip line)) "s" || String.eqb (lower (strip line)) "");
    [now left | right].
  destruct (String.eqb_spec (lower (strip line)) "e"); [now left | right].
  destruct (String.eqb_spec (lower (strip line)) "n"); [now left | right].
  destruct (String.eqb (lower (strip line)) "q"); [left | right]; auto.
Qed.

Lemma prompt_loop_explained (contacts : list contact) (i total : nat) (c : contact)
  (n : nat) :
  1 <= i -> contacts !! (i - 1) = Some c ->
  forall (lines : list string) (message : string) (sent skipped : nat) (m : machine)
    (before evs : list event) (x : loop_exit),
  length lines <= n ->
  prompt_loop i total c message sent skipped lines m = (evs, x) ->
  explained contacts before (Show i total c message) ->
  all_explained contacts before evs
  /\ match x with
     | NextContact _ _ _ _ => moved_on i (rev evs ++ before)
     | _ => True
     end.
Proof.
  intros Hi Hc. induction n as [|n IH];
    intros lines message sent skipped m before evs x Hlen Hrun Hshow.
  - destruct lines; [| simpl in Hlen; lia].
    injection Hrun as <- <-. simpl. auto.
  - destruct lines as [|line rest]; [injection Hrun as <- <-; simpl; auto |].
    simpl in Hlen. simpl prompt_loop in Hrun.
    destruct (choice_cases line) as
      [[E1 Hconf] | [(E1 & E2 & He) | [(E1 & E2 & E3 & Hn) |
       [(E1 & E2 & E3 & E4) | (E1 & E2 & E3 & E4 & Hign)]]]];
      simpl in E1; rewrite E1 in Hrun; try rewrite E2 in Hrun;
      try rewrite E3 in Hrun; try rewrite E4 in Hrun.
    + destruct (send_imessage (phone c) message m) as [[success error] m'].
      injection Hrun as <- <-. simpl. split.
      * do 3 (split; [first [exact Hshow | exact I] |]). split; [| auto].
        exists total, c, line, before. auto.
      * left. do 5 eexists. reflexivity.
    + destruct rest as [|line2 rest2]; [injection Hrun as <- <-; simpl; auto |].
      destruct (prompt_loop i total c _ sent skipped rest2 m) as [evs' x'] eqn:Hrec.
      injection Hrun as <- <-. simpl in Hlen.
      eapply (IH _ _ _ _ _
                (Blank :: Input (PNewMsg i) line2 :: Input (PChoice i) line
                 :: Show i total c message :: before)) in Hrec as [Hall Hx]; [| lia |].
      * split; [simpl; auto |].
        destruct x'; auto. simpl. rewrite <- !app_assoc. exact Hx.
      * simpl. destruct Hshow as (_ & _ & _). do 2 (split; [assumption |]).
        right. right. right. right.
        exists line, line2, message, before. auto.
    + injection Hrun as <- <-. simpl. split; [auto |].
      right. exists line, total, c, message, before. auto.
    + injection Hrun as <- <-. simpl. auto.
    + destruct (prompt_loop i total c message sent skipped rest m) as [evs' x'] eqn:Hrec.
      injection Hrun as <- <-.
      eapply (IH _ _ _ _ _ (Input (PChoice i) line :: Show i total c message :: before))
        in Hrec as [Hall Hx]; [| lia |].
      * split; [simpl; auto |].
        destruct x'; auto. simpl. rewrite <- !app_assoc. exact Hx.
      * simpl. do 2 (split; [assumption |]). right. right. right. left.
        exists line, before. auto.
Qed.

End SendFlow.

Section SendFlowTraces.

Context `{Env}.

Lemma reached_explains (contacts : list contact) (i total : nat) (c : contact)
  (message : string) (before : list event) :
  1 <= i -> contacts !! (i - 1) = Some c -> reached i before ->
  explained contacts before (Show i total c message).
Proof.
  intros Hi Hc Hr. simpl. do 2 (split; [assumption |]).
  destruct Hr as [[-> Hb] | [Hi2 [Hm | Hm]]].
  - left. auto.
  - right. left. destruct Hm as (ok & err & p & msg & b' & ->).
    exists ok, err, p, msg, b'. auto.
  - right. right. left. destruct Hm as (line & t & c' & msg & b' & -> & Hn).
    exists line, t, c', msg, b'. auto.
Qed.

Lemma contact_loop_explained (contacts : list contact) (template : string) (total : nat) :
  forall (cs : list contact) (i sent skipped : nat) (lines : list string) (m : machine)
    (before : list event),
  1 <= i ->
  (forall k c, cs !! k = Some c -> contacts !! (i - 1 + k) = Some c) ->
  reached i before ->
  all_explained contacts before
    (events (contact_loop template total i cs sent skipped lines m)).
Proof.
  induction cs as [|c cs IH]; intros i sent skipped lines m before Hi Hcs Hr.
  - simpl. auto.
  - simpl contact_loop. destruct (draft_message template c) as [message | e].
    + destruct (prompt_loop i total c message sent skipped lines m) as [evs x] eqn:Hp.
      assert (Hc : contacts !! (i - 1) = Some c).
      { rewrite <- (Hcs 0 c eq_refl). f_equal. lia. }
      destruct (prompt_loop_explained contacts i total c (length lines) Hi Hc
                  lines message sent skipped m before evs x (le_n _) Hp)
        as [Hall Hx]; [now apply reached_explains |].
      destruct x as [sent' skipped' lines' m' | lines' m' | m']; simpl; auto.
      apply all_explained_app. split; [exact Hall |].
      apply IH; [lia | |].
      * intros k c' Hk. rewrite <- (Hcs (S k) c' Hk). f_equal. lia.
      * right. split; [lia |]. now replace (S i - 1) with i by lia.
    + destruct e; simpl; auto.
Qed.

(** Every event of the flow is explained by what precedes it. *)
Lemma send_texts_flow_explained (contacts : list contact) (lines : list string)
  (m : machine) :
  all_explained contacts [] (events (send_texts_flow contacts lines m)).
Proof.
  unfold send_texts_flow. destruct contacts as [|c0 cs]; [simpl; auto |].
  set (contacts := c0 :: cs).
  destruct lines as [|line rest]; [simpl; auto |].
  assert (Hloop : forall template before,
            all_explained contacts (Legend :: before)
              (events (contact_loop template (length contacts) 1 contacts 0 0 rest m))).
  { intros template before. apply contact_loop_explained; [lia | |].
    - intros k c Hk. now rewrite Nat.sub_diag.
    - left. eauto. }
  destruct (String.eqb (strip line) "1").
  - simpl. do 4 (split; [exact I |]). apply Hloop.
  - destruct (is_empty (strip line)); simpl; auto.
    do 3 (split; [exact I |]). apply Hloop.
Qed.

(** *** Calls of the adapter *)

Lemma adapter_calls_app (a b : list event) :
  adapter_calls (a ++ b) = adapter_calls a ++ adapter_calls b.
Proof.
  induction a as [|e a IH]; [reflexivity |].
  destruct e; simpl; rewrite IH; reflexivity.
Qed.

(** One contact gets at most one call, with its own number and phone. *)
Lemma prompt_loop_calls (i total : nat) (c : contact) (n : nat) :
  forall (lines : list string) (message : string) (sent skipped : nat) (m : machine)
    (evs : list event) (x : loop_exit),
  length lines <= n ->
  prompt_loop i total c message sent skipped lines m = (evs, x) ->
  adapter_calls evs = []
  \/ exists msg, adapter_calls evs = [(i, phone c, msg)].
Proof.
  induction n as [|n IH]; intros lines message sent skipped m evs x Hlen Hrun.
  - destruct lines; [| simpl in Hlen; lia]. injection Hrun as <- <-. now left.
  - destruct lines as [|line rest]; [injection Hrun as <- <-; now left |].
    simpl in Hlen. simpl prompt_loop in Hrun.
    destruct (String.eqb (lower (strip line)) "s" || String.eqb (lower (strip line)) "").
    { destruct (send_imessage (phone c) message m) as [[success error] m'].
      injection Hrun as <- <-. right. now exists message. }
    destruct (String.eqb (lower (strip line)) "e").
    { destruct rest as [|line2 rest2]; [injection Hrun as <- <-; now left |].
      destruct (prompt_loop i total c _ sent skipped rest2 m) as [evs' x'] eqn:Hrec.
      injection Hrun as <- <-. simpl in Hlen. simpl.
      eapply IH; [| exact Hrec]. lia. }
    destruct (String.eqb (lower (strip line)) "n"); [injection Hrun as <- <-; now left |].
    destruct (String.eqb (lower (strip line)) "q"); [injection Hrun as <- <-; now left |].
    destruct (prompt_loop i total c message sent skipped rest m) as [evs' x'] eqn:Hrec.
    injection Hrun as <- <-. simpl. eapply IH; [| exact Hrec]. lia.
Qed.

Lemma contact_loop_calls (template : string) (total : nat) :
  forall (cs : list contact) (i sent skipped : nat) (lines : list string) (m : machine),
  sublist
    (map (fun x => (x.1.1, x.1.2))
       (adapter_calls (events (contact_loop template total i cs sent skipped lines m))))
    (numbered_phones i cs).
Proof.
  induction cs as [|c cs IH]; intros i sent skipped lines m.
  - simpl. constructor.
  - simpl contact_loop. unfold numbered_phones. simpl.
    fold (numbered_phones (S i) cs).
    destruct (draft_message template c) as [message | e].
    + destruct (prompt_loop i total c message sent skipped lines m) as [evs x] eqn:Hp.
      pose proof (prompt_loop_calls i total c (length lines) lines message sent skipped
                    m evs x (le_n _) Hp) as Hcalls.
      destruct x as [sent' skipped' lines' m' | lines' m' | m']; simpl.
      * rewrite adapter_calls_app, map_app.
        destruct Hcalls as [-> | [msg ->]]; simpl.
        -- apply sublist_cons, IH.
        -- apply sublist_skip, IH.
      * destruct Hcalls as [-> | [msg ->]]; simpl.
        -- apply sublist_nil_l.
        -- apply sublist_skip, sublist_nil_l.
      * destruct Hcalls as [-> | [msg ->]]; simpl.
        -- apply sublist_nil_l.
        -- apply sublist_skip, sublist_nil_l.
    + destruct e; simpl; apply sublist_nil_l.
Qed.

Lemma send_texts_flow_calls (contacts : list contact) (lines : list string) (m : machine) :
  sublist
    (map (fun x => (x.1.1, x.1.2))
       (adapter_calls (events (send_texts_flow contacts lines m))))
    (numbered_phones 1 contacts).
Proof.
  unfold send_texts_flow. destruct contacts as [|c0 cs]; [simpl; constructor |].
  destruct lines as [|line rest]; [simpl; apply sublist_nil_l |].
  destruct (String.eqb (strip line) "1").
  - rewrite !events_emit, !adapter_calls_app. apply contact_loop_calls.
  - destruct (is_empty (strip line)); [simpl; apply sublist_nil_l |].
    rewrite !events_emit, !adapter_calls_app. apply contact_loop_calls.
Qed.

End SendFlowTraces.

Section SkippedContacts.

Context `{Env}.

(** [He] says that an event is among a few listed ones: go through
    them, each being about contact [i] ([numbered]) or not the event
    at all ([none_of]). *)
Ltac numbered He Hj :=
  repeat (apply elem_of_cons in He as [-> | He]; [simpl in Hj; congruence |]).

Ltac none_of He :=
  repeat (apply elem_of_cons in He as [He | He]; [discriminate |]);
  try (now apply elem_of_nil in He).

(** The events of the turn of contact [i] are about contact [i]. *)
Lemma prompt_loop_numbers (i total : nat) (c : contact) (n : nat) :
  forall (lines : list string) (message : string) (sent skipped : nat) (m : machine)
    (evs : list event) (x : loop_exit),
  length lines <= n ->
  prompt_loop i total c message sent skipped lines m = (evs, x) ->
  forall e j, e ∈ evs -> event_number e = Some j -> j = i.
Proof.
  induction n as [|n IH]; intros lines message sent skipped m evs x Hlen Hrun e j He Hj.
  - destruct lines; [| simpl in Hlen; lia]. injection Hrun as <- <-.
    apply list_elem_of_singleton in He as ->. simpl in Hj. congruence.
  - destruct lines as [|line rest].
    { injection Hrun as <- <-.
      apply list_elem_of_singleton in He as ->. simpl in Hj. congruence. }
    simpl in Hlen. simpl prompt_loop in Hrun.
    destruct (String.eqb (lower (strip line)) "s" || String.eqb (lower (strip line)) "").
    { destruct (send_imessage (phone c) message m) as [[success error] m'].
      injection Hrun as <- <-. simpl in He.
      numbered He Hj.
      now apply elem_of_nil in He. }
    destruct (String.eqb (lower (strip line)) "e").
    { destruct rest as [|line2 rest2].
      - injection Hrun as <- <-.
        numbered He Hj.
        now apply elem_of_nil in He.
      - destruct (prompt_loop i total c _ sent skipped rest2 m) as [evs' x'] eqn:Hrec.
        injection Hrun as <- <-. simpl in Hlen. simpl in He.
        numbered He Hj.
        eapply IH; [| exact Hrec | exact He | exact Hj]. lia. }
    destruct (String.eqb (lower (strip line)) "n").
    { injection Hrun as <- <-.
      numbered He Hj.
      now apply elem_of_nil in He. }
    destruct (String.eqb (lower (strip line)) "q").
    { injection Hrun as <- <-. simpl in He.
      numbered He Hj.
      now apply elem_of_nil in He. }
    destruct (prompt_loop i total c message sent skipped rest m) as [evs' x'] eqn:Hrec.
    injection Hrun as <- <-. simpl in He.
    numbered He Hj.
    eapply IH; [| exact Hrec | exact He | exact Hj]. lia.
Qed.

(** A turn in which [n] is typed contains no call of the adapter. *)
Lemma prompt_loop_skip_no_call (i total : nat) (c : contact) (n : nat) :
  forall (lines : list string) (message : string) (sent skipped : nat) (m : machine)
    (evs : list event) (x : loop_exit) (j : nat) (typed : string),
  length lines <= n ->
  prompt_loop i total c message sent skipped lines m = (evs, x) ->
  Input (PChoice j) typed ∈ evs -> choice_of typed = "n" ->
  adapter_calls evs = [].
Proof.
  induction n as [|n IH];
    intros lines message sent skipped m evs x j typed Hlen Hrun He Hn.
  - destruct lines; [| simpl in Hlen; lia]. now injection Hrun as <- <-.
  - destruct lines as [|line rest]; [now injection Hrun as <- <- |].
    simpl in Hlen. simpl prompt_loop in Hrun.
    destruct (choice_cases line) as
      [[E1 Hconf] | [(E1 & E2 & Hedit) | [(E1 & E2 & E3 & Hskip) |
       [(E1 & E2 & E3 & E4) | (E1 & E2 & E3 & E4 & Hign)]]]];
      simpl in E1; rewrite E1 in Hrun; try rewrite E2 in Hrun;
      try rewrite E3 in Hrun; try rewrite E4 in Hrun.
    + destruct (send_imessage (phone c) message m) as [[success error] m'].
      injection Hrun as <- <-. simpl in He.
      apply elem_of_cons in He as [He | He]; [discriminate |].
      apply elem_of_cons in He as [He | He].
      * injection He as -> ->. unfold confirming in Hconf. rewrite Hn in Hconf.
        discriminate.
      * none_of He.
    + destruct rest as [|line2 rest2]; [now injection Hrun as <- <- |].
      destruct (prompt_loop i total c _ sent skipped rest2 m) as [evs' x'] eqn:Hrec.
      injection Hrun as <- <-. simpl in Hlen. simpl in He. simpl.
      apply elem_of_cons in He as [He | He]; [discriminate |].
      apply elem_of_cons in He as [He | He].
      * injection He as -> ->. congruence.
      * do 2 (apply elem_of_cons in He as [He | He]; [discriminate |]).
        eapply IH; [| exact Hrec | exact He | exact Hn]. lia.
    + now injection Hrun as <- <-.
    + now injection Hrun as <- <-.
    + destruct (prompt_loop i total c message sent skipped rest m) as [evs' x'] eqn:Hrec.
      injection Hrun as <- <-. simpl in He. simpl.
      apply elem_of_cons in He as [He | He]; [discriminate |].
      apply elem_of_cons in He as [He | He].
      * injection He as -> ->. unfold ignored in Hign. rewrite Hn in Hign.
        rewrite !andb_true_iff in Hign. destruct Hign as [[_ Hne] _]. discriminate.
      * eapply IH; [| exact Hrec | exact He | exact Hn]. lia.
Qed.

Lemma call_numbers_event (tr : list event) (j : nat) :
  j ∈ call_numbers tr -> exists p msg, SendIMessage j p msg ∈ tr.
Proof.
  unfold call_numbers. induction tr as [|e tr IH]; simpl.
  - intros Hj. now apply elem_of_nil in Hj.
  - destruct e; simpl; intros Hj;
      first [ apply elem_of_cons in Hj as [-> | Hj];
              [eexists _, _; apply elem_of_cons; left; reflexivity |]
            | idtac ];
      destruct (IH Hj) as (p' & msg' & Hin); exists p', msg';
      apply elem_of_cons; right; exact Hin.
Qed.

(** From contact number [i] on, the events are about contacts [i] and
    later. *)
Lemma contact_loop_numbers (template : string) (total : nat) :
  forall (cs : list contact) (i sent skipped : nat) (lines : list string) (m : machine)
    (e : event) (j : nat),
  e ∈ events (contact_loop template total i cs sent skipped lines m) ->
  event_number e = Some j -> i <= j.
Proof.
  induction cs as [|c cs IH]; intros i sent skipped lines m e j He Hj.
  - simpl in He. apply list_elem_of_singleton in He as ->. discriminate.
  - simpl contact_loop in He. destruct (draft_message template c) as [message | err].
    + destruct (prompt_loop i total c message sent skipped lines m) as [evs x] eqn:Hp.
      pose proof (prompt_loop_numbers i total c (length lines) lines message sent
                    skipped m evs x (le_n _) Hp) as Hnum.
      destruct x as [sent' skipped' lines' m' | lines' m' | m']; simpl in He.
      * apply elem_of_app in He as [He | He].
        -- rewrite (Hnum e j He Hj). lia.
        -- specialize (IH _ _ _ _ _ _ _ He Hj). lia.
      * rewrite (Hnum e j He Hj). lia.
      * rewrite (Hnum e j He Hj). lia.
    + destruct err; simpl in He;
        try (now apply elem_of_nil in He).
      apply list_elem_of_singleton in He as ->. discriminate.
Qed.

Lemma contact_loop_skip_no_call (template : string) (total : nat) :
  forall (cs : list contact) (i sent skipped : nat) (lines : list string) (m : machine)
    (j : nat) (typed : string),
  Input (PChoice j) typed ∈ events (contact_loop template total i cs sent skipped lines m) ->
  choice_of typed = "n" ->
  j ∉ call_numbers (events (contact_loop template total i cs sent skipped lines m)).
Proof.
  induction cs as [|c cs IH]; intros i sent skipped lines m j typed He Hn Hj.
  - simpl in He. apply list_elem_of_singleton in He. discriminate.
  - simpl contact_loop in He, Hj. destruct (draft_message template c) as [message | err].
    + destruct (prompt_loop i total c message sent skipped lines m) as [evs x] eqn:Hp.
      pose proof (prompt_loop_numbers i total c (length lines) lines message sent
                    skipped m evs x (le_n _) Hp) as Hnum.
      pose proof (prompt_loop_skip_no_call i total c (length lines) lines message sent
                    skipped m evs x j typed (le_n _) Hp) as Hskip.
      pose proof (prompt_loop_calls i total c (length lines) lines message sent skipped
                    m evs x (le_n _) Hp) as Hcalls.
      assert (Hhere : Input (PChoice j) typed ∈ evs -> j ∉ call_numbers evs).
      { intros Hin. unfold call_numbers. rewrite (Hskip Hin Hn). apply not_elem_of_nil. }
      destruct x as [sent' skipped' lines' m' | lines' m' | m']; simpl in He, Hj;
        try (now apply (Hhere He)).
      unfold call_numbers in Hj. rewrite adapter_calls_app, map_app in Hj.
      apply elem_of_app in Hj as [Hj | Hj]; apply elem_of_app in He as [He | He].
      * now apply (Hhere He).
      * assert (Hle : S i <= j)
          by (eapply contact_loop_numbers; [exact He | reflexivity]).
        destruct Hcalls as [Hc | [msg Hc]]; rewrite Hc in Hj; simpl in Hj.
        -- now apply elem_of_nil in Hj.
        -- apply list_elem_of_singleton in Hj. lia.
      * assert (Hji : j = i) by (eapply Hnum; [exact He | reflexivity]).
        apply call_numbers_event in Hj as (p & msg & Hin).
        assert (Hle : S i <= j)
          by (eapply contact_loop_numbers; [exact Hin | reflexivity]).
        lia.
      * now apply (IH _ _ _ _ _ _ _ He Hn).
    + destruct err; simpl in He; try (now apply elem_of_nil in He).
      apply list_elem_of_singleton in He. discriminate.
Qed.

(** The flow is an opening followed, unless it stops there, by the
    loop over the contacts. *)
Lemma send_texts_flow_shape (contacts : list contact) (lines : list string)
  (m : machine) :
  exists pre tail,
    events (send_texts_flow contacts lines m) = pre ++ tail
    /\ Forall (fun e => match e with
                        | NoContacts | Banner | Input PTemplate _ | Using _
                        | EmptyMessage | Legend => True
                        | _ => False
                        end) pre
    /\ (tail = []
        \/ exists template rest,
             tail = events (contact_loop template (length contacts) 1 contacts
                              0 0 rest m)).
Proof.
  unfold send_texts_flow. destruct contacts as [|c0 cs].
  { exists [NoContacts], []. repeat split; auto. }
  destruct lines as [|line rest].
  { exists [Banner], []. repeat split; auto. }
  destruct (String.eqb (strip line) "1").
  - eexists [Banner; Input PTemplate line; Using default_template; Legend], _.
    split; [reflexivity |]. split; [repeat constructor |]. right. eauto.
  - destruct (is_empty (strip line)).
    + exists [Banner; Input PTemplate line; EmptyMessage], [].
      repeat split; auto.
    + eexists [Banner; Input PTemplate line; Legend], _.
      split; [reflexivity |]. split; [repeat constructor |]. right. eauto.
Qed.

(** A contact at whose prompt [n] was typed gets no call at all. *)
Lemma send_texts_flow_skip_no_call (contacts : list contact) (lines : list string)
  (m : machine) (j : nat) (typed : string) :
  Input (PChoice j) typed ∈ events (send_texts_flow contacts lines m) ->
  choice_of typed = "n" ->
  j ∉ call_numbers (events (send_texts_flow contacts lines m)).
Proof.
  destruct (send_texts_flow_shape contacts lines m) as (pre & tail & -> & Hpre & Htail).
  assert (Hp : adapter_calls pre = []
               /\ forall e k, e ∈ pre -> e <> Input (PChoice k) typed).
  { clear Htail. induction Hpre as [|e pre He _ [IH1 IH2]].
    - split; [reflexivity |]. intros e k Hin. now apply elem_of_nil in Hin.
    - split.
      + destruct e; try destruct p; simpl; tauto.
      + intros e' k Hin. apply elem_of_cons in Hin as [-> | Hin]; [| now apply IH2].
        destruct e; try destruct p; simpl in He; try tauto; discriminate. }
  destruct Hp as [Hcalls Hno]. intros He Hn.
  unfold call_numbers. rewrite adapter_calls_app, Hcalls, app_nil_l.
  apply elem_of_app in He as [He | He]; [now destruct (Hno _ j He) |].
  destruct Htail as [-> | (template & rest & ->)]; [now apply elem_of_nil in He |].
  exact (contact_loop_skip_no_call template _ _ _ _ _ _ _ j typed He Hn).
Qed.

End SkippedContacts.

Section SendFlowOrder.

Context `{Env}.

Lemma sublist_map {A B : Type} (f : A -> B) (l k : list A) :
  sublist l k -> sublist (map f l) (map f k).
Proof. induction 1; simpl; now constructor. Qed.

Lemma numbered_phones_numbers (i : nat) (cs : list contact) :
  map fst (numbered_phones i cs) = seq i (length cs).
Proof.
  unfold numbered_phones. revert i. induction cs as [|c cs IH]; intros i; simpl;
    [reflexivity | now rewrite IH].
Qed.

Lemma numbered_phones_phones (i : nat) (cs : list contact) :
  map snd (numbered_phones i cs) = map phone cs.
Proof.
  unfold numbered_phones. revert i. induction cs as [|c cs IH]; intros i; simpl;
    [reflexivity | now rewrite IH].
Qed.

Lemma rev_eq_cons3 {A : Type} (pre before' : list A) (a b c : A) :
  rev pre = a :: b :: c :: before' -> pre = rev before' ++ [c; b; a].
Proof.
  intros Hr. rewrite <- (rev_involutive pre), Hr. simpl.
  now rewrite <- !app_assoc.
Qed.

(** C1.  In the send-texts flow, for every contact list and every
    sequence of typed lines: (1) each call of the messaging adapter
    comes right after a confirming input ([s] or Enter) typed at the
    prompt of the contact the call is for, and sends the message shown
    at that prompt to that contact's phone; (2) a contact at whose
    prompt [n] was typed gets no call of the adapter in the whole run,
    and typing [n] ends the turn of the contact at once, the outside
    world left as it was; (3) typing [e] only replaces the drafted
    message and prompts the same contact again, with no call of the
    adapter. *)
Theorem send_only_after_confirmation (contacts : list contact) (lines : list string)
  (m : machine) :
  (forall pre i p msg post,
     events (send_texts_flow contacts lines m) = pre ++ SendIMessage i p msg :: post ->
     exists pre' total c line,
       pre = pre' ++ [Show i total c msg; Input (PChoice i) line; Sending]
       /\ confirming line = true
       /\ 1 <= i /\ contacts !! (i - 1) = Some c /\ p = phone c)
  /\ (forall i line,
        Input (PChoice i) line ∈ events (send_texts_flow contacts lines m) ->
        choice_of line = "n" ->
        (i ∉ call_numbers (events (send_texts_flow contacts lines m))))
  /\ (forall i total c message sent skipped line rest m',
        choice_of line = "n" ->
        prompt_loop i total c message sent skipped (line :: rest) m'
        = ([Show i total c message; Input (PChoice i) line],
           NextContact sent (S skipped) rest m'))
  /\ (forall i total c message sent skipped line line2 rest m',
        choice_of line = "e" ->
        prompt_loop i total c message sent skipped (line :: line2 :: rest) m'
        = let '(evs, x) :=
            prompt_loop i total c (edited message line2) sent skipped rest m' in
          ([Show i total c message; Input (PChoice i) line; Input (PNewMsg i) line2; Blank]
           ++ evs, x)).
Proof.
  split; [| split; [| split]].
  - intros pre i p msg post Htr.
    pose proof (all_explained_at contacts _ pre post _
                  (send_texts_flow_explained contacts lines m) Htr) as He.
    destruct He as (total & c & line & before' & Hrev & Hconf & Hi & Hc & Hp).
    exists (rev before'), total, c, line. split; [| auto].
    now apply rev_eq_cons3.
  - intros i line. apply send_texts_flow_skip_no_call.
  - intros i total c message sent skipped line rest m' Hn.
    unfold choice_of in Hn. simpl. now rewrite Hn.
  - intros i total c message sent skipped line line2 rest m' He.
    unfold choice_of in He. simpl prompt_loop. rewrite He. simpl.
    unfold edited.
    now destruct (prompt_loop i total c _ sent skipped rest m') as [evs x].
Qed.

(** C5.  For every contact list and every sequence of typed lines, the
    flow takes the contacts in list order, one at a time: the phones
    the adapter is called with form a subsequence of the phones of the
    list; the numbers of the contacts it is called for form a
    subsequence of 1, 2, ..., so no contact gets two calls; and the
    prompt of a contact appears only at the start (first contact), right
    after the send attempt or the skip of the contact before it, or
    again for the same contact after an ignored input or an edit. *)
Theorem contacts_taken_in_order (contacts : list contact) (lines : list string)
  (m : machine) :
  sublist (recipients (events (send_texts_flow contacts lines m))) (map phone contacts)
  /\ sublist (call_numbers (events (send_texts_flow contacts lines m)))
       (seq 1 (length contacts))
  /\ NoDup (call_numbers (events (send_texts_flow contacts lines m)))
  /\ (forall pre i total c msg post,
        events (send_texts_flow contacts lines m) = pre ++ Show i total c msg :: post ->
        explained contacts (rev pre) (Show i total c msg)).
Proof.
  pose proof (send_texts_flow_calls contacts lines m) as Hsub.
  assert (Hnum : sublist (call_numbers (events (send_texts_flow contacts lines m)))
                   (seq 1 (length contacts))).
  { apply (sublist_map fst) in Hsub.
    rewrite numbered_phones_numbers, map_map in Hsub. exact Hsub. }
  split; [| split; [exact Hnum | split]].
  - apply (sublist_map snd) in Hsub.
    rewrite numbered_phones_phones, map_map in Hsub. exact Hsub.
  - eapply sublist_NoDup; [apply NoDup_seq | exact Hnum].
  - intros pre i total c msg post Htr.
    exact (all_explained_at contacts _ pre post _
             (send_texts_flow_explained contacts lines m) Htr).
Qed.

(** A template with an unknown named placeholder: the flow reports it
    at the first contact and returns; nothing is sent. *)
Lemma unknown_name_reported (c : contact) (cs : list contact) (line key : string)
  (rest : list string) (m : machine) :
  String.eqb (strip line) "1" = false ->
  is_empty (strip line) = false ->
  draft_message (strip line) c = Raise (KeyError key) ->
  send_texts_flow (c :: cs) (line :: rest) m
  = mkRun [Banner; Input PTemplate line; Legend; InvalidPlaceholder key] (Ok tt) rest m.
Proof.
  intros H1 He Hd. unfold send_texts_flow. rewrite H1, He. simpl contact_loop.
  rewrite Hd. reflexivity.
Qed.

End SendFlowOrder.

Section NothingSent.

Context `{Env}.

(** When the draft for the first contact raises, whatever the error,
    the adapter is never called. *)
Lemma no_call_when_first_draft_raises (c : contact) (cs : list contact)
  (line : string) (rest : list string) (m : machine) (e : exn) :
  draft_message (if String.eqb (strip line) "1" then default_template else strip line) c
    = Raise e ->
  adapter_calls (events (send_texts_flow (c :: cs) (line :: rest) m)) = [].
Proof.
  intros Hd. unfold send_texts_flow.
  destruct (String.eqb (strip line) "1").
  - rewrite !events_emit, !adapter_calls_app.
    change (is_empty default_template) with false. cbv iota.
    rewrite events_emit, adapter_calls_app. simpl contact_loop. rewrite Hd.
    now destruct e.
  - destruct (is_empty (strip line)); [reflexivity |].
    rewrite !events_emit, !adapter_calls_app. simpl contact_loop. rewrite Hd.
    now destruct e.
Qed.

End NothingSent.

(** ** Evaluations on the concrete platform *)

Section Evaluations.

#[local] Existing Instance Platform.env.

Import Sample.



Lemma fetch_contacts_described_witness :
  subprocess_run ["osascript"; "-l"; "JavaScript"; "-e"; jxa_script]
    (world Cases.before_sync)
  = (Completed 0 "Alice Smith|+15550100" "", [])
  /\ parse_contacts "Alice Smith|+15550100" = Ok [alice]
  /\ fetch_contacts_from_mac Cases.before_sync
     = ([Syncing; Synced 1], [alice], Cases.after_sync).
Proof.
  assert (Hrun : subprocess_run ["osascript"; "-l"; "JavaScript"; "-e"; jxa_script]
                   (world Cases.before_sync)
                 = (Completed 0 "Alice Smith|+15550100" "", [])) by reflexivity.
  split; [exact Hrun |].
  destruct (fetch_contacts_described Cases.before_sync "Alice Smith|+15550100" "" []
              Hrun) as [Hparse Hfetch].
  split; [exact Hparse |].
  rewrite Hfetch.
  replace (writable (files Cases.before_sync) CONTACTS_CACHE_FILE) with true
    by (vm_compute; reflexivity).
  reflexivity.
Defined.


(** C8.  A list file that holds a JSON document other than an object
    (here the array [[]]) makes [load_list] raise [AttributeError]: the
    [get] of line 66 runs on a list, and the [except] clause of line 67
    does not cover that error. *)
Theorem load_list_raises_on_array :
  json_load "[]" = Some (JList [])
  /\ load_list "friends" array_store = Raise AttributeError.
Proof.
  split; [vm_compute; reflexivity |].
  apply (load_list_not_object "friends" "[]" (JList [])).
  - vm_compute. reflexivity.
  - vm_compute. reflexivity.
  - discriminate.
Qed.

(** C2, as first stated, fails on a doubled brace: [format] turns
    [{{name}}] into the literal text [{name}], not into the name in
    braces. *)
Lemma draft_message_doubled_braces :
  ~ (name alice <> "" ->
     draft_message "{{name}}" alice
     = Ok (substitute (chosen_first_name alice) (phone alice) "{{name}}")).
Proof.
  intros Hstated. assert (Hn : name alice <> "") by discriminate.
  specialize (Hstated Hn). vm_compute in Hstated. discriminate.
Qed.

Lemma draft_message_substitutes_witness :
  only_placeholder_braces "Hey {name}! Call {phone}." = true
  /\ name bob <> ""
  /\ ((exists f, first_name bob = Some f /\ f <> "") \/ lstrip (name bob) <> "")
  /\ draft_message "Hey {name}! Call {phone}." bob = Ok "Hey Bob! Call +15550101.".
Proof.
  assert (Hb : only_placeholder_braces "Hey {name}! Call {phone}." = true)
    by reflexivity.
  assert (Hn : name bob <> "") by discriminate.
  assert (Hf : (exists f, first_name bob = Some f /\ f <> "") \/ lstrip (name bob) <> "")
    by (right; discriminate).
  split; [exact Hb | split; [exact Hn | split; [exact Hf |]]].
  exact (draft_message_substitutes "Hey {name}! Call {phone}." bob Hb Hn Hf).
Defined.

Lemma search_displays_matches_witness :
  is_search_query (strip " ALI ") = true
  /\ exists e tail shown,
       events (search_loop address_book [] [" ALI "] idle)
         = PartyCount 0 :: Input PSearch " ALI " :: e :: tail
       /\ displayed_matches e = Some shown
       /\ shown = List.filter (matches_query (strip " ALI ")) address_book
       /\ (forall c, c ∈ shown <->
             c ∈ address_book /\ ci_substring (strip " ALI ") (name c))
       /\ sublist shown address_book.
Proof.
  assert (Hq : is_search_query (strip " ALI ") = true) by reflexivity.
  split; [exact Hq |].
  exact (search_displays_matches address_book [] " ALI " [] idle Hq).
Defined.

Lemma search_keeps_phones_distinct_witness :
  result (interactive_contact_search address_book [alice]
            ["o"; "a"; "done"] idle) = Ok [alice; bob; carol]
  /\ exists added,
       [alice; bob; carol] = [alice] ++ added
       /\ (forall l1 c l2, added = l1 ++ c :: l2 ->
             phone c ∉ map phone ([alice] ++ l1))
       /\ (NoDup (map phone [alice]) -> NoDup (map phone [alice; bob; carol])).
Proof.
  assert (Hr : result (interactive_contact_search address_book [alice]
                         ["o"; "a"; "done"] idle) = Ok [alice; bob; carol])
    by reflexivity.
  split; [exact Hr |].
  exact (search_keeps_phones_distinct address_book [alice] _ idle _ Hr).
Defined.

Lemma session_trace :
  events (send_texts_flow [alice; bob] session ready)
  = [Banner; Input PTemplate "1"; Using default_template; Legend;
     Show 1 2 alice "Hey Alice! Party at my place Friday at 8, you in?";
     Input (PChoice 1) "n";
     Show 2 2 bob "Hey Bob! Party at my place Friday at 8, you in?";
     Input (PChoice 2) "e"; Input (PNewMsg 2) " See you Friday! "; Blank;
     Show 2 2 bob "See you Friday!"; Input (PChoice 2) "S"; Sending]
    ++ SendIMessage 2 "+15550101" "See you Friday!"
    :: [SendResult true None; Done 1 1].
Proof. reflexivity. Qed.

Lemma send_only_after_confirmation_witness :
  (exists pre' total c line,
     [Banner; Input PTemplate "1"; Using default_template; Legend;
      Show 1 2 alice "Hey Alice! Party at my place Friday at 8, you in?";
      Input (PChoice 1) "n";
      Show 2 2 bob "Hey Bob! Party at my place Friday at 8, you in?";
      Input (PChoice 2) "e"; Input (PNewMsg 2) " See you Friday! "; Blank;
      Show 2 2 bob "See you Friday!"; Input (PChoice 2) "S"; Sending]
     = pre' ++ [Show 2 total c "See you Friday!"; Input (PChoice 2) line; Sending]
     /\ confirming line = true
     /\ 1 <= 2 /\ [alice; bob] !! (2 - 1) = Some c /\ "+15550101" = phone c)
  /\ (1 ∉ call_numbers (events (send_texts_flow [alice; bob] session ready)))
  /\ prompt_loop 1 2 alice "Hi" 0 0 ["n"; "s"] ready
     = ([Show 1 2 alice "Hi"; Input (PChoice 1) "n"], NextContact 0 1 ["s"] ready)
  /\ prompt_loop 2 2 bob "Hi" 0 0 ["e"; "Yo"; "q"] ready
     = let '(evs, x) := prompt_loop 2 2 bob (edited "Hi" "Yo") 0 0 ["q"] ready in
       ([Show 2 2 bob "Hi"; Input (PChoice 2) "e"; Input (PNewMsg 2) "Yo"; Blank] ++ evs, x).
Proof.
  destruct (send_only_after_confirmation [alice; bob] session ready)
    as (H1 & H2 & H3 & H4).
  split; [| split; [| split]].
  - exact (H1 _ _ _ _ _ session_trace).
  - apply (H2 1 "n"); [| reflexivity].
    rewrite session_trace. repeat constructor.
  - exact (H3 1 2 alice "Hi" 0 0 "n" ["s"] ready eq_refl).
  - exact (H4 2 2 bob "Hi" 0 0 "e" "Yo" ["q"] ready eq_refl).
Defined.

Lemma session_trace_at_second_prompt :
  events (send_texts_flow [alice; bob] session ready)
  = [Banner; Input PTemplate "1"; Using default_template; Legend;
     Show 1 2 alice "Hey Alice! Party at my place Friday at 8, you in?";
     Input (PChoice 1) "n"]
    ++ Show 2 2 bob "Hey Bob! Party at my place Friday at 8, you in?"
    :: [Input (PChoice 2) "e"; Input (PNewMsg 2) " See you Friday! "; Blank;
        Show 2 2 bob "See you Friday!"; Input (PChoice 2) "S"; Sending;
        SendIMessage 2 "+15550101" "See you Friday!";
        SendResult true None; Done 1 1].
Proof. reflexivity. Qed.

Lemma contacts_taken_in_order_witness :
  sublist (recipients (events (send_texts_flow [alice; bob] session ready)))
    (map phone [alice; bob])
  /\ explained [alice; bob]
       (rev [Banner; Input PTemplate "1"; Using default_template; Legend;
             Show 1 2 alice "Hey Alice! Party at my place Friday at 8, you in?";
             Input (PChoice 1) "n"])
       (Show 2 2 bob "Hey Bob! Party at my place Friday at 8, you in?").
Proof.
  destruct (contacts_taken_in_order [alice; bob] session ready) as (H1 & _ & _ & H4).
  split; [exact H1 |].
  exact (H4 _ _ _ _ _ _ session_trace_at_second_prompt).
Defined.

(** C10.  A named placeholder that is not provided is reported and the
    flow returns; a positional placeholder, as in [Hi {}], makes
    [format] raise [IndexError], which the [except KeyError] of line
    512 does not catch: the flow raises instead of reporting.  In both
    runs nothing is sent. *)
Theorem invalid_placeholder_handling :
  send_texts_flow [alice] ["Hi {nickname}"; "s"] ready
  = mkRun [Banner; Input PTemplate "Hi {nickname}"; Legend;
           InvalidPlaceholder "nickname"] (Ok tt) ["s"] ready
  /\ send_texts_flow [alice] ["Hi {}"; "s"] ready
     = mkRun [Banner; Input PTemplate "Hi {}"; Legend] (Raise IndexError) ["s"] ready.
Proof. split; reflexivity. Qed.

(** *** The model of the interpreter on small inputs *)

Example strip_lower_examples :
  choice_of "  S " = "s"
  /\ strip (String newline " a b ") = "a b"
  /\ split_ws "  Alice   B. Smith " = ["Alice"; "B."; "Smith"]
  /\ split_on "|" "a||b" = ["a"; ""; "b"]
  /\ split_on newline "" = [""].
Proof. repeat split. Qed.

Example int_examples :
  int " +1_0 " = Some 10%Z /\ int "1__0" = None /\ int "" = None
  /\ int "-12" = Some (-12)%Z /\ int "1.0" = None.
Proof. repeat split. Qed.

Example format_examples :
  map (fun t => format t [("name", "N"); ("first_name", "F"); ("phone", "P")])
    ["Hi {name}, {first_name} {phone}!"; "{{name}}"; "{name}}}"; "{";
     "}"; "{nick}"; "{ name}"; "{}"; "{0}"; "{nick.x}";
     "{9223372036854775808}"; "{na{me}"; "{nick} {"]
  = [Ok "Hi N, F P!"; Ok "{name}"; Ok "N}"; Raise ValueError;
     Raise ValueError; Raise (KeyError "nick"); Raise (KeyError " name");
     Raise IndexError; Raise IndexError; Raise (KeyError "nick");
     Raise ValueError; Raise ValueError; Raise (KeyError "nick")].
Proof. reflexivity. Qed.

Example parse_contacts_example :
  parse_contacts
    ("Alice Smith|+1 555 0100" +:+ String newline "no phone here"
     +:+ String newline " | 77 |x" +:+ String newline "")
  = Ok [ {| name := "Alice Smith"; first_name := Some "Alice";
            phone := "+1 555 0100" |};
         {| name := ""; first_name := Some ""; phone := "77" |} ].
Proof. reflexivity. Qed.

Example draft_message_examples :
  draft_message default_template bob
    = Ok "Hey Bob! Party at my place Friday at 8, you in?"
  /\ draft_message "Hi" {| name := " "; first_name := None; phone := "1" |}
     = Raise IndexError
  /\ draft_message "Hi {name}" {| name := ""; first_name := Some "Al"; phone := "1" |}
     = Ok "Hi ".
Proof. repeat split. Qed.

End Evaluations.

(** * Further properties *)

(** ** Messaging adapter: the escaping of line 454 *)

Section Escaping.

Lemma replace_char_app (old : ascii) (new a b : string) :
  replace_char old new (a +:+ b) = replace_char old new a +:+ replace_char old new b.
Proof.
  induction a as [|c a IH]; [reflexivity |].
  change (replace_char old new (String c (a +:+ b))
          = replace_char old new (String c a) +:+ replace_char old new b).
  simpl. rewrite IH. destruct (Ascii.eqb c old); [| reflexivity].
  now rewrite app_assoc_str.
Qed.

(** Character by character: a backslash is doubled, a quote gets a
    backslash, the rest is kept. *)
Lemma escape_applescript_cons (c : ascii) (r : string) :
  escape_applescript (String c r)
  = (if Ascii.eqb c backslash then String backslash (String backslash "")
     else if Ascii.eqb c dquote then String backslash (String dquote "")
     else String c "") +:+ escape_applescript r.
Proof.
  unfold escape_applescript. simpl replace_char at 2.
  destruct (Ascii.eqb_spec c backslash) as [-> | Hb].
  - now rewrite replace_char_app.
  - simpl. now destruct (Ascii.eqb c dquote).
Qed.

(** X1.  The text [send_imessage] puts between the quotes of the
    script reads back, as an AppleScript string literal, as the text it
    was given: no quote of a message or phone number can end the
    literal. *)
Theorem escape_applescript_reads_back (s : string) :
  unescape_applescript (escape_applescript s) = Some s.
Proof.
  induction s as [|c s IH]; [reflexivity |].
  rewrite escape_applescript_cons.
  destruct (Ascii.eqb_spec c backslash) as [-> | Hb].
  - change (unescape_applescript
              (String backslash (String backslash (escape_applescript s)))
            = Some (String backslash s)).
    simpl. now rewrite IH.
  - destruct (Ascii.eqb_spec c dquote) as [-> | Hq].
    + change (unescape_applescript
                (String backslash (String dquote (escape_applescript s)))
              = Some (String dquote s)).
      simpl. now rewrite IH.
    + change (unescape_applescript (String c (escape_applescript s))
              = Some (String c s)).
      simpl. apply Ascii.eqb_neq in Hb, Hq. now rewrite Hb, Hq, IH.
Qed.

End Escaping.

(** ** Message composer: doubled braces, odd names, bad fields *)

Section ComposerEdges.

Context `{Env}.

Lemma prepend_prepend_text (a b : string) (r : outcome string) :
  prepend a (prepend b r) = prepend (a +:+ b) r.
Proof. destruct r; simpl; [now rewrite app_assoc_str | reflexivity]. Qed.

Lemma prepend_empty_text (r : outcome string) : prepend "" r = r.
Proof. now destruct r. Qed.

Lemma format_open_brace (kw : list (string * string)) (post : string) :
  format_scan kw Literal ("{{" +:+ post) = prepend "{" (format_scan kw Literal post).
Proof. reflexivity. Qed.

Lemma format_close_brace (kw : list (string * string)) (post : string) :
  format_scan kw Literal ("}}" +:+ post) = prepend "}" (format_scan kw Literal post).
Proof. reflexivity. Qed.

(** [format] goes through a well-braced beginning of the template and
    carries on with what follows it. *)
Lemma format_through (fn ph : string) (n : nat) :
  forall p t, String.length p <= n ->
  well_braced_from 0 p = true ->
  format_scan [("name", fn); ("first_name", fn); ("phone", ph)] Literal (p +:+ t)
  = prepend (render_from 0 fn ph p)
      (format_scan [("name", fn); ("first_name", fn); ("phone", ph)] Literal t).
Proof.
  induction n as [|n IH]; intros p t Hlen Hb.
  - destruct p; [| simpl in Hlen; lia]. symmetry. apply prepend_empty_text.
  - destruct p as [|c r]; [symmetry; apply prepend_empty_text |].
    change (well_braced_from 0 (String c r))
      with (if startswith "{{" (String c r) then well_braced_from 1 r
            else if startswith "}}" (String c r) then well_braced_from 1 r
            else if startswith "{name}" (String c r) then well_braced_from 5 r
            else if startswith "{first_name}" (String c r) then well_braced_from 11 r
            else if startswith "{phone}" (String c r) then well_braced_from 6 r
            else negb (is_brace c) && well_braced_from 0 r) in Hb.
    change (render_from 0 fn ph (String c r))
      with (if startswith "{{" (String c r) then String "{" (render_from 1 fn ph r)
            else if startswith "}}" (String c r) then String "}" (render_from 1 fn ph r)
            else if startswith "{name}" (String c r) then fn +:+ render_from 5 fn ph r
            else if startswith "{first_name}" (String c r)
                 then fn +:+ render_from 11 fn ph r
            else if startswith "{phone}" (String c r) then ph +:+ render_from 6 fn ph r
            else String c (render_from 0 fn ph r)).
    destruct (startswith "{{" (String c r)) eqn:E1;
      [| destruct (startswith "}}" (String c r)) eqn:E2;
         [| destruct (startswith "{name}" (String c r)) eqn:E3;
            [| destruct (startswith "{first_name}" (String c r)) eqn:E4;
               [| destruct (startswith "{phone}" (String c r)) eqn:E5]]]].
    + apply startswith_iff in E1 as [post E].
      change ("{{" +:+ post) with (String "{" ("{" +:+ post)) in E.
      injection E as -> ->.
      change (String "{" ("{" +:+ post) +:+ t) with ("{{" +:+ (post +:+ t)).
      rewrite format_open_brace.
      change (render_from 1 fn ph ("{" +:+ post)) with (render_from 0 fn ph post).
      rewrite IH, prepend_prepend_text; [reflexivity | | exact Hb].
      change (String.length (String "{" ("{" +:+ post)))
        with (2 + String.length post) in Hlen. lia.
    + apply startswith_iff in E2 as [post E].
      change ("}}" +:+ post) with (String "}" ("}" +:+ post)) in E.
      injection E as -> ->.
      change (String "}" ("}" +:+ post) +:+ t) with ("}}" +:+ (post +:+ t)).
      rewrite format_close_brace.
      change (render_from 1 fn ph ("}" +:+ post)) with (render_from 0 fn ph post).
      rewrite IH, prepend_prepend_text; [reflexivity | | exact Hb].
      change (String.length (String "}" ("}" +:+ post)))
        with (2 + String.length post) in Hlen. lia.
    + apply startswith_iff in E3 as [post E].
      change ("{name}" +:+ post) with (String "{" ("name}" +:+ post)) in E.
      injection E as -> ->.
      change (String "{" ("name}" +:+ post) +:+ t) with ("{name}" +:+ (post +:+ t)).
      rewrite format_name.
      change (render_from 5 fn ph ("name}" +:+ post)) with (render_from 0 fn ph post).
      rewrite IH, prepend_prepend_text; [reflexivity | | exact Hb].
      change (String.length (String "{" ("name}" +:+ post)))
        with (6 + String.length post) in Hlen. lia.
    + apply startswith_iff in E4 as [post E].
      change ("{first_name}" +:+ post) with (String "{" ("first_name}" +:+ post)) in E.
      injection E as -> ->.
      change (String "{" ("first_name}" +:+ post) +:+ t)
        with ("{first_name}" +:+ (post +:+ t)).
      rewrite format_first_name.
      change (render_from 11 fn ph ("first_name}" +:+ post))
        with (render_from 0 fn ph post).
      rewrite IH, prepend_prepend_text; [reflexivity | | exact Hb].
      change (String.length (String "{" ("first_name}" +:+ post)))
        with (12 + String.length post) in Hlen. lia.
    + apply startswith_iff in E5 as [post E].
      change ("{phone}" +:+ post) with (String "{" ("phone}" +:+ post)) in E.
      injection E as -> ->.
      change (String "{" ("phone}" +:+ post) +:+ t) with ("{phone}" +:+ (post +:+ t)).
      rewrite format_phone.
      change (render_from 6 fn ph ("phone}" +:+ post)) with (render_from 0 fn ph post).
      rewrite IH, prepend_prepend_text; [reflexivity | | exact Hb].
      change (String.length (String "{" ("phone}" +:+ post)))
        with (7 + String.length post) in Hlen. lia.
    + apply andb_prop in Hb as [Hc Hb]. apply negb_true_iff in Hc.
      change (String c r +:+ t) with (String c (r +:+ t)).
      rewrite (format_literal_char _ _ _ Hc), IH, prepend_prepend_text;
        [reflexivity | | exact Hb].
      simpl in Hlen. lia.
Qed.

(** The name [draft_message] computes before it formats. *)
Lemma greeting_chosen (c : contact) :
  greetable c ->
  (if negb (is_empty (name c)) then
     match first_name c with
     | Some f => if negb (is_empty f) then Ok f else index (split_ws (name c)) 0
     | None => index (split_ws (name c)) 0
     end
   else Ok "")
  = Ok (if is_empty (name c) then "" else chosen_first_name c).
Proof.
  intros [Hn | Hg].
  - now rewrite Hn.
  - destruct (name c) as [|a r] eqn:Hname.
    + reflexivity.
    + rewrite <- Hname in *. rewrite (first_name_chosen c); [| congruence | exact Hg].
      now rewrite Hname.
Qed.

(** X2.  For every template whose braces are doubled braces or belong
    to the three placeholders, and every contact with a non-empty name
    from which a first name can be taken, [draft_message] returns the
    template with the placeholders replaced and each doubled brace
    turned into a single one. *)
Theorem draft_message_renders (template : string) (c : contact) :
  well_braced_from 0 template = true ->
  name c <> "" ->
  (exists f, first_name c = Some f /\ f <> "") \/ lstrip (name c) <> "" ->
  draft_message template c
  = Ok (render_from 0 (chosen_first_name c) (phone c) template).
Proof.
  intros Hb Hn Hc. unfold draft_message.
  rewrite (first_name_chosen c Hn Hc). simpl bind. unfold format.
  rewrite <- (app_empty_r template) at 1.
  rewrite (format_through _ _ (String.length template)); [| lia | exact Hb].
  simpl. now rewrite app_empty_r.
Qed.

(** X3.  When the name of the contact is the empty string, the
    placeholders [{name}] and [{first_name}] are replaced by nothing,
    whatever the ['first_name'] field holds. *)
Theorem draft_message_empty_name (template : string) (c : contact) :
  well_braced_from 0 template = true ->
  name c = "" ->
  draft_message template c = Ok (render_from 0 "" (phone c) template).
Proof.
  intros Hb Hn. unfold draft_message. rewrite Hn. simpl bind. unfold format.
  rewrite <- (app_empty_r template) at 1.
  rewrite (format_through _ _ (String.length template)); [| lia | exact Hb].
  simpl. now rewrite app_empty_r.
Qed.

Lemma lstrip_spaces (s : string) : all_chars is_space s = true -> lstrip s = "".
Proof.
  induction s as [|a s IH]; [reflexivity |]. simpl.
  intros Hs. apply andb_prop in Hs as [Ha Hs]. rewrite Ha. now apply IH.
Qed.

(** X4.  A contact whose name is made of whitespace only, with no
    first name to fall back on, cannot be drafted: [draft_message]
    raises [IndexError] whatever the template. *)
Theorem draft_message_blank_name (template : string) (c : contact) :
  name c <> "" ->
  all_chars is_space (name c) = true ->
  first_name c = None \/ first_name c = Some "" ->
  draft_message template c = Raise IndexError.
Proof.
  intros Hn Hs Hf. unfold draft_message.
  assert (Hidx : index (split_ws (name c)) 0 = Raise IndexError).
  { unfold index. rewrite split_ws_first, (lstrip_spaces _ Hs). reflexivity. }
  destruct (is_empty (name c)) eqn:He; [apply is_empty_true in He; congruence |].
  simpl negb. cbv iota. rewrite Hidx.
  now destruct Hf as [-> | ->].
Qed.

End ComposerEdges.

Section BadFields.

Context `{Env}.

Lemma snoc_app (acc : string) (c : ascii) (s : string) :
  snoc acc c +:+ s = acc +:+ String c s.
Proof. unfold snoc. now rewrite app_assoc_str. Qed.

Lemma punctuation_cases (c : ascii) :
  is_field_punctuation c = false ->
  Ascii.eqb c "{" = false /\ Ascii.eqb c "}" = false /\ Ascii.eqb c "[" = false
  /\ Ascii.eqb c "." = false /\ Ascii.eqb c "!" = false /\ Ascii.eqb c ":" = false.
Proof.
  unfold is_field_punctuation, is_brace, is_accessor.
  destruct (Ascii.eqb c "{"), (Ascii.eqb c "}"), (Ascii.eqb c "["),
    (Ascii.eqb c "."), (Ascii.eqb c "!"), (Ascii.eqb c ":"); simpl; intros; tauto.
Qed.

(** Reading a field name without punctuation up to its closing brace. *)
Lemma format_field_name (kw : list (string * string)) (start : string) :
  forall key acc suffix,
  all_chars (fun c => negb (is_field_punctuation c)) key = true ->
  format_scan kw (FieldName start acc) (key +:+ String "}" suffix)
  = match get_field (acc +:+ key) kw with
    | FieldError e => Raise e
    | Plain value => prepend value (format_scan kw Literal suffix)
    | Accessed => format_beyond start kw
    end.
Proof.
  induction key as [|c key IH]; intros acc suffix Hk.
  - rewrite app_empty_r. reflexivity.
  - simpl in Hk. apply andb_prop in Hk as [Hc Hk]. apply negb_true_iff in Hc.
    destruct (punctuation_cases c Hc) as (H1 & H2 & H3 & H4 & H5 & H6).
    change (String c key +:+ String "}" suffix)
      with (String c (key +:+ String "}" suffix)).
    simpl format_scan. rewrite H1, H2, H3, H5, H6. simpl.
    rewrite IH by exact Hk. now rewrite snoc_app.
Qed.

Lemma format_enter_field (kw : list (string * string)) (c : ascii) (r : string) :
  Ascii.eqb c "{" = false ->
  format_scan kw Literal (String "{" (String c r))
  = format_scan kw (FieldName (String "{" (String c r)) "") (String c r).
Proof. intros Hc. simpl. now rewrite Hc. Qed.

(** A replacement field with such a name, met in literal mode. *)
Lemma format_field (kw : list (string * string)) (key suffix : string) :
  all_chars (fun c => negb (is_field_punctuation c)) key = true ->
  format_scan kw Literal ("{" +:+ key +:+ String "}" suffix)
  = match get_field key kw with
    | FieldError e => Raise e
    | Plain value => prepend value (format_scan kw Literal suffix)
    | Accessed => format_beyond ("{" +:+ key +:+ String "}" suffix) kw
    end.
Proof.
  intros Hk. destruct key as [|c key].
  - reflexivity.
  - pose proof Hk as Hk'. simpl in Hk'. apply andb_prop in Hk' as [Hc _].
    apply negb_true_iff in Hc.
    destruct (punctuation_cases c Hc) as (H1 & _).
    change ("{" +:+ String c key +:+ String "}" suffix)
      with (String "{" (String c (key +:+ String "}" suffix))).
    rewrite (format_enter_field kw c _ H1).
    change (String c (key +:+ String "}" suffix))
      with (String c key +:+ String "}" suffix).
    now rewrite (format_field_name kw _ (String c key) "" suffix Hk).
Qed.

Lemma field_first_plain (key : string) :
  all_chars (fun c => negb (is_field_punctuation c)) key = true ->
  field_first key = key.
Proof.
  induction key as [|c key IH]; [reflexivity |]. simpl.
  intros Hk. apply andb_prop in Hk as [Hc Hk]. apply negb_true_iff in Hc.
  destruct (punctuation_cases c Hc) as (_ & _ & H3 & H4 & _).
  unfold is_accessor. rewrite H3, H4. simpl. now rewrite IH.
Qed.

Lemma get_field_unknown (key fn ph : string) :
  plain_key key = true -> provided key = false ->
  get_field key [("name", fn); ("first_name", fn); ("phone", ph)]
  = FieldError (KeyError key).
Proof.
  unfold plain_key, provided. rewrite !andb_true_iff, !orb_false_iff.
  intros [[He Hk] Hi] [[H1 H2] H3]. apply negb_true_iff in He.
  unfold get_field. rewrite (field_first_plain key Hk).
  destruct (get_integer key); try discriminate. rewrite He. cbn [assoc].
  rewrite (String.eqb_sym "name"), (String.eqb_sym "first_name"),
    (String.eqb_sym "phone"), H1, H2, H3. reflexivity.
Qed.

Lemma get_field_positional (key : string) (kw : list (string * string)) :
  all_chars (fun c => negb (is_field_punctuation c)) key = true ->
  positional_key key = true ->
  get_field key kw = FieldError IndexError.
Proof.
  unfold positional_key. intros Hk Hp. unfold get_field.
  rewrite (field_first_plain key Hk).
  destruct (get_integer key) eqn:Hg; try reflexivity.
  - destruct (is_empty key); [reflexivity | discriminate].
  - unfold get_integer in Hg. destruct (is_empty key); discriminate.
Qed.

Lemma template_not_one (before rest : string) :
  String.eqb (before +:+ "{" +:+ rest) "1" = false
  /\ is_empty (before +:+ "{" +:+ rest) = false.
Proof.
  destruct before as [|c [|d before]]; try (split; reflexivity).
  - split; [| reflexivity].
    destruct (String.eqb_spec (String c "" +:+ "{" +:+ rest) "1");
      [discriminate | reflexivity].
  - split; [| reflexivity].
    destruct (String.eqb_spec (String c (String d before) +:+ "{" +:+ rest) "1");
      [discriminate | reflexivity].
Qed.

(** What [draft_message] does with a template whose first field, after
    a well-braced beginning, has a name without punctuation. *)
Lemma draft_message_at_field (c : contact) (before key after : string) :
  well_braced_from 0 before = true ->
  all_chars (fun c => negb (is_field_punctuation c)) key = true ->
  greetable c ->
  forall e,
  get_field key [("name", if is_empty (name c) then "" else chosen_first_name c);
                 ("first_name", if is_empty (name c) then "" else chosen_first_name c);
                 ("phone", phone c)] = FieldError e ->
  draft_message (before +:+ "{" +:+ key +:+ String "}" after) c = Raise e.
Proof.
  intros Hb Hk Hg e Hf. unfold draft_message.
  rewrite (greeting_chosen c Hg). simpl bind. unfold format.
  rewrite (format_through _ _ (String.length before)); [| lia | exact Hb].
  rewrite (format_field _ key after Hk), Hf. reflexivity.
Qed.

(** X5.  When the first replacement field of the template, after text
    that formats well, is a plain word other than [name], [first_name]
    and [phone], what the flow does depends on the first contact.  For
    a first contact from which [draft_message] can take a name (the
    name is empty, or the first name is there and not empty, or the
    name has a character that is not whitespace), the flow reports the
    word as an invalid placeholder and returns: it reads no further
    line and calls the adapter for nobody.  For every other first
    contact (a name of whitespace only, and no first name), the flow
    raises [IndexError] after the legend and reports nothing, the name
    being taken before the template is formatted. *)
Theorem unknown_field_reported (c : contact) (cs : list contact) (line : string)
  (rest : list string) (m : machine) (before key after : string) :
  strip line = before +:+ "{" +:+ key +:+ String "}" after ->
  well_braced_from 0 before = true ->
  plain_key key = true ->
  provided key = false ->
  (greetable c ->
   send_texts_flow (c :: cs) (line :: rest) m
   = mkRun [Banner; Input PTemplate line; Legend; InvalidPlaceholder key]
       (Ok tt) rest m)
  /\ (name c <> "" ->
      all_chars is_space (name c) = true ->
      first_name c = None \/ first_name c = Some "" ->
      send_texts_flow (c :: cs) (line :: rest) m
      = mkRun [Banner; Input PTemplate line; Legend] (Raise IndexError) rest m).
Proof.
  intros Ht Hb Hp Hn.
  destruct (template_not_one before (key +:+ String "}" after)) as [H1 He].
  split.
  - intros Hg. apply unknown_name_reported.
    + rewrite Ht. exact H1.
    + rewrite Ht. exact He.
    + rewrite Ht. apply draft_message_at_field; try assumption.
      * unfold plain_key in Hp. rewrite !andb_true_iff in Hp. tauto.
      * now apply get_field_unknown.
  - intros Hname Hs Hf.
    assert (Hd : draft_message (strip line) c = Raise IndexError).
    { unfold draft_message.
      assert (Hidx : index (split_ws (name c)) 0 = Raise IndexError).
      { unfold index. rewrite split_ws_first, (lstrip_spaces _ Hs). reflexivity. }
      destruct (is_empty (name c)) eqn:Hempty;
        [apply is_empty_true in Hempty; congruence |].
      simpl negb. cbv iota. rewrite Hidx.
      now destruct Hf as [-> | ->]. }
    unfold send_texts_flow. rewrite Ht in *. rewrite H1, He.
    simpl contact_loop. rewrite Hd. reflexivity.
Qed.

(** X6.  When the first replacement field of the template, after
    text that formats well, is positional (empty, or a decimal number),
    [format] raises [IndexError], which the handler of the flow does not
    catch: the flow raises it after the legend, having called the
    adapter for nobody. *)
Theorem positional_field_raises (c : contact) (cs : list contact) (line : string)
  (rest : list string) (m : machine) (before key after : string) :
  strip line = before +:+ "{" +:+ key +:+ String "}" after ->
  well_braced_from 0 before = true ->
  all_chars (fun c => negb (is_field_punctuation c)) key = true ->
  positional_key key = true ->
  greetable c ->
  send_texts_flow (c :: cs) (line :: rest) m
  = mkRun [Banner; Input PTemplate line; Legend] (Raise IndexError) rest m.
Proof.
  intros Ht Hb Hk Hp Hg.
  destruct (template_not_one before (key +:+ String "}" after)) as [H1 He].
  assert (Hd : draft_message (strip line) c = Raise IndexError).
  { rewrite Ht. apply draft_message_at_field; try assumption.
    now apply get_field_positional. }
  unfold send_texts_flow. rewrite Ht in *. rewrite H1, He.
  simpl contact_loop. rewrite Hd. reflexivity.
Qed.

End BadFields.

(** ** Send-texts flow: the numbers of the summary *)

Section Accounting.

Context `{Env}.

Lemma count_app (p : event -> bool) (a b : list event) :
  count p (a ++ b) = count p a + count p b.
Proof. unfold count. now rewrite List.filter_app, length_app. Qed.

Lemma confirming_not_n (line : string) :
  confirming line = true -> String.eqb (choice_of line) "n" = false.
Proof.
  unfold confirming. intros Hc.
  destruct (String.eqb_spec (choice_of line) "n") as [Hn |]; [| reflexivity].
  rewrite Hn in Hc. discriminate.
Qed.

(** What one turn adds to the counts, by the way it ends. *)
Lemma prompt_loop_counts (i total : nat) (c : contact) (n : nat) :
  forall (lines : list string) (message : string) (sent skipped : nat) (m : machine)
    (evs : list event) (x : loop_exit),
  length lines <= n ->
  prompt_loop i total c message sent skipped lines m = (evs, x) ->
  match x with
  | NextContact sent' skipped' _ _ =>
      sent' = sent + count is_success evs
      /\ skipped' = skipped + count is_skip evs
      /\ count is_success evs + count is_skip evs + count is_failure evs = 1
      /\ List.filter is_summary evs = []
  | Quit _ _ =>
      count is_success evs = 0 /\ count is_skip evs = 0 /\ count is_failure evs = 0
      /\ List.filter is_summary evs = [QuitSummary sent (skipped + total - i)]
  | EndOfInput _ =>
      count is_success evs = 0 /\ count is_skip evs = 0 /\ count is_failure evs = 0
      /\ List.filter is_summary evs = []
  end.
Proof.
  induction n as [|n IH]; intros lines message sent skipped m evs x Hlen Hrun.
  - destruct lines; [| simpl in Hlen; lia]. injection Hrun as <- <-. now cbv.
  - destruct lines as [|line rest]; [injection Hrun as <- <-; now cbv |].
    simpl in Hlen. simpl prompt_loop in Hrun.
    destruct (choice_cases line) as
      [[E1 Hconf] | [(E1 & E2 & Hedit) | [(E1 & E2 & E3 & Hskip) |
       [(E1 & E2 & E3 & E4) | (E1 & E2 & E3 & E4 & Hign)]]]];
      simpl in E1; rewrite E1 in Hrun; try rewrite E2 in Hrun;
      try rewrite E3 in Hrun; try rewrite E4 in Hrun.
    + destruct (send_imessage (phone c) message m) as [[success error] m'].
      injection Hrun as <- <-. unfold count.
      cbn [List.filter is_success is_failure is_summary is_skip app].
      rewrite (confirming_not_n line Hconf).
      destruct success; simpl; repeat split; lia.
    + assert (Hne : String.eqb (choice_of line) "n" = false) by now rewrite Hedit.
      destruct rest as [|line2 rest2].
      { injection Hrun as <- <-. unfold count.
        cbn [List.filter is_success is_failure is_summary is_skip app].
        now rewrite Hne. }
      destruct (prompt_loop i total c _ sent skipped rest2 m) as [evs' x'] eqn:Hrec.
      injection Hrun as <- <-. simpl in Hlen.
      apply IH in Hrec; [| lia]. unfold count in *.
      cbn [List.filter is_success is_failure is_summary is_skip app].
      rewrite Hne. exact Hrec.
    + injection Hrun as <- <-. unfold count.
      cbn [List.filter is_success is_failure is_summary is_skip app].
      rewrite Hskip. simpl. repeat split; lia.
    + change (lower (strip line)) with (choice_of line) in E3.
      injection Hrun as <- <-. unfold count.
      cbn [List.filter is_success is_failure is_summary is_skip app].
      rewrite E3. now cbv.
    + change (lower (strip line)) with (choice_of line) in E3.
      destruct (prompt_loop i total c message sent skipped rest m) as [evs' x'] eqn:Hrec.
      injection Hrun as <- <-. apply IH in Hrec; [| lia]. unfold count in *.
      cbn [List.filter is_success is_failure is_summary is_skip app].
      rewrite E3. exact Hrec.
Qed.

(** The summary the loop prints, if it prints one, and its numbers. *)
Lemma contact_loop_counts (template : string) (total : nat) :
  forall (cs : list contact) (i sent skipped : nat) (lines : list string) (m : machine),
  total + 1 = i + length cs ->
  let tr := events (contact_loop template total i cs sent skipped lines m) in
  match List.filter is_summary tr with
  | [] => True
  | [Done s k] =>
      s = sent + count is_success tr /\ k = skipped + count is_skip tr
      /\ count is_success tr + count is_skip tr + count is_failure tr = length cs
  | [QuitSummary s k] =>
      s = sent + count is_success tr
      /\ k + count is_success tr + count is_failure tr + 1 = skipped + length cs
  | _ => False
  end.
Proof.
  induction cs as [|c cs IH]; intros i sent skipped lines m Htotal.
  - simpl. cbv [count]. simpl. lia.
  - cbv zeta. simpl contact_loop.
    destruct (draft_message template c) as [message | e].
    + destruct (prompt_loop i total c message sent skipped lines m) as [evs x] eqn:Hp.
      pose proof (prompt_loop_counts i total c (length lines) lines message sent
                    skipped m evs x (le_n _) Hp) as Hc.
      destruct x as [sent' skipped' lines' m' | lines' m' | m'].
      * destruct Hc as (Hs & Hk & Hone & Hsum).
        rewrite events_emit, List.filter_app, Hsum, app_nil_l.
        simpl in Htotal.
        specialize (IH (S i) sent' skipped' lines' m' ltac:(lia)).
        cbv zeta in IH.
        destruct (List.filter is_summary
                    (events (contact_loop template total (S i) cs sent' skipped'
                               lines' m'))) as [|[] [|]]; try exact IH.
        -- rewrite !count_app. simpl length. lia.
        -- rewrite !count_app. simpl length. lia.
      * destruct Hc as (Hs & Hk & Hf & Hsum). cbv zeta. simpl events. rewrite Hsum.
        simpl in Htotal. simpl length. lia.
      * destruct Hc as (Hs & Hk & Hf & Hsum). cbv zeta. simpl events. now rewrite Hsum.
    + destruct e; exact I.
Qed.

Lemma send_texts_flow_counts (contacts : list contact) (lines : list string)
  (m : machine) :
  let tr := events (send_texts_flow contacts lines m) in
  match List.filter is_summary tr with
  | [] => True
  | [Done s k] =>
      s = count is_success tr /\ k = count is_skip tr
      /\ s + k + count is_failure tr = length contacts
  | [QuitSummary s k] =>
      s = count is_success tr
      /\ s + k + count is_failure tr + 1 = length contacts
  | _ => False
  end.
Proof.
  cbv zeta.
  destruct (send_texts_flow_shape contacts lines m) as (pre & tail & -> & Hpre & Htail).
  assert (H0 : List.filter is_summary pre = [] /\ count is_success pre = 0
               /\ count is_skip pre = 0 /\ count is_failure pre = 0).
  { clear Htail. unfold count.
    induction Hpre as [|e pre He _ (IH1 & IH2 & IH3 & IH4)]; [now cbv |].
    destruct e; try destruct p; try contradiction;
      cbn [List.filter is_success is_failure is_summary is_skip]; auto. }
  destruct H0 as (H0 & H1 & H2 & H3).
  rewrite List.filter_app, H0, app_nil_l, !count_app, H1, H2, H3.
  destruct Htail as [-> | (template & rest & ->)]; [exact I |].
  pose proof (contact_loop_counts template (length contacts) contacts 1 0 0 rest m
                ltac:(lia)) as Hc.
  cbv zeta in Hc.
  destruct (List.filter is_summary
              (events (contact_loop template (length contacts) 1 contacts
                         0 0 rest m))) as [|[] [|]]; try exact Hc; simpl in *; lia.
Qed.

Lemma summary_in_filter (tr : list event) (e : event) :
  e ∈ tr -> is_summary e = true -> e ∈ List.filter is_summary tr.
Proof.
  rewrite !list_elem_of_In, filter_In. tauto.
Qed.

(** X7.  When the flow ends with its [Done] line, the numbers it
    prints are right: sent is the number of successful sends, skipped
    the number of contacts answered with [n], and together with the
    failed sends they account for every contact of the list. *)
Theorem done_summary_accounts (contacts : list contact) (lines : list string)
  (m : machine) (s k : nat) :
  Done s k ∈ events (send_texts_flow contacts lines m) ->
  s = count is_success (events (send_texts_flow contacts lines m))
  /\ k = count is_skip (events (send_texts_flow contacts lines m))
  /\ s + k + count is_failure (events (send_texts_flow contacts lines m))
     = length contacts.
Proof.
  intros Hin. apply summary_in_filter in Hin; [| reflexivity].
  pose proof (send_texts_flow_counts contacts lines m) as Hc. cbv zeta in Hc.
  destruct (List.filter is_summary (events (send_texts_flow contacts lines m)))
    as [|e [|e' l]].
  - now apply elem_of_nil in Hin.
  - apply list_elem_of_singleton in Hin as <-. exact Hc.
  - destruct e; contradiction.
Qed.

(** X8.  When the user quits with [q], the sent number is right but
    the printed numbers leave out one contact: sent, skipped and failed
    sends add up to the length of the list minus one, the contact at
    whose prompt [q] was typed being counted nowhere. *)
Theorem quit_summary_accounts (contacts : list contact) (lines : list string)
  (m : machine) (s k : nat) :
  QuitSummary s k ∈ events (send_texts_flow contacts lines m) ->
  s = count is_success (events (send_texts_flow contacts lines m))
  /\ s + k + count is_failure (events (send_texts_flow contacts lines m)) + 1
     = length contacts.
Proof.
  intros Hin. apply summary_in_filter in Hin; [| reflexivity].
  pose proof (send_texts_flow_counts contacts lines m) as Hc. cbv zeta in Hc.
  destruct (List.filter is_summary (events (send_texts_flow contacts lines m)))
    as [|e [|e' l]].
  - now apply elem_of_nil in Hin.
  - apply list_elem_of_singleton in Hin as <-. exact Hc.
  - destruct e; contradiction.
Qed.

End Accounting.

(** ** Interactive contact search: where contacts come from, repeated selections *)

Section SearchMore.

Context `{Env}.

Lemma pick_subset (matches : list contact) (indices : list Z) (c : contact) :
  c ∈ pick matches indices -> c ∈ matches.
Proof.
  induction indices as [|i indices IH]; simpl.
  - intros Hc. now apply elem_of_nil in Hc.
  - destruct ((0 <=? i)%Z && (i <? Z.of_nat (length matches))%Z); [| exact IH].
    destruct (nth_error matches (Z.to_nat i)) as [c'|] eqn:Hn; [| exact IH].
    intros Hc. apply elem_of_cons in Hc as [-> | Hc]; [| now apply IH].
    apply list_elem_of_In. eapply nth_error_In, Hn.
Qed.

(** The loop of lines 216-221: what it appends, prints and counts. *)
Lemma add_selected_appends (to_add selected : list contact) (n : nat) :
  exists added,
    add_selected to_add selected n
    = (map Added added, selected ++ added, n + length added)
    /\ (forall c, c ∈ added -> c ∈ to_add)
    /\ (forall c, c ∈ to_add -> phone c ∈ map phone (selected ++ added)).
Proof.
  revert selected n. induction to_add as [|c to_add IH]; intros selected n.
  - exists []. simpl. rewrite app_nil_r, Nat.add_0_r. split; [reflexivity |].
    split; intros c Hc; now apply elem_of_nil in Hc.
  - simpl. destruct (already_added c selected) eqn:Hc; simpl.
    + destruct (IH selected n) as (added & -> & Hsub & Hin).
      exists added. split; [reflexivity |]. split.
      * intros c' Hc'. apply elem_of_cons. right. now apply Hsub.
      * intros c' Hc'. apply elem_of_cons in Hc' as [-> | Hc']; [| now apply Hin].
        apply already_added_iff in Hc. rewrite map_app. apply elem_of_app. now left.
    + destruct (IH (selected ++ [c]) (S n)) as (added & -> & Hsub & Hin).
      exists (c :: added). split; [| split].
      * simpl. rewrite <- app_assoc. simpl. f_equal. lia.
      * intros c' Hc'. apply elem_of_cons in Hc' as [-> | Hc'].
        -- apply elem_of_cons. now left.
        -- apply elem_of_cons. right. now apply Hsub.
      * intros c' Hc'. change (selected ++ c :: added) with (selected ++ [c] ++ added).
        rewrite app_assoc.
        apply elem_of_cons in Hc' as [-> | Hc']; [| now apply Hin].
        rewrite !map_app. apply elem_of_app. left. apply elem_of_app. right.
        simpl. apply elem_of_cons. now left.
Qed.

(** Contacts that are all in the list already: nothing is appended. *)
Lemma add_selected_nothing (to_add selected : list contact) (n : nat) :
  (forall c, c ∈ to_add -> phone c ∈ map phone selected) ->
  add_selected to_add selected n = ([], selected, n).
Proof.
  induction to_add as [|c to_add IH]; intros Hall; [reflexivity |].
  simpl. assert (Hc : already_added c selected = true).
  { apply already_added_iff, Hall, elem_of_cons. now left. }
  rewrite Hc. simpl. apply IH. intros c' Hc'. apply Hall, elem_of_cons. now right.
Qed.

(** X9.  The loop that adds the selected contacts appends exactly the
    contacts it announces, counts them, takes them from the selection,
    and leaves every selected contact with its phone in the list; run a
    second time on its own result with the same selection, it appends
    nothing. *)
Theorem add_selected_once (to_add selected : list contact) (n : nat) :
  exists added,
    add_selected to_add selected n
    = (map Added added, selected ++ added, n + length added)
    /\ (forall c, c ∈ added -> c ∈ to_add)
    /\ (forall k, add_selected to_add (selected ++ added) k
                  = ([], selected ++ added, k)).
Proof.
  destruct (add_selected_appends to_add selected n) as (added & Heq & Hsub & Hin).
  exists added. split; [exact Heq |]. split; [exact Hsub |].
  intros k. now apply add_selected_nothing.
Qed.

(** Without the word [sync], the search leaves the machine alone and
    only returns contacts it was given. *)
Lemma search_loop_no_sync (n : nat) :
  forall (lines : list string) (all_contacts selected_contacts : list contact)
    (m : machine),
  length lines <= n ->
  Forall (fun line => String.eqb (lower (strip line)) "sync" = false) lines ->
  final (search_loop all_contacts selected_contacts lines m) = m
  /\ forall fin, result (search_loop all_contacts selected_contacts lines m) = Ok fin ->
       forall c, c ∈ fin -> c ∈ selected_contacts \/ c ∈ all_contacts.
Proof.
  induction n as [|n IH]; intros lines all_contacts selected m Hlen Hns.
  - destruct lines; [| simpl in Hlen; lia]. split; [reflexivity | discriminate].
  - destruct lines as [|line rest]; [split; [reflexivity | discriminate] |].
    simpl in Hlen. apply Forall_cons in Hns as [Hline Hrest].
    assert (Hn : length rest <= n) by lia.
    simpl search_loop. rewrite Hline.
    destruct (String.eqb (lower (strip line)) "done").
    { split; [reflexivity |]. simpl. intros fin [= <-] c Hc. now left. }
    destruct (String.eqb (lower (strip line)) "list"); [now apply IH |].
    destruct (is_empty (strip line)); [now apply IH |].
    destruct (isdigit _); [now apply IH |].
    destruct (List.filter (matches_query (strip line)) all_contacts)
      as [|c0 shown] eqn:Hshown; [now apply IH |].
    destruct rest as [|line2 rest2]; [split; [reflexivity | discriminate] |].
    simpl in Hn. apply Forall_cons in Hrest as [_ Hrest2].
    assert (Hn2 : length rest2 <= n) by lia.
    simpl emit. destruct (is_empty (lower (strip line2))); [now apply IH |].
    destruct (if String.eqb (lower (strip line2)) "a" then _ else _)
      as [to_add|] eqn:Hsel; [| now apply IH].
    destruct (add_selected_appends to_add selected 0) as (added & Heq & Hsub & _).
    rewrite Heq. simpl.
    destruct (IH rest2 all_contacts (selected ++ added) m Hn2 Hrest2) as [Hm Hres].
    split; [exact Hm |].
    intros fin Hfin c Hc. destruct (Hres fin Hfin c Hc) as [Hc' | Hc']; [| now right].
    apply elem_of_app in Hc' as [Hc' | Hc']; [now left | right].
    apply Hsub in Hc'.
    assert (Hshown_sub : forall x, x ∈ c0 :: shown -> x ∈ all_contacts).
    { intros x Hx. rewrite <- Hshown in Hx.
      apply list_elem_of_In, filter_In in Hx. now apply list_elem_of_In. }
    destruct (String.eqb (lower (strip line2)) "a").
    + injection Hsel as <-. now apply Hshown_sub.
    + destruct (indices_of _) as [ids|]; [| discriminate].
      injection Hsel as <-. apply Hshown_sub. eapply pick_subset, Hc'.
Qed.

(** X10.  As long as the word [sync] is not typed, the search does
    not touch the files or the bridge, and every contact of the list it
    returns was in the list it was given or in the address book. *)
Theorem search_without_sync (all_contacts selected_contacts : list contact)
  (lines : list string) (m : machine) :
  Forall (fun line => String.eqb (lower (strip line)) "sync" = false) lines ->
  final (interactive_contact_search all_contacts selected_contacts lines m) = m
  /\ forall fin,
       result (interactive_contact_search all_contacts selected_contacts lines m)
       = Ok fin ->
       forall c, c ∈ fin -> c ∈ selected_contacts \/ c ∈ all_contacts.
Proof.
  intros Hns. unfold interactive_contact_search.
  exact (search_loop_no_sync (length lines) lines _ _ m (le_n _) Hns).
Qed.

(** X11.  Typing the same search and the same selection a second
    time changes nothing: the list returned is the one returned after
    the first time. *)
Theorem repeated_selection_adds_nothing (all_contacts selected_contacts : list contact)
  (query selection : string) (m : machine) :
  is_search_query (strip query) = true ->
  List.filter (matches_query (strip query)) all_contacts <> [] ->
  result (search_loop all_contacts selected_contacts
            [query; selection; query; selection; "done"] m)
  = result (search_loop all_contacts selected_contacts [query; selection; "done"] m).
Proof.
  intros Hq Hm. apply is_search_query_guards in Hq as (Hd & Hs & Hl & He & Hn).
  set (matches := List.filter (matches_query (strip query)) all_contacts) in *.
  set (chosen := if String.eqb (lower (strip selection)) "a" then Some matches
                 else option_map (pick matches)
                        (indices_of (split_on "," (lower (strip selection))))).
  (* one round of the loop: the query, then the selection *)
  assert (Hround : forall sel tail,
            result (search_loop all_contacts sel (query :: selection :: tail) m)
            = if is_empty (lower (strip selection))
              then result (search_loop all_contacts sel tail m)
              else match chosen with
                   | None => result (search_loop all_contacts sel tail m)
                   | Some to_add =>
                       result (search_loop all_contacts
                                 (add_selected to_add sel 0).1.2 tail m)
                   end).
  { intros sel tail. simpl search_loop. rewrite Hd, Hs, Hl, He, Hn.
    subst chosen. fold matches.
    destruct matches as [|c0 shown]; [congruence |].
    rewrite !result_emit.
    destruct (is_empty (lower (strip selection))); [reflexivity |].
    destruct (if String.eqb (lower (strip selection)) "a" then _ else _)
      as [to_add|]; [| now rewrite result_emit].
    destruct (add_selected to_add sel 0) as [[evs sel'] k]. now rewrite result_emit. }
  rewrite (Hround selected_contacts [query; selection; "done"]).
  rewrite (Hround selected_contacts ["done"]).
  destruct (is_empty (lower (strip selection))); [reflexivity |].
  destruct chosen as [to_add|]; [| reflexivity].
  destruct (add_selected_appends to_add selected_contacts 0)
    as (added & Heq & _ & Hin).
  rewrite Heq. cbn [fst snd]. rewrite Hround.
  now rewrite (add_selected_nothing to_add (selected_contacts ++ added) 0 Hin).
Qed.

End SearchMore.

(** ** Banner colours *)

Section Rainbow.

Lemma rainbow_loop_acc (text result : string) (color_idx : nat) :
  rainbow_loop text result color_idx = result +:+ rainbow_loop text "" color_idx.
Proof.
  revert result color_idx. induction text as [|c r IH]; intros result color_idx.
  - simpl. now rewrite app_empty_r.
  - simpl. destruct (negb (Ascii.eqb c " ")).
    + rewrite IH.
      rewrite (IH ("" +:+ (nth (color_idx mod length colors) colors "" +:+ String c ""))).
      change ("" +:+ ?x) with x. now rewrite app_assoc_str.
    + rewrite IH. rewrite (IH ("" +:+ String c "")).
      change ("" +:+ ?x) with x. now rewrite app_assoc_str.
Qed.

(** One step of the loop, without the accumulator. *)
Lemma rainbow_loop_cons (c : ascii) (r : string) (color_idx : nat) :
  rainbow_loop (String c r) "" color_idx
  = if negb (Ascii.eqb c " ")
    then nth (color_idx mod length colors) colors ""
         +:+ String c (rainbow_loop r "" (color_idx + 1))
    else String c (rainbow_loop r "" color_idx).
Proof.
  simpl. destruct (negb (Ascii.eqb c " ")); rewrite rainbow_loop_acc.
  - change ("" +:+ ?x) with x. now rewrite app_assoc_str.
  - reflexivity.
Qed.

Lemma color_cases (k : nat) :
  k < length colors ->
  exists d : ascii, nth k colors "" = String escape (String "[" (String "9" (String d "m")))
                    /\ Ascii.eqb d "m" = false.
Proof.
  intros Hk. do 5 (destruct k as [|k]; [eexists; split; reflexivity |]).
  simpl in Hk. lia.
Qed.

Lemma color_index (color_idx : nat) : color_idx mod length colors < length colors.
Proof. apply Nat.mod_upper_bound. discriminate. Qed.

Lemma visible_color (k : nat) (s : string) :
  k < length colors -> visible (nth k colors "" +:+ s) = visible s.
Proof.
  intros Hk. destruct (color_cases k Hk) as (d & -> & Hd).
  unfold visible.
  change (visible_from false
            (String escape (String "[" (String "9" (String d (String "m" s)))))
          = visible_from false s).
  cbn. now rewrite Hd.
Qed.

Lemma sequences_color (k : nat) (s : string) :
  k < length colors ->
  sequences_from None (nth k colors "" +:+ s) = nth k colors "" :: sequences_from None s.
Proof.
  intros Hk. destruct (color_cases k Hk) as (d & -> & Hd).
  change (sequences_from None
            (String escape (String "[" (String "9" (String d (String "m" s)))))
          = String escape (String "[" (String "9" (String d "m")))
            :: sequences_from None s).
  cbn. rewrite Hd. reflexivity.
Qed.

Lemma visible_loop (text : string) (color_idx : nat) :
  all_chars (fun c => negb (Ascii.eqb c escape)) text = true ->
  visible (rainbow_loop text "" color_idx +:+ reset) = text.
Proof.
  revert color_idx. induction text as [|c r IH]; intros color_idx Hesc.
  - reflexivity.
  - simpl in Hesc. apply andb_true_iff in Hesc as [Hc Hr].
    rewrite rainbow_loop_cons. destruct (negb (Ascii.eqb c " ")).
    + rewrite app_assoc_str, visible_color by apply color_index.
      unfold visible. change (String c ?x +:+ ?y) with (String c (x +:+ y)).
      cbn [visible_from]. apply negb_true_iff in Hc. rewrite Hc. f_equal.
      now apply IH.
    + unfold visible. change (String c ?x +:+ ?y) with (String c (x +:+ y)).
      cbn [visible_from]. apply negb_true_iff in Hc. rewrite Hc. f_equal.
      now apply IH.
Qed.

Lemma sequences_loop (text : string) (color_idx : nat) :
  all_chars (fun c => negb (Ascii.eqb c escape)) text = true ->
  sequences_from None (rainbow_loop text "" color_idx +:+ reset)
  = map (fun k => nth (k mod length colors) colors "") (seq color_idx (inked text))
    ++ [reset].
Proof.
  revert color_idx. induction text as [|c r IH]; intros color_idx Hesc.
  - reflexivity.
  - simpl in Hesc. apply andb_true_iff in Hesc as [Hc Hr].
    apply negb_true_iff in Hc.
    rewrite rainbow_loop_cons. cbn [inked]. destruct (negb (Ascii.eqb c " ")).
    + rewrite app_assoc_str, sequences_color by apply color_index.
      change (String c ?x +:+ ?y) with (String c (x +:+ y)).
      cbn [sequences_from seq map app]. rewrite Hc. f_equal.
      rewrite IH by exact Hr. now rewrite Nat.add_1_r.
    + change (String c ?x +:+ ?y) with (String c (x +:+ y)).
      cbn [sequences_from]. rewrite Hc. now apply IH.
Qed.

(** X12.  The banner text keeps its characters and takes the colours
    in turn: with the colour sequences taken out, [rainbow_text text]
    shows [text] again, and its colour sequences are the five colours
    in their order, over and over, one for each character that is not a
    space, and the reset at the end.  [text] has no escape character of
    its own. *)
Theorem rainbow_text_shows_text (text : string) :
  all_chars (fun c => negb (Ascii.eqb c escape)) text = true ->
  visible (rainbow_text text) = text
  /\ sequences_from None (rainbow_text text)
     = map (fun k => nth (k mod 5) colors "") (seq 0 (inked text)) ++ [reset].
Proof.
  intros Hesc. split; [now apply visible_loop | now apply sequences_loop].
Qed.

End Rainbow.

(** ** The two stores side by side *)

Section StoresApart.

Context `{Env}.

(** X13.  Saving a list whose name has no slash leaves the contacts
    cache as it was: [load_cached_contacts] returns afterwards what it
    returned before. *)
Theorem save_list_keeps_cache (name : string) (contacts : json)
  (fs fs' : gmap string node) :
  contains "/" name = false ->
  save_list name contacts fs = Ok fs' ->
  load_cached_contacts fs' = load_cached_contacts fs.
Proof.
  intros Hn Hsave. apply load_cached_contacts_lookup.
  apply (save_list_lookup _ _ _ _ _ Hsave).
  - intros Heq. now apply (list_path_not_cache name).
  - intros Heq. now apply LISTS_DIR_not_cache.
Qed.

Lemma fetch_same_but_cache (m : machine) :
  same_but_cache (files m) (files (fetch_contacts_from_mac m).2).
Proof.
  unfold fetch_contacts_from_mac.
  destruct (subprocess_run _ (world m)) as [r w].
  destruct r as [code out err| |]; try (intros path _; reflexivity).
  destruct (negb (code =? 0)%Z); [intros path _; reflexivity |].
  destruct (parse_contacts out) as [cs|e]; [| intros path _; reflexivity].
  destruct (save_contacts_cache _ (files m)) as [fs|e] eqn:Hs;
    [| intros path _; reflexivity].
  unfold save_contacts_cache in Hs. apply write_file_ok in Hs as ->.
  intros path Hp. simpl. now apply lookup_insert_ne.
Qed.

Lemma search_loop_same_but_cache (n : nat) :
  forall (lines : list string) (all_contacts selected_contacts : list contact)
    (m : machine),
  length lines <= n ->
  same_but_cache (files m)
    (files (final (search_loop all_contacts selected_contacts lines m))).
Proof.
  induction n as [|n IH]; intros lines all_contacts selected m Hlen.
  - destruct lines; [| simpl in Hlen; lia]. intros path _. reflexivity.
  - destruct lines as [|line rest]; [intros path _; reflexivity |].
    simpl in Hlen. assert (Hn : length rest <= n) by lia.
    simpl search_loop.
    destruct (String.eqb (lower (strip line)) "done"); [intros path _; reflexivity |].
    destruct (String.eqb (lower (strip line)) "sync").
    { pose proof (fetch_same_but_cache m) as Hf.
      destruct (fetch_contacts_from_mac m) as [[evs fetched] m']. simpl in Hf |- *.
      intros path Hp. rewrite (IH rest fetched selected m' Hn path Hp).
      now apply Hf. }
    destruct (String.eqb (lower (strip line)) "list"); [now apply IH |].
    destruct (is_empty (strip line)); [now apply IH |].
    destruct (isdigit _); [now apply IH |].
    destruct (List.filter (matches_query (strip line)) all_contacts)
      as [|c0 shown]; [now apply IH |].
    destruct rest as [|line2 rest2]; [intros path _; reflexivity |].
    simpl in Hn. assert (Hn2 : length rest2 <= n) by lia.
    simpl emit. destruct (is_empty (lower (strip line2))); [now apply IH |].
    destruct (if String.eqb (lower (strip line2)) "a" then _ else _)
      as [to_add|]; [| now apply IH].
    destruct (add_selected to_add selected 0) as [[evs sel'] k]. simpl.
    now apply IH.
Qed.

(** X14.  The contact search never writes a list: whatever is typed,
    [sync] included, every list whose name has no slash loads after the
    search as it loaded before. *)
Theorem search_keeps_lists (all_contacts selected_contacts : list contact)
  (lines : list string) (m : machine) (name : string) :
  contains "/" name = false ->
  load_list name
    (files (final (interactive_contact_search all_contacts selected_contacts lines m)))
  = load_list name (files m).
Proof.
  intros Hn. apply load_list_lookup. unfold interactive_contact_search.
  apply (search_loop_same_but_cache (length lines) lines _ _ m (le_n _)).
  now apply list_path_not_cache.
Qed.

End StoresApart.

(** ** From a sync to the next start, and to the drafts *)

Section AfterSync.

Context `{Env}.

(** What a run of the adapter that reports a sync has done. *)
Lemma fetch_synced (m m' : machine) (evs : list event) (cs : list contact) (k : nat) :
  fetch_contacts_from_mac m = (evs, cs, m') ->
  Synced k ∈ evs ->
  files m' = <[CONTACTS_CACHE_FILE :=
                 File (json_dump (document (JList (map json_of_contact cs))) 2)]>
               (files m)
  /\ k = length cs.
Proof.
  unfold fetch_contacts_from_mac.
  destruct (subprocess_run _ (world m)) as [r w].
  assert (Hno : forall e, e = TimedOut \/ e = FetchError \/ (exists s, e = LoadError s) ->
                          ~ Synced k ∈ [Syncing; e]).
  { intros e He Hin. apply elem_of_cons in Hin as [Hin | Hin]; [discriminate |].
    apply list_elem_of_singleton in Hin.
    destruct He as [-> | [-> | [s ->]]]; discriminate. }
  destruct r as [code out err| |].
  - destruct (negb (code =? 0)%Z).
    { intros [= <- <- <-] Hin. exfalso. eapply Hno, Hin. eauto. }
    destruct (parse_contacts out) as [found|e].
    2:{ intros [= <- <- <-] Hin. exfalso. eapply Hno, Hin. eauto. }
    destruct (save_contacts_cache _ (files m)) as [fs|e] eqn:Hs.
    2:{ intros [= <- <- <-] Hin. exfalso. eapply Hno, Hin. eauto. }
    intros [= <- <- <-] Hin. unfold save_contacts_cache in Hs.
    apply write_file_ok in Hs as ->. split; [reflexivity |].
    apply elem_of_cons in Hin as [Hin | Hin]; [discriminate |].
    apply list_elem_of_singleton in Hin. now injection Hin.
  - intros [= <- <- <-] Hin. exfalso. eapply Hno, Hin. eauto.
  - intros [= <- <- <-] Hin. exfalso. eapply Hno, Hin. eauto.
Qed.

(** X15.  After a sync that reported its count, the next call of
    [get_all_contacts] returns the contacts the sync returned, read from
    the cache, and does not call the bridge.  The [json] module is
    assumed to read back the document it has written. *)
Theorem get_all_contacts_after_sync (m m' : machine) (evs : list event)
  (cs : list contact) (k : nat) :
  fetch_contacts_from_mac m = (evs, cs, m') ->
  Synced k ∈ evs ->
  json_load (json_dump (document (JList (map json_of_contact cs))) 2)
    = Some (document (JList (map json_of_contact cs))) ->
  get_all_contacts false m'
  = ([UsingCached (length cs)], inr (JList (map json_of_contact cs)), m').
Proof.
  intros Hf Hin Hrt. destruct (fetch_synced _ _ _ _ _ Hf Hin) as [Hfiles _].
  unfold get_all_contacts. simpl negb. cbv iota.
  unfold load_cached_contacts. rewrite Hfiles, path_exists_written. simpl negb. cbv iota.
  rewrite load_document_written by exact Hrt.
  simpl. now rewrite length_map.
Qed.

(** The records of the adapter: the first name is the first token of
    the name, and a name that is not empty starts with a character that
    is not whitespace. *)
Lemma described_record_first (line : string) (c : contact) :
  described_record line = Some c ->
  first_name c = Some (first_token (name c))
  /\ (name c <> "" -> first_token (name c) <> "").
Proof.
  unfold described_record. destruct (cut "|" line) as [[a b]|]; [| discriminate].
  intros [= <-]. simpl. split; [reflexivity |].
  destruct (strip a) as [|ch r] eqn:Hs; [congruence |]. intros _.
  apply strip_head in Hs. unfold first_token. simpl lstrip. rewrite Hs.
  simpl. rewrite Hs. discriminate.
Qed.

Lemma fetch_records (m m' : machine) (evs : list event) (cs : list contact)
  (c : contact) :
  fetch_contacts_from_mac m = (evs, cs, m') ->
  c ∈ cs ->
  exists line, described_record line = Some c.
Proof.
  unfold fetch_contacts_from_mac.
  destruct (subprocess_run _ (world m)) as [r w].
  assert (Hnil : ~ c ∈ @nil contact) by apply not_elem_of_nil.
  destruct r as [code out err| |]; try (intros [= <- <- <-] Hc; contradiction).
  destruct (negb (code =? 0)%Z); [intros [= <- <- <-] Hc; contradiction |].
  unfold parse_contacts. rewrite contacts_of_lines_described.
  destruct (save_contacts_cache _ (files m)) as [fs|e];
    [| intros [= <- <- <-] Hc; contradiction].
  intros [= <- <- <-] Hc. simpl in Hc.
  apply list_elem_of_omap in Hc as (line & _ & Hline). eauto.
Qed.

(** A contact from which a name can be taken is drafted with it. *)
Lemma draft_message_greetable (template : string) (c : contact) :
  well_braced_from 0 template = true ->
  greetable c ->
  draft_message template c
  = Ok (render_from 0 (if is_empty (name c) then "" else chosen_first_name c)
          (phone c) template).
Proof.
  intros Hb Hg. unfold draft_message. rewrite (greeting_chosen c Hg).
  simpl bind. unfold format.
  rewrite <- (app_empty_r template) at 1.
  rewrite (format_through _ _ (String.length template)); [| lia | exact Hb].
  simpl. now rewrite app_empty_r.
Qed.

(** X16.  Every contact the adapter returns can be drafted: for every
    template whose braces are doubled braces or belong to the three
    placeholders, [draft_message] returns the rendered template, with
    the first token of the name of the contact for both name
    placeholders; it does not raise. *)
Theorem synced_contacts_can_be_drafted (m m' : machine) (evs : list event)
  (cs : list contact) (c : contact) (template : string) :
  fetch_contacts_from_mac m = (evs, cs, m') ->
  c ∈ cs ->
  well_braced_from 0 template = true ->
  draft_message template c
  = Ok (render_from 0 (first_token (name c)) (phone c) template).
Proof.
  intros Hf Hc Hb. destruct (fetch_records _ _ _ _ _ Hf Hc) as [line Hline].
  apply described_record_first in Hline as [Hfirst Hne].
  rewrite draft_message_greetable; [| exact Hb |].
  - f_equal. f_equal. unfold chosen_first_name. rewrite Hfirst.
    destruct (name c) as [|ch r] eqn:Hname; [reflexivity |]. simpl is_empty. cbv iota.
    destruct (is_empty (first_token (String ch r))) eqn:He; reflexivity.
  - destruct (name c) as [|ch r] eqn:Hname; [now left |].
    right. left. exists (first_token (String ch r)). split; [exact Hfirst |].
    apply Hne. discriminate.
Qed.

End AfterSync.

(** ** List maintenance *)

Section MaintenanceFacts.

Context `{Env}.

Lemma is_empty_false (s : string) : is_empty s = false <-> s <> "".
Proof. destruct s; simpl; split; congruence. Qed.

(** A contact entered by hand has a name to take a first name from. *)
Lemma manual_contact_greetable (line line2 : string) :
  strip line <> "" ->
  greetable (mkContact (strip line) None (strip line2))
  /\ chosen_first_name (mkContact (strip line) None (strip line2))
     = first_token (strip line).
Proof.
  intros Hn. split; [| reflexivity].
  right. right. simpl. destruct (strip line) as [|ch r] eqn:Hs; [congruence |].
  apply strip_head in Hs. simpl. now rewrite Hs.
Qed.

(** X17.  A name and a phone number typed at the two prompts, neither
    blank, are appended to the list as one contact, stripped, whether or
    not the number is in the list already; the list is saved, so that
    [load_list] returns it, and the new contact can be drafted, with the
    first token of its name for the name placeholders.  The file of the
    list can be written, and the [json] module is assumed to read back
    the document it has written. *)
Theorem add_contact_manually_appends (list_name : string) (contacts : list contact)
  (line line2 : string) (rest : list string) (fs : gmap string node)
  (template : string) :
  strip line <> "" ->
  strip line2 <> "" ->
  writable (ensure_lists_dir fs) (list_path list_name) = true ->
  (let saved :=
     JList (map json_of_contact (contacts ++ [mkContact (strip line) None (strip line2)]))
   in json_load (json_dump (document saved) 2) = Some (document saved)) ->
  well_braced_from 0 template = true ->
  let added := mkContact (strip line) None (strip line2) in
  let r := add_contact_manually list_name contacts (line :: line2 :: rest) fs in
  returned r = Ok (contacts ++ [added])
  /\ unread r = rest
  /\ load_list list_name (store r) = Ok (JList (map json_of_contact (contacts ++ [added])))
  /\ draft_message template added
     = Ok (render_from 0 (first_token (strip line)) (strip line2) template).
Proof.
  intros Hn Hp Hdir Hrt Hb added r. subst r. unfold add_contact_manually.
  apply is_empty_false in Hn as Hn'. apply is_empty_false in Hp as Hp'.
  rewrite Hn', Hp'.
  destruct (save_list_succeeds list_name
              (JList (map json_of_contact (contacts ++ [added]))) fs Hdir)
    as [fs' Hsave].
  fold added. rewrite Hsave. simpl.
  destruct (save_list_saved _ _ _ _ Hsave) as [_ Hload].
  repeat split; [now apply Hload |].
  destruct (manual_contact_greetable line line2 Hn) as [Hg Hc].
  rewrite (draft_message_greetable template added Hb Hg).
  fold added in Hc. rewrite Hc. simpl name. now rewrite Hn'.
Qed.

(** X18.  Whatever is typed, [add_contact_manually] returns the list
    it was given with the files untouched, or that list with one contact
    more, whose name and phone are not empty, and the file of the list
    then holds the new list; it never saves a contact with an empty name
    or an empty phone, and it never drops a contact. *)
Theorem add_contact_manually_outcomes (list_name : string) (contacts : list contact)
  (lines : list string) (fs : gmap string node) (contacts' : list contact) :
  returned (add_contact_manually list_name contacts lines fs) = Ok contacts' ->
  (contacts' = contacts
   /\ store (add_contact_manually list_name contacts lines fs) = fs)
  \/ (exists c, contacts' = contacts ++ [c]
        /\ name c <> "" /\ phone c <> "" /\ first_name c = None
        /\ store (add_contact_manually list_name contacts lines fs)
             !! list_path list_name
           = Some (File (json_dump
                           (document (JList (map json_of_contact contacts'))) 2))).
Proof.
  unfold add_contact_manually.
  destruct lines as [|line rest]; [discriminate |].
  destruct (is_empty (strip line)) eqn:Hn; [intros [= <-]; now left |].
  destruct rest as [|line2 rest2]; [discriminate |].
  destruct (is_empty (strip line2)) eqn:Hp; [intros [= <-]; now left |].
  destruct (save_list _ _ fs) as [fs'|e] eqn:Hsave; [| discriminate].
  intros [= <-]. right. exists (mkContact (strip line) None (strip line2)).
  apply is_empty_false in Hn, Hp.
  destruct (save_list_saved _ _ _ _ Hsave) as [Hfile _].
  repeat split; assumption.
Qed.

(** The contact at index [i] is shown under the number [i + 1]. *)
Lemma contact_lines_lookup (contacts : list contact) (n i : nat) (c : contact) :
  contacts !! i = Some c ->
  ContactLine (n + i) (name c) (phone c) ∈ contact_lines n contacts.
Proof.
  revert n i. induction contacts as [|c0 cs IH]; intros n i Hc; [discriminate |].
  destruct i as [|i]; simpl in *.
  - injection Hc as ->. rewrite Nat.add_0_r. apply elem_of_cons. now left.
  - apply elem_of_cons. right. replace (n + S i) with (S n + i) by lia. now apply IH.
Qed.

Lemma view_contacts_lookup (contacts : list contact) (i : nat) (c : contact) :
  contacts !! i = Some c ->
  ContactLine (S i) (name c) (phone c) ∈ view_contacts contacts.
Proof.
  intros Hc. destruct contacts as [|c0 cs] eqn:Hcs; [discriminate |].
  rewrite <- Hcs in *. rewrite Hcs at 1. unfold view_contacts. rewrite <- Hcs.
  apply elem_of_cons. right. apply elem_of_app. left.
  now apply (contact_lines_lookup contacts 1 i c).
Qed.

Lemma int_not_c (s : string) (k : Z) : int s = Some k -> String.eqb s "c" = false.
Proof.
  intros Hk. destruct (String.eqb s "c") eqn:Hc; [| reflexivity].
  apply String.eqb_eq in Hc. subst s. discriminate Hk.
Qed.

(** X19.  A number between 1 and the length of the list, typed at the
    prompt of [remove_contact], removes the contact shown under that
    number and no other: the list returned is the list without it, in
    the same order, the contact is named in the message, and the list is
    saved, so that [load_list] returns it.  The answer is no longer than
    the 4300 characters to which an interpreter may limit [int]; the
    file of the list can be written, and the [json] module is assumed to
    read back the document it has written. *)
Theorem remove_contact_removes (list_name : string) (contacts : list contact)
  (line : string) (rest : list string) (fs : gmap string node) (k : Z) :
  (Z.of_nat (String.length (lower (strip line))) <= 4300)%Z ->
  int (lower (strip line)) = Some k ->
  (1 <= k <= Z.of_nat (length contacts))%Z ->
  writable (ensure_lists_dir fs) (list_path list_name) = true ->
  (let i := Z.to_nat (k - 1) in
   let saved := JList (map json_of_contact (take i contacts ++ drop (S i) contacts)) in
   json_load (json_dump (document saved) 2) = Some (document saved)) ->
  let i := Z.to_nat (k - 1) in
  let r := remove_contact list_name contacts (line :: rest) fs in
  exists removed,
    contacts !! i = Some removed
    /\ ContactLine (S i) (name removed) (phone removed) ∈ shown r
    /\ Removed (name removed) ∈ shown r
    /\ returned r = Ok (take i contacts ++ drop (S i) contacts)
    /\ unread r = rest
    /\ load_list list_name (store r)
       = Ok (JList (map json_of_contact (take i contacts ++ drop (S i) contacts))).
Proof.
  intros _ Hk Hrange Hdir Hrt i r. subst r.
  assert (Hi : i < length contacts) by (subst i; lia).
  destruct (lookup_lt_is_Some_2 contacts i Hi) as [removed Hrem].
  exists removed. split; [exact Hrem |].
  unfold remove_contact. destruct contacts as [|c0 cs] eqn:Hcs; [simpl in Hi; lia |].
  rewrite <- Hcs in *. rewrite (int_not_c _ _ Hk), Hk.
  assert (Hin : ((0 <=? k - 1) && (k - 1 <? Z.of_nat (length contacts)))%Z = true).
  { apply andb_true_iff. split; [apply Z.leb_le | apply Z.ltb_lt]; lia. }
  rewrite Hin. fold i. rewrite Hrem. rewrite delete_take_drop.
  destruct (save_list_succeeds list_name
              (JList (map json_of_contact (take i contacts ++ drop (S i) contacts)))
              fs Hdir) as [fs' Hsave].
  rewrite Hsave. simpl shown. simpl returned. simpl unread. simpl store.
  destruct (save_list_saved _ _ _ _ Hsave) as [_ Hload].
  split; [| split; [| split; [reflexivity | split; [reflexivity | now apply Hload]]]].
  - apply elem_of_app. left. apply elem_of_app. left. apply elem_of_app. left.
    now apply view_contacts_lookup.
  - apply elem_of_app. right. apply list_elem_of_singleton. reflexivity.
Qed.

(** X20.  Whatever is typed, [remove_contact] returns the list it was
    given with the files untouched, or that list without one of its
    contacts, the others in their order, and the file of the list then
    holds the new list; it never removes more than one contact, and an
    answer that is not a number from 1 to the length of the list, [0]
    and the negative numbers included, removes none. *)
Theorem remove_contact_outcomes (list_name : string) (contacts : list contact)
  (lines : list string) (fs : gmap string node) (contacts' : list contact) :
  returned (remove_contact list_name contacts lines fs) = Ok contacts' ->
  (contacts' = contacts /\ store (remove_contact list_name contacts lines fs) = fs)
  \/ (exists line rest k,
        lines = line :: rest
        /\ int (lower (strip line)) = Some k
        /\ (1 <= k <= Z.of_nat (length contacts))%Z
        /\ contacts' = take (Z.to_nat (k - 1)) contacts
                       ++ drop (S (Z.to_nat (k - 1))) contacts
        /\ store (remove_contact list_name contacts lines fs) !! list_path list_name
           = Some (File (json_dump
                           (document (JList (map json_of_contact contacts'))) 2))).
Proof.
  unfold remove_contact.
  destruct contacts as [|c0 cs] eqn:Hcs; [intros [= <-]; now left |].
  rewrite <- Hcs. destruct lines as [|line rest]; [discriminate |].
  destruct (String.eqb (lower (strip line)) "c"); [intros [= <-]; now left |].
  destruct (int (lower (strip line))) as [k|] eqn:Hk; [| intros [= <-]; now left].
  destruct ((0 <=? k - 1) && (k - 1 <? Z.of_nat (length contacts)))%Z eqn:Hin;
    [| intros [= <-]; now left].
  apply andb_true_iff in Hin as [H0 H1]. apply Z.leb_le in H0. apply Z.ltb_lt in H1.
  destruct (contacts !! Z.to_nat (k - 1)) as [removed|]; [| discriminate].
  destruct (save_list _ _ fs) as [fs'|e] eqn:Hsave; [| discriminate].
  intros [= <-]. right. exists line, rest, k.
  destruct (save_list_saved _ _ _ _ Hsave) as [Hfile _].
  rewrite delete_take_drop in Hfile |- *.
  repeat split; try assumption; lia.
Qed.

End MaintenanceFacts.

(** ** The names of the existing lists *)

Section ExistingLists.

Context `{Env}.

Lemma length_app_str (a b : string) :
  String.length (a +:+ b) = String.length a + String.length b.
Proof.
  induction a as [|c a IH]; [reflexivity |].
  change (S (String.length (a +:+ b)) = S (String.length a + String.length b)).
  now rewrite IH.
Qed.

Lemma substring_all (b : string) : substring 0 (String.length b) b = b.
Proof. induction b as [|c b IH]; [reflexivity |]. simpl. now rewrite IH. Qed.

Lemma substring_app_suffix (a b : string) :
  substring (String.length a) (String.length b) (a +:+ b) = b.
Proof.
  induction a as [|c a IH]; [apply substring_all |].
  change (substring (S (String.length a)) (String.length b) (String c (a +:+ b)) = b).
  simpl. exact IH.
Qed.

Lemma substring_app_prefix (a b : string) :
  substring 0 (String.length a) (a +:+ b) = a.
Proof.
  induction a as [|c a IH]; [now destruct b |].
  change (substring 0 (S (String.length a)) (String c (a +:+ b)) = String c a).
  simpl. now rewrite IH.
Qed.

Lemma substring_split (s : string) (k : nat) :
  k <= String.length s ->
  substring 0 k s +:+ substring k (String.length s - k) s = s.
Proof.
  revert k. induction s as [|c s IH]; intros k Hk.
  - simpl in Hk. assert (k = 0) by lia. subst k. reflexivity.
  - destruct k as [|k].
    + simpl. now rewrite substring_all.
    + simpl in Hk. simpl String.length. simpl Nat.sub.
      change (String c (substring 0 k s +:+ substring k (String.length s - k) s)
              = String c s).
      rewrite IH by lia. reflexivity.
Qed.

(** A name that ends in [.json] is its stem followed by [.json]. *)
Lemma endswith_json (f : string) :
  endswith ".json" f = true -> f = drop_last 5 f +:+ ".json".
Proof.
  unfold endswith, drop_last. intros Hf. apply andb_true_iff in Hf as [Hlen Heq].
  apply Nat.leb_le in Hlen. apply String.eqb_eq in Heq.
  change (String.length ".json") with 5 in *.
  rewrite <- Heq.
  pose proof (substring_split f (String.length f - 5)) as Hs.
  replace (String.length f - (String.length f - 5)) with 5 in Hs by lia.
  symmetry. apply Hs. lia.
Qed.

Lemma stem_of_json (name : string) :
  endswith ".json" (name +:+ ".json") = true
  /\ drop_last 5 (name +:+ ".json") = name.
Proof.
  unfold endswith, drop_last. rewrite length_app_str.
  change (String.length ".json") with 5.
  replace (String.length name + 5 - 5) with (String.length name) by lia.
  split.
  - apply andb_true_iff. split; [apply Nat.leb_le; lia |].
    apply String.eqb_eq. apply (substring_app_suffix name ".json").
  - apply substring_app_prefix.
Qed.

Lemma strip_prefix_app (p x : string) : strip_prefix p (p +:+ x) = Some x.
Proof.
  induction p as [|c p IH]; [now destruct x |].
  change (strip_prefix (String c p) (String c (p +:+ x)) = Some x).
  simpl. now rewrite Ascii.eqb_refl.
Qed.

Lemma strip_prefix_Some (p s x : string) : strip_prefix p s = Some x -> s = p +:+ x.
Proof.
  revert s. induction p as [|c p IH]; intros s.
  - simpl. intros [= <-]. reflexivity.
  - destruct s as [|b s]; simpl; [discriminate |].
    destruct (Ascii.eqb c b) eqn:Hc; [| discriminate].
    apply Ascii.eqb_eq in Hc as ->. intros Hx. apply IH in Hx as ->. reflexivity.
Qed.

Lemma contains_slash_app (a b : string) :
  contains "/" (a +:+ b) = contains "/" a || contains "/" b.
Proof.
  induction a as [|c a IH]; [reflexivity |].
  change (contains "/" (String c (a +:+ b))
          = contains "/" (String c a) || contains "/" b).
  simpl. rewrite IH. now rewrite !andb_true_r, orb_assoc.
Qed.

Lemma no_slash_start (f : string) : contains "/" f = false -> startswith "/" f = false.
Proof.
  destruct f as [|c r]; [reflexivity |]. simpl.
  intros Hf. now apply orb_false_iff in Hf as [Hc _].
Qed.

(** The entry under which the file of a list appears in the directory. *)
Lemma entry_of_list_path (name : string) :
  contains "/" name = false ->
  entry_of LISTS_DIR (list_path name) = Some (name +:+ ".json").
Proof.
  intros Hn. unfold entry_of, list_path.
  rewrite path_join_relative by now apply no_slash_relative.
  rewrite strip_prefix_app, contains_slash_app, Hn.
  now destruct name.
Qed.

(** An entry of the directory is the last component of a path. *)
Lemma entry_of_Some (path f : string) :
  entry_of LISTS_DIR path = Some f ->
  path = path_join LISTS_DIR f /\ contains "/" f = false.
Proof.
  unfold entry_of. destruct (strip_prefix _ path) as [x|] eqn:Hx; [| discriminate].
  destruct (negb (is_empty x) && negb (contains "/" x)) eqn:Hok; [| discriminate].
  intros [= <-]. apply andb_true_iff in Hok as [_ Hs]. apply negb_true_iff in Hs.
  split; [| exact Hs].
  rewrite path_join_relative by now apply no_slash_start.
  now apply strip_prefix_Some.
Qed.

(** The names the loop keeps, and where they come from. *)
Lemma lists_of_elem (entries : list string) (n : string) :
  n ∈ lists_of entries <-> (n +:+ ".json") ∈ entries.
Proof.
  induction entries as [|f rest IH]; simpl.
  - split; intros Hn; now apply elem_of_nil in Hn.
  - destruct (endswith ".json" f) eqn:Hf.
    + rewrite !elem_of_cons, IH. split; intros [Hn | Hn]; auto; left.
      * subst n. symmetry. now apply endswith_json.
      * subst f. symmetry. apply stem_of_json.
    + rewrite elem_of_cons, IH. split; [auto |]. intros [Hn | Hn]; [| exact Hn].
      subst f. destruct (stem_of_json n) as [He _]. congruence.
Qed.

Lemma lists_of_NoDup (entries : list string) :
  NoDup entries -> NoDup (lists_of entries).
Proof.
  induction 1 as [|f rest Hf Hrest IH]; simpl; [constructor |].
  destruct (endswith ".json" f) eqn:He; [| exact IH].
  constructor; [| exact IH].
  rewrite lists_of_elem, <- (endswith_json f He). exact Hf.
Qed.

Lemma entries_NoDup (paths : list string) :
  NoDup paths -> NoDup (omap (entry_of LISTS_DIR) paths).
Proof.
  induction 1 as [|p rest Hp Hrest IH]; simpl; [constructor |].
  destruct (entry_of LISTS_DIR p) as [f|] eqn:Hf; [| exact IH].
  constructor; [| exact IH].
  intros Hin. apply list_elem_of_omap in Hin as (q & Hq & Hqf).
  apply entry_of_Some in Hf as [-> _]. apply entry_of_Some in Hqf as [-> _].
  contradiction.
Qed.

#[local] Instance str_le_total : Total str_le.
Proof. intros a b. apply String.leb_total. Qed.

(** What [get_existing_lists] returns, in terms of the files. *)
Lemma get_existing_lists_names (fs : gmap string node) (names : list string) :
  (get_existing_lists fs).1 = Ok names ->
  Sorted str_le names
  /\ NoDup names
  /\ forall n, n ∈ names <->
       contains "/" n = false /\ is_Some (ensure_lists_dir fs !! list_path n).
Proof.
  unfold get_existing_lists, listdir. simpl.
  destruct (ensure_lists_dir fs !! LISTS_DIR) as [[text|]|]; try discriminate.
  simpl. intros [= <-]. split; [apply Sorted_merge_sort, _ |]. split.
  - rewrite merge_sort_Permutation. apply lists_of_NoDup, entries_NoDup.
    apply NoDup_fst_map_to_list.
  - intros n. rewrite merge_sort_Permutation, lists_of_elem, list_elem_of_omap.
    split.
    + intros (p & Hp & Hf). apply entry_of_Some in Hf as [-> Hs].
      rewrite contains_slash_app in Hs. apply orb_false_iff in Hs as [Hn _].
      split; [exact Hn |].
      apply list_elem_of_fmap in Hp as ([q node] & Hq & Hin). simpl in Hq.
      apply elem_of_map_to_list in Hin. unfold list_path. rewrite Hq. eauto.
    + intros [Hn [node Hnode]]. exists (list_path n). split.
      * apply list_elem_of_fmap. exists (list_path n, node). split; [reflexivity |].
        now apply elem_of_map_to_list.
      * now apply entry_of_list_path.
Qed.

(** X21.  The names [get_existing_lists] returns are in increasing
    order, none twice, and they are exactly the names without a slash
    whose list has a file: each of them is a list [load_list] reads from
    a file that exists, and no such list is left out. *)
Theorem existing_lists_are_the_files (fs : gmap string node) (names : list string) :
  (get_existing_lists fs).1 = Ok names ->
  Sorted str_le names
  /\ NoDup names
  /\ forall n, n ∈ names <->
       contains "/" n = false
       /\ path_exists (get_existing_lists fs).2 (list_path n) = true.
Proof.
  intros Hnames. destruct (get_existing_lists_names fs names Hnames) as (Hs & Hd & Hn).
  split; [exact Hs |]. split; [exact Hd |].
  intros n. rewrite Hn. unfold get_existing_lists, path_exists. simpl.
  split; intros [Hc Hf]; (split; [exact Hc |]).
  - destruct Hf as [node ->]. reflexivity.
  - destruct (ensure_lists_dir fs !! list_path n); [eauto | discriminate].
Qed.

(** X22.  A list that was saved is listed: after [save_list name]
    completes, for a name without a slash, [get_existing_lists] returns
    the name among the others, and changes no file.  No file sits where
    the directory of the lists belongs. *)
Theorem saved_list_is_listed (name : string) (contacts : json)
  (fs fs' : gmap string node) :
  contains "/" name = false ->
  (forall text, fs !! LISTS_DIR <> Some (File text)) ->
  save_list name contacts fs = Ok fs' ->
  exists names,
    get_existing_lists fs' = (Ok names, fs') /\ name ∈ names.
Proof.
  intros Hn Hdir Hsave.
  assert (Hd : fs' !! LISTS_DIR = Some Dir).
  { unfold save_list in Hsave. apply write_file_ok in Hsave as ->.
    rewrite lookup_insert_ne by (intros Heq; now apply (list_path_not_LISTS_DIR name)).
    unfold ensure_lists_dir, path_exists.
    destruct (fs !! LISTS_DIR) as [[text|]|] eqn:Hl; simpl.
    - now destruct (Hdir text).
    - exact Hl.
    - apply lookup_insert_eq. }
  assert (He : ensure_lists_dir fs' = fs').
  { unfold ensure_lists_dir, path_exists. now rewrite Hd. }
  destruct (get_existing_lists fs').1 as [names|e] eqn:Hnames.
  - exists names. split.
    + rewrite <- Hnames. unfold get_existing_lists. simpl. now rewrite He.
    + apply (get_existing_lists_names fs' names Hnames). split; [exact Hn |].
      rewrite He. destruct (save_list_saved _ _ _ _ Hsave) as [-> _]. eauto.
  - exfalso. revert Hnames. unfold get_existing_lists, listdir. simpl.
    now rewrite He, Hd.
Qed.

End ExistingLists.

(** ** Further evaluations on the concrete platform *)

Section FurtherEvaluations.

#[local] Existing Instance Platform.env.

Import Sample Cases.

Lemma draft_message_renders_witness :
  well_braced_from 0 "Hi {first_name}, {{see}} you at {phone}" = true
  /\ name alice <> ""
  /\ ((exists f, first_name alice = Some f /\ f <> "") \/ lstrip (name alice) <> "")
  /\ draft_message "Hi {first_name}, {{see}} you at {phone}" alice
     = Ok "Hi Alice, {see} you at +15550100".
Proof.
  assert (Hb : well_braced_from 0 "Hi {first_name}, {{see}} you at {phone}" = true)
    by reflexivity.
  assert (Hn : name alice <> "") by discriminate.
  assert (Hf : (exists f, first_name alice = Some f /\ f <> "")
               \/ lstrip (name alice) <> "") by (right; discriminate).
  split; [exact Hb | split; [exact Hn | split; [exact Hf |]]].
  exact (draft_message_renders "Hi {first_name}, {{see}} you at {phone}" alice Hb Hn Hf).
Defined.

Lemma draft_message_empty_name_witness :
  well_braced_from 0 "Hi {first_name}!" = true
  /\ name nameless = ""
  /\ draft_message "Hi {first_name}!" nameless = Ok "Hi !".
Proof.
  assert (Hb : well_braced_from 0 "Hi {first_name}!" = true) by reflexivity.
  assert (Hn : name nameless = "") by reflexivity.
  split; [exact Hb | split; [exact Hn |]].
  exact (draft_message_empty_name "Hi {first_name}!" nameless Hb Hn).
Defined.

Lemma draft_message_blank_name_witness :
  name blank <> ""
  /\ all_chars is_space (name blank) = true
  /\ (first_name blank = None \/ first_name blank = Some "")
  /\ draft_message "See you Friday" blank = Raise IndexError.
Proof.
  assert (Hn : name blank <> "") by discriminate.
  assert (Hs : all_chars is_space (name blank) = true) by reflexivity.
  assert (Hf : first_name blank = None \/ first_name blank = Some "") by (now left).
  split; [exact Hn | split; [exact Hs | split; [exact Hf |]]].
  exact (draft_message_blank_name "See you Friday" blank Hn Hs Hf).
Defined.

Lemma unknown_field_reported_witness :
  strip " Hi {nickname}! " = "Hi " +:+ "{" +:+ "nickname" +:+ String "}" "!"
  /\ well_braced_from 0 "Hi " = true
  /\ plain_key "nickname" = true
  /\ provided "nickname" = false
  /\ greetable alice
  /\ send_texts_flow [alice; bob] [" Hi {nickname}! "; "s"] ready
     = mkRun [Banner; Input PTemplate " Hi {nickname}! "; Legend;
              InvalidPlaceholder "nickname"] (Ok tt) ["s"] ready
  /\ send_texts_flow [blank; alice] [" Hi {nickname}! "; "s"] ready
     = mkRun [Banner; Input PTemplate " Hi {nickname}! "; Legend]
         (Raise IndexError) ["s"] ready.
Proof.
  assert (Ht : strip " Hi {nickname}! "
               = "Hi " +:+ "{" +:+ "nickname" +:+ String "}" "!") by reflexivity.
  assert (Hb : well_braced_from 0 "Hi " = true) by reflexivity.
  assert (Hp : plain_key "nickname" = true) by reflexivity.
  assert (Hn : provided "nickname" = false) by reflexivity.
  assert (Hg : greetable alice) by (right; right; discriminate).
  split; [exact Ht | split; [exact Hb | split; [exact Hp | split; [exact Hn |
    split; [exact Hg |]]]]].
  split.
  - destruct (unknown_field_reported alice [bob] " Hi {nickname}! " ["s"] ready
                "Hi " "nickname" "!" Ht Hb Hp Hn) as [Hreported _].
    exact (Hreported Hg).
  - destruct (unknown_field_reported blank [alice] " Hi {nickname}! " ["s"] ready
                "Hi " "nickname" "!" Ht Hb Hp Hn) as [_ Hraised].
    apply Hraised; [discriminate | reflexivity | now left].
Defined.

Lemma positional_field_raises_witness :
  strip "Hi {0}" = "Hi " +:+ "{" +:+ "0" +:+ String "}" ""
  /\ well_braced_from 0 "Hi " = true
  /\ all_chars (fun c => negb (is_field_punctuation c)) "0" = true
  /\ positional_key "0" = true
  /\ greetable alice
  /\ send_texts_flow [alice; bob] ["Hi {0}"; "s"] ready
     = mkRun [Banner; Input PTemplate "Hi {0}"; Legend] (Raise IndexError) ["s"] ready.
Proof.
  assert (Ht : strip "Hi {0}" = "Hi " +:+ "{" +:+ "0" +:+ String "}" "") by reflexivity.
  assert (Hb : well_braced_from 0 "Hi " = true) by reflexivity.
  assert (Hk : all_chars (fun c => negb (is_field_punctuation c)) "0" = true)
    by reflexivity.
  assert (Hp : positional_key "0" = true) by reflexivity.
  assert (Hg : greetable alice) by (right; right; discriminate).
  split; [exact Ht | split; [exact Hb | split; [exact Hk | split; [exact Hp |
    split; [exact Hg |]]]]].
  exact (positional_field_raises alice [bob] "Hi {0}" ["s"] ready
           "Hi " "0" "" Ht Hb Hk Hp Hg).
Defined.

Lemma done_summary_accounts_witness :
  Done 1 1 ∈ events (send_texts_flow [alice; bob] session ready)
  /\ 1 = count is_success (events (send_texts_flow [alice; bob] session ready))
  /\ 1 = count is_skip (events (send_texts_flow [alice; bob] session ready))
  /\ 1 + 1 + count is_failure (events (send_texts_flow [alice; bob] session ready))
     = length [alice; bob].
Proof.
  assert (Hin : Done 1 1 ∈ events (send_texts_flow [alice; bob] session ready)).
  { rewrite session_trace. apply elem_of_app. right. repeat constructor. }
  split; [exact Hin |].
  exact (done_summary_accounts [alice; bob] session ready 1 1 Hin).
Defined.

Lemma quit_summary_accounts_witness :
  QuitSummary 0 1 ∈ events (send_texts_flow [alice; bob] ["1"; "q"] ready)
  /\ 0 = count is_success (events (send_texts_flow [alice; bob] ["1"; "q"] ready))
  /\ 0 + 1 + count is_failure (events (send_texts_flow [alice; bob] ["1"; "q"] ready))
     + 1
     = length [alice; bob].
Proof.
  assert (Hin : QuitSummary 0 1
                ∈ events (send_texts_flow [alice; bob] ["1"; "q"] ready)).
  { replace (events (send_texts_flow [alice; bob] ["1"; "q"] ready))
      with ([Banner; Input PTemplate "1"; Using default_template; Legend;
             Show 1 2 alice "Hey Alice! Party at my place Friday at 8, you in?";
             Input (PChoice 1) "q"; QuitSummary 0 1]) by reflexivity.
    repeat constructor. }
  split; [exact Hin |].
  exact (quit_summary_accounts [alice; bob] ["1"; "q"] ready 0 1 Hin).
Defined.

Lemma search_without_sync_witness :
  Forall (fun line => String.eqb (lower (strip line)) "sync" = false)
    ["o"; "a"; "done"]
  /\ final (interactive_contact_search address_book [alice] ["o"; "a"; "done"] idle)
     = idle
  /\ forall fin,
       result (interactive_contact_search address_book [alice] ["o"; "a"; "done"] idle)
       = Ok fin ->
       forall c, c ∈ fin -> c ∈ [alice] \/ c ∈ address_book.
Proof.
  assert (Hns : Forall (fun line => String.eqb (lower (strip line)) "sync" = false)
                  ["o"; "a"; "done"]) by (repeat constructor).
  split; [exact Hns |].
  exact (search_without_sync address_book [alice] ["o"; "a"; "done"] idle Hns).
Defined.

Lemma repeated_selection_adds_nothing_witness :
  is_search_query (strip "o") = true
  /\ List.filter (matches_query (strip "o")) address_book <> []
  /\ result (search_loop address_book [alice] ["o"; "a"; "o"; "a"; "done"] idle)
     = result (search_loop address_book [alice] ["o"; "a"; "done"] idle).
Proof.
  assert (Hq : is_search_query (strip "o") = true) by reflexivity.
  assert (Hm : List.filter (matches_query (strip "o")) address_book <> [])
    by discriminate.
  split; [exact Hq | split; [exact Hm |]].
  exact (repeated_selection_adds_nothing address_book [alice] "o" "a" idle Hq Hm).
Defined.

Lemma rainbow_text_shows_text_witness :
  all_chars (fun c => negb (Ascii.eqb c escape)) "PARTY PLANNER" = true
  /\ visible (rainbow_text "PARTY PLANNER") = "PARTY PLANNER"
  /\ sequences_from None (rainbow_text "PARTY PLANNER")
     = map (fun k => nth (k mod 5) colors "") (seq 0 (inked "PARTY PLANNER"))
       ++ [reset].
Proof.
  assert (Hesc : all_chars (fun c => negb (Ascii.eqb c escape)) "PARTY PLANNER" = true)
    by reflexivity.
  split; [exact Hesc |].
  exact (rainbow_text_shows_text "PARTY PLANNER" Hesc).
Defined.

Lemma save_list_keeps_cache_witness :
  contains "/" "friends" = false
  /\ save_list "friends" friends stale_store
     = Ok (<[ list_path "friends" := File (json_dump (document friends) 2) ]>
             (ensure_lists_dir stale_store))
  /\ load_cached_contacts
       (<[ list_path "friends" := File (json_dump (document friends) 2) ]>
          (ensure_lists_dir stale_store))
     = load_cached_contacts stale_store.
Proof.
  assert (Hn : contains "/" "friends" = false) by reflexivity.
  assert (Hs : save_list "friends" friends stale_store
     = Ok (<[ list_path "friends" := File (json_dump (document friends) 2) ]>
             (ensure_lists_dir stale_store))).
  { unfold save_list, write_file.
    replace (ensure_lists_dir stale_store !! list_path "friends")
      with (Some (File "not json at all")) by (vm_compute; reflexivity).
    reflexivity. }
  split; [exact Hn | split; [exact Hs |]].
  exact (save_list_keeps_cache "friends" friends _ _ Hn Hs).
Defined.

Lemma search_keeps_lists_witness :
  contains "/" "friends" = false
  /\ load_list "friends"
       (files (final (interactive_contact_search [] [] ["sync"; "done"] before_sync)))
     = load_list "friends" (files before_sync).
Proof.
  assert (Hn : contains "/" "friends" = false) by reflexivity.
  split; [exact Hn |].
  exact (search_keeps_lists [] [] ["sync"; "done"] before_sync "friends" Hn).
Defined.

Lemma fetch_before_sync :
  fetch_contacts_from_mac before_sync = ([Syncing; Synced 1], [alice], after_sync).
Proof.
  apply (fetch_returns_described before_sync "Alice Smith|+15550100" "" []).
  - reflexivity.
  - vm_compute. reflexivity.
Qed.

Lemma get_all_contacts_after_sync_witness :
  fetch_contacts_from_mac before_sync = ([Syncing; Synced 1], [alice], after_sync)
  /\ Synced 1 ∈ [Syncing; Synced 1]
  /\ json_load (json_dump (document (JList (map json_of_contact [alice]))) 2)
     = Some (document (JList (map json_of_contact [alice])))
  /\ get_all_contacts false after_sync
     = ([UsingCached (length [alice])], inr (JList (map json_of_contact [alice])),
        after_sync).
Proof.
  assert (Hin : Synced 1 ∈ [Syncing; Synced 1]) by (repeat constructor).
  assert (Hrt : json_load (json_dump (document (JList (map json_of_contact [alice]))) 2)
                = Some (document (JList (map json_of_contact [alice]))))
    by (vm_compute; reflexivity).
  split; [exact fetch_before_sync | split; [exact Hin | split; [exact Hrt |]]].
  exact (get_all_contacts_after_sync before_sync after_sync _ [alice] 1
           fetch_before_sync Hin Hrt).
Defined.

Lemma synced_contacts_can_be_drafted_witness :
  fetch_contacts_from_mac before_sync = ([Syncing; Synced 1], [alice], after_sync)
  /\ alice ∈ [alice]
  /\ well_braced_from 0 "Hey {name}!" = true
  /\ draft_message "Hey {name}!" alice = Ok "Hey Alice!".
Proof.
  assert (Hc : alice ∈ [alice]) by (repeat constructor).
  assert (Hb : well_braced_from 0 "Hey {name}!" = true) by reflexivity.
  split; [exact fetch_before_sync | split; [exact Hc | split; [exact Hb |]]].
  exact (synced_contacts_can_be_drafted before_sync after_sync _ [alice] alice
           "Hey {name}!" fetch_before_sync Hc Hb).
Defined.

Lemma add_contact_manually_appends_witness :
  strip " Dana Cruz " <> ""
  /\ strip "+15550105" <> ""
  /\ writable (ensure_lists_dir ∅) (list_path "friends") = true
  /\ json_load (json_dump (document (JList (map json_of_contact [alice; dana]))) 2)
     = Some (document (JList (map json_of_contact [alice; dana])))
  /\ well_braced_from 0 "Hey {name}!" = true
  /\ returned (add_contact_manually "friends" [alice] [" Dana Cruz "; "+15550105"] ∅)
     = Ok [alice; dana]
  /\ draft_message "Hey {name}!" dana = Ok "Hey Dana!".
Proof.
  assert (Hn : strip " Dana Cruz " <> "") by discriminate.
  assert (Hp : strip "+15550105" <> "") by discriminate.
  assert (Hd : writable (ensure_lists_dir ∅) (list_path "friends") = true)
    by (vm_compute; reflexivity).
  assert (Hrt : json_load
                  (json_dump (document (JList (map json_of_contact [alice; dana]))) 2)
                = Some (document (JList (map json_of_contact [alice; dana]))))
    by (vm_compute; reflexivity).
  assert (Hb : well_braced_from 0 "Hey {name}!" = true) by reflexivity.
  split; [exact Hn | split; [exact Hp | split; [exact Hd | split; [exact Hrt |
    split; [exact Hb |]]]]].
  destruct (add_contact_manually_appends "friends" [alice] " Dana Cruz " "+15550105"
              [] ∅ "Hey {name}!" Hn Hp Hd Hrt Hb) as (H1 & _ & _ & H4).
  split; [exact H1 | exact H4].
Defined.

Lemma add_contact_manually_outcomes_witness :
  returned (add_contact_manually "friends" [alice] ["   "; "+15550105"] ∅) = Ok [alice]
  /\ ([alice] = [alice]
      /\ store (add_contact_manually "friends" [alice] ["   "; "+15550105"] ∅) = ∅
      \/ exists c, [alice] = [alice] ++ [c]
           /\ name c <> "" /\ phone c <> "" /\ first_name c = None
           /\ store (add_contact_manually "friends" [alice] ["   "; "+15550105"] ∅)
                !! list_path "friends"
              = Some (File (json_dump
                              (document (JList (map json_of_contact [alice]))) 2))).
Proof.
  assert (Hr : returned (add_contact_manually "friends" [alice]
                           ["   "; "+15550105"] ∅) = Ok [alice]) by reflexivity.
  split; [exact Hr |].
  exact (add_contact_manually_outcomes "friends" [alice] ["   "; "+15550105"] ∅
           [alice] Hr).
Defined.

Lemma remove_contact_removes_witness :
  (Z.of_nat (String.length (lower (strip " 2 "))) <= 4300)%Z
  /\ int (lower (strip " 2 ")) = Some 2%Z
  /\ (1 <= 2 <= Z.of_nat (length [alice; bob; carol]))%Z
  /\ writable (ensure_lists_dir ∅) (list_path "friends") = true
  /\ json_load (json_dump (document (JList (map json_of_contact [alice; carol]))) 2)
     = Some (document (JList (map json_of_contact [alice; carol])))
  /\ exists removed,
       [alice; bob; carol] !! 1 = Some removed
       /\ ContactLine 2 (name removed) (phone removed)
          ∈ shown (remove_contact "friends" [alice; bob; carol] [" 2 "] ∅)
       /\ Removed (name removed)
          ∈ shown (remove_contact "friends" [alice; bob; carol] [" 2 "] ∅)
       /\ returned (remove_contact "friends" [alice; bob; carol] [" 2 "] ∅)
          = Ok [alice; carol]
       /\ unread (remove_contact "friends" [alice; bob; carol] [" 2 "] ∅) = []
       /\ load_list "friends"
            (store (remove_contact "friends" [alice; bob; carol] [" 2 "] ∅))
          = Ok (JList (map json_of_contact [alice; carol])).
Proof.
  assert (Hlen : (Z.of_nat (String.length (lower (strip " 2 "))) <= 4300)%Z)
    by (simpl; lia).
  assert (Hk : int (lower (strip " 2 ")) = Some 2%Z) by reflexivity.
  assert (Hrange : (1 <= 2 <= Z.of_nat (length [alice; bob; carol]))%Z)
    by (simpl; lia).
  assert (Hd : writable (ensure_lists_dir ∅) (list_path "friends") = true)
    by (vm_compute; reflexivity).
  assert (Hrt : json_load
                  (json_dump (document (JList (map json_of_contact [alice; carol]))) 2)
                = Some (document (JList (map json_of_contact [alice; carol]))))
    by (vm_compute; reflexivity).
  split; [exact Hlen | split; [exact Hk | split; [exact Hrange | split; [exact Hd |
    split; [exact Hrt |]]]]].
  exact (remove_contact_removes "friends" [alice; bob; carol] " 2 " [] ∅ 2
           Hlen Hk Hrange Hd Hrt).
Defined.

Lemma remove_contact_outcomes_witness :
  returned (remove_contact "friends" [alice; bob] ["0"] ∅) = Ok [alice; bob]
  /\ ([alice; bob] = [alice; bob]
      /\ store (remove_contact "friends" [alice; bob] ["0"] ∅) = ∅
      \/ exists line rest k,
           ["0"] = line :: rest
           /\ int (lower (strip line)) = Some k
           /\ (1 <= k <= Z.of_nat (length [alice; bob]))%Z
           /\ [alice; bob] = take (Z.to_nat (k - 1)) [alice; bob]
                             ++ drop (S (Z.to_nat (k - 1))) [alice; bob]
           /\ store (remove_contact "friends" [alice; bob] ["0"] ∅)
                !! list_path "friends"
              = Some (File (json_dump
                              (document (JList (map json_of_contact [alice; bob]))) 2))).
Proof.
  assert (Hr : returned (remove_contact "friends" [alice; bob] ["0"] ∅)
               = Ok [alice; bob]) by reflexivity.
  split; [exact Hr |].
  exact (remove_contact_outcomes "friends" [alice; bob] ["0"] ∅ [alice; bob] Hr).
Defined.

Lemma existing_lists_of_stale_store :
  (get_existing_lists stale_store).1 = Ok ["friends"].
Proof. vm_compute. reflexivity. Qed.

Lemma existing_lists_are_the_files_witness :
  (get_existing_lists stale_store).1 = Ok ["friends"]
  /\ Sorted str_le ["friends"]
  /\ NoDup ["friends"]
  /\ forall n, n ∈ ["friends"] <->
       contains "/" n = false
       /\ path_exists (get_existing_lists stale_store).2 (list_path n) = true.
Proof.
  split; [exact existing_lists_of_stale_store |].
  exact (existing_lists_are_the_files stale_store ["friends"]
           existing_lists_of_stale_store).
Defined.

Lemma saved_list_is_listed_witness :
  contains "/" "friends" = false
  /\ (forall text, stale_store !! LISTS_DIR <> Some (File text))
  /\ save_list "friends" friends stale_store
     = Ok (<[ list_path "friends" := File (json_dump (document friends) 2) ]>
             (ensure_lists_dir stale_store))
  /\ exists names,
       get_existing_lists
         (<[ list_path "friends" := File (json_dump (document friends) 2) ]>
            (ensure_lists_dir stale_store))
       = (Ok names,
          <[ list_path "friends" := File (json_dump (document friends) 2) ]>
            (ensure_lists_dir stale_store))
       /\ "friends" ∈ names.
Proof.
  assert (Hn : contains "/" "friends" = false) by reflexivity.
  assert (Hd : forall text, stale_store !! LISTS_DIR <> Some (File text)).
  { intros text. replace (stale_store !! LISTS_DIR) with (@None node)
      by (vm_compute; reflexivity). discriminate. }
  assert (Hs : save_list "friends" friends stale_store
     = Ok (<[ list_path "friends" := File (json_dump (document friends) 2) ]>
             (ensure_lists_dir stale_store))).
  { unfold save_list, write_file.
    replace (ensure_lists_dir stale_store !! list_path "friends")
      with (Some (File "not json at all")) by (vm_compute; reflexivity).
    reflexivity. }
  split; [exact Hn | split; [exact Hd | split; [exact Hs |]]].
  exact (saved_list_is_listed "friends" friends _ _ Hn Hd Hs).
Defined.

End FurtherEvaluations.
